(** * Result checking, penalties and split ranking of sportorg

    A shallow embedding of [sportorg/models/result/result_checker.py] and
    [sportorg/models/result/split_calculation.py], with the properties the
    specification states about them. *)

From Stdlib Require Import ZArith Ascii String List Lia Bool.
From stdpp Require Import base decidable option list strings gmap gmultiset sorting.

Open Scope string_scope.
Open Scope list_scope.
Open Scope Z_scope.

(** ** Python strings

    Codes of controls and punches are Python [str] values.  They are
    modelled as [string]; only 7-bit characters are classified as digits
    or white space. *)
Module Py.

Definition is_digit (c : ascii) : bool :=
  let n := nat_of_ascii c in (48 <=? n)%nat && (n <=? 57)%nat.

(** [str.isspace] on one 7-bit character: TAB..CR, FS..US and the blank. *)
Definition is_space (c : ascii) : bool :=
  let n := nat_of_ascii c in
  ((9 <=? n)%nat && (n <=? 13)%nat) || ((28 <=? n)%nat && (n <=? 32)%nat).

Fixpoint all_chars (p : ascii → bool) (s : string) : bool :=
  match s with
  | EmptyString => true
  | String c s' => p c && all_chars p s'
  end.

(** [s.isdigit()]: non-empty and made of digits. *)
Definition isdigit (s : string) : bool :=
  match s with
  | EmptyString => false
  | _ => all_chars is_digit s
  end.

(** [c in s] for a one-character string [c]. *)
Fixpoint contains (c : ascii) (s : string) : bool :=
  match s with
  | EmptyString => false
  | String d s' => if Ascii.eqb c d then true else contains c s'
  end.

Fixpoint lstrip (p : ascii → bool) (s : string) : string :=
  match s with
  | EmptyString => EmptyString
  | String c s' => if p c then lstrip p s' else s
  end.

Fixpoint rstrip (p : ascii → bool) (s : string) : string :=
  match s with
  | EmptyString => EmptyString
  | String c s' =>
      match rstrip p s' with
      | EmptyString => if p c then EmptyString else String c EmptyString
      | t => String c t
      end
  end.

(** [s.strip(chars)], the characters to drop given as a predicate. *)
Definition strip_chars (p : ascii → bool) (s : string) : string :=
  rstrip p (lstrip p s).

(** [s.strip()]. *)
Definition strip (s : string) : string := strip_chars is_space s.

(** [s.split(sep)] for a one-character separator: the pieces between the
    separators, always at least one piece. *)
Fixpoint split (sep : ascii) (s : string) : list string :=
  match s with
  | EmptyString => [EmptyString]
  | String c s' =>
      if Ascii.eqb c sep then EmptyString :: split sep s'
      else match split sep s' with
           | [] => [String c EmptyString]
           | p :: ps => String c p :: ps
           end
  end.

Definition lower_char (c : ascii) : ascii :=
  let n := nat_of_ascii c in
  if (65 <=? n)%nat && (n <=? 90)%nat then ascii_of_nat (n + 32) else c.

Fixpoint lower (s : string) : string :=
  match s with
  | EmptyString => EmptyString
  | String c s' => String (lower_char c) (lower s')
  end.

(** [s.find(sub) > -1]. *)
Fixpoint has_substring (sub s : string) : bool :=
  if String.prefix sub s then true
  else match s with
       | EmptyString => false
       | String _ s' => has_substring sub s'
       end.

(** [s[:-1]]: all but the last character (empty for the empty string). *)
Fixpoint but_last (s : string) : string :=
  match s with
  | EmptyString => EmptyString
  | String c EmptyString => EmptyString
  | String c s' => String c (but_last s')
  end.

(** [s[-1]]: the last character, [None] where Python raises IndexError. *)
Fixpoint last_char (s : string) : option ascii :=
  match s with
  | EmptyString => None
  | String c EmptyString => Some c
  | String _ s' => last_char s'
  end.

Definition digit_val (c : ascii) : Z := Z.of_nat (nat_of_ascii c) - 48.

(** Digits with single underscores between them, as [int] accepts. *)
Fixpoint digits_value (acc : Z) (after_digit : bool) (s : string) : option Z :=
  match s with
  | EmptyString => if after_digit then Some acc else None
  | String c s' =>
      if is_digit c then digits_value (10 * acc + digit_val c) true s'
      else if Ascii.eqb c "_" && after_digit then
        match s' with
        | String d _ => if is_digit d then digits_value acc false s' else None
        | EmptyString => None
        end
      else None
  end.

(** [int(s)] for a string: [None] where Python raises ValueError. *)
Definition int (s : string) : option Z :=
  match strip s with
  | String "-" t => Z.opp <$> digits_value 0 false t
  | String "+" t => digits_value 0 false t
  | t => digits_value 0 false t
  end.

(** [x in l] on a list. *)
Definition elem {A} `{EqDecision A} (x : A) (l : list A) : bool :=
  bool_decide (x ∈ l).

(** [l.remove(x)] when [x] is in [l]: drops the first occurrence. *)
Fixpoint remove {A} `{EqDecision A} (x : A) (l : list A) : list A :=
  match l with
  | [] => []
  | y :: l' => if decide (x = y) then l' else y :: remove x l'
  end.

(** [l.index(x)], [None] where Python raises ValueError. *)
Fixpoint index {A} `{EqDecision A} (x : A) (l : list A) : option nat :=
  match l with
  | [] => None
  | y :: l' => if decide (x = y) then Some 0%nat else S <$> index x l'
  end.

End Py.

(** ** Data model *)

(** Modelled from the spec: [OTime] is declared in [sportorg.common.otime],
    outside the sources at hand.  The spec uses it as a time or duration
    with millisecond resolution whose zero means "no limit" for
    [max_time]; it is modelled by its millisecond count, [OTime()] being
    zero, [to_msec] the identity and [to_sec] the whole seconds. *)
Module OTime.
Definition t := Z.
Definition zero : t := 0.
Definition to_msec (x : t) : Z := x.
Definition to_sec (x : t) : Z := x / 1000.
End OTime.

(** Modelled from the spec: the enumeration [ResultStatus] is declared in
    [sportorg.models.memory]; its members are the statuses the spec lists
    for [Result.status], which are also all the members the sources name. *)
Inductive ResultStatus :=
  | OK | OVERTIME | MISSING_PUNCH | DISQUALIFIED
  | DID_NOT_START | DID_NOT_FINISH | MISS_PENALTY_LAP | MULTI_DAY_ISSUE.

#[global] Instance ResultStatus_eq_dec : EqDecision ResultStatus.
Proof. solve_decision. Defined.

Module CourseControl.
Record t := mk { code : string; length : Z }.
End CourseControl.

Module Course.
Record t := mk { controls : list CourseControl.t; length : Z }.
End Course.

Module Group.
Record t := mk {
  name : string;
  max_time : OTime.t;
  is_any_course : bool;
  is_relay : bool }.
End Group.

Module Person.
Record t := mk { name : string; bib : Z; group : option Group.t }.
End Person.

Module Split.
Record t := mk {
  code : string;
  time : OTime.t;
  is_correct : bool;
  has_penalty : bool;
  course_index : Z;
  leg_time : option OTime.t;
  relative_time : option OTime.t;
  leg_place : Z;
  relative_place : Z;
  leader_time : option OTime.t }.

Definition set_leg_place (v : Z) (s : t) : t :=
  mk (code s) (time s) (is_correct s) (has_penalty s) (course_index s)
     (leg_time s) (relative_time s) v (relative_place s) (leader_time s).
Definition set_relative_place (v : Z) (s : t) : t :=
  mk (code s) (time s) (is_correct s) (has_penalty s) (course_index s)
     (leg_time s) (relative_time s) (leg_place s) v (leader_time s).
Definition set_leader_time (v : option OTime.t) (s : t) : t :=
  mk (code s) (time s) (is_correct s) (has_penalty s) (course_index s)
     (leg_time s) (relative_time s) (leg_place s) (relative_place s) v.

(** A punch as read from a card: code and time, flags as given. *)
Definition punch (c : string) (tm : OTime.t) (correct penalty : bool) : t :=
  mk c tm correct penalty (-1) None None 0 0 None.
End Split.

Module Result.
Record t := mk {
  person : option Person.t;
  splits : list Split.t;
  start_time : OTime.t;
  finish_time : OTime.t;
  status : ResultStatus;
  status_comment : string;
  penalty_time : OTime.t;
  penalty_laps : Z;
  credit_time : OTime.t;
  rogaine_score : Z;
  rogaine_penalty : Z;
  scores_ardf : Z;
  trailo_score : Z;
  trailo_score_penalty : Z;
  trailo_time : OTime.t }.

Definition set_splits v r :=
  mk (person r) v (start_time r) (finish_time r) (status r) (status_comment r)
     (penalty_time r) (penalty_laps r) (credit_time r) (rogaine_score r)
     (rogaine_penalty r) (scores_ardf r) (trailo_score r)
     (trailo_score_penalty r) (trailo_time r).
Definition set_status v r :=
  mk (person r) (splits r) (start_time r) (finish_time r) v (status_comment r)
     (penalty_time r) (penalty_laps r) (credit_time r) (rogaine_score r)
     (rogaine_penalty r) (scores_ardf r) (trailo_score r)
     (trailo_score_penalty r) (trailo_time r).
Definition set_status_comment v r :=
  mk (person r) (splits r) (start_time r) (finish_time r) (status r) v
     (penalty_time r) (penalty_laps r) (credit_time r) (rogaine_score r)
     (rogaine_penalty r) (scores_ardf r) (trailo_score r)
     (trailo_score_penalty r) (trailo_time r).
Definition set_penalty_time v r :=
  mk (person r) (splits r) (start_time r) (finish_time r) (status r)
     (status_comment r) v (penalty_laps r) (credit_time r) (rogaine_score r)
     (rogaine_penalty r) (scores_ardf r) (trailo_score r)
     (trailo_score_penalty r) (trailo_time r).
Definition set_penalty_laps v r :=
  mk (person r) (splits r) (start_time r) (finish_time r) (status r)
     (status_comment r) (penalty_time r) v (credit_time r) (rogaine_score r)
     (rogaine_penalty r) (scores_ardf r) (trailo_score r)
     (trailo_score_penalty r) (trailo_time r).
Definition set_credit_time v r :=
  mk (person r) (splits r) (start_time r) (finish_time r) (status r)
     (status_comment r) (penalty_time r) (penalty_laps r) v (rogaine_score r)
     (rogaine_penalty r) (scores_ardf r) (trailo_score r)
     (trailo_score_penalty r) (trailo_time r).
Definition set_rogaine_score v r :=
  mk (person r) (splits r) (start_time r) (finish_time r) (status r)
     (status_comment r) (penalty_time r) (penalty_laps r) (credit_time r) v
     (rogaine_penalty r) (scores_ardf r) (trailo_score r)
     (trailo_score_penalty r) (trailo_time r).
Definition set_rogaine_penalty v r :=
  mk (person r) (splits r) (start_time r) (finish_time r) (status r)
     (status_comment r) (penalty_time r) (penalty_laps r) (credit_time r)
     (rogaine_score r) v (scores_ardf r) (trailo_score r)
     (trailo_score_penalty r) (trailo_time r).
Definition set_scores_ardf v r :=
  mk (person r) (splits r) (start_time r) (finish_time r) (status r)
     (status_comment r) (penalty_time r) (penalty_laps r) (credit_time r)
     (rogaine_score r) (rogaine_penalty r) v (trailo_score r)
     (trailo_score_penalty r) (trailo_time r).
Definition set_trailo_score v r :=
  mk (person r) (splits r) (start_time r) (finish_time r) (status r)
     (status_comment r) (penalty_time r) (penalty_laps r) (credit_time r)
     (rogaine_score r) (rogaine_penalty r) (scores_ardf r) v
     (trailo_score_penalty r) (trailo_time r).
Definition set_trailo_score_penalty v r :=
  mk (person r) (splits r) (start_time r) (finish_time r) (status r)
     (status_comment r) (penalty_time r) (penalty_laps r) (credit_time r)
     (rogaine_score r) (rogaine_penalty r) (scores_ardf r) (trailo_score r)
     v (trailo_time r).
Definition set_trailo_time v r :=
  mk (person r) (splits r) (start_time r) (finish_time r) (status r)
     (status_comment r) (penalty_time r) (penalty_laps r) (credit_time r)
     (rogaine_score r) (rogaine_penalty r) (scores_ardf r) (trailo_score r)
     (trailo_score_penalty r) v.

(** [result.person.group], [None] when either link is missing. *)
Definition group (r : t) : option Group.t := person r ≫= Person.group.
End Result.

(** ** Penalty calculator *)

(** [cp.strip(")").strip()] *)
Definition clean_member (cp : string) : string :=
  Py.strip (Py.strip_chars (Ascii.eqb ")") cp).

(** [ResultChecker.get_marked_route_incorrect_list]: the body of the loop
    over the members of one bracketed control, that loop, the body of the
    loop over the controls, and the function. *)
Definition add_incorrect (correct : string) (ret : list string) (cp : string)
    : list string :=
  let cp := clean_member cp in
  if negb (String.eqb cp correct) && Py.isdigit cp then
    if Py.elem cp ret then ret else ret ++ [cp]
  else ret.

Definition incorrect_members (correct : string) (members : list string)
    (ret : list string) : list string :=
  fold_left (add_incorrect correct) members ret.

Definition incorrect_of_control (ret : list string) (i : CourseControl.t)
    : list string :=
  let code_str := CourseControl.code i in
  if negb (String.eqb code_str "") && Py.contains "(" code_str then
    match Py.split "(" code_str with
    | before :: after :: _ =>
        let correct := Py.strip before in
        if Py.isdigit correct then
          incorrect_members correct (Py.split "," after) ret
        else ret
    | _ => ret
    end
  else ret.

Definition get_marked_route_incorrect_list (controls : list CourseControl.t)
    : list string :=
  fold_left incorrect_of_control controls [].

(** The classic loop of [penalty_calculation]: one course code consumes
    one punch; a code ["0"] consumes the first remaining punch. *)
Definition consume_control (user_array : list string) (i : string)
    : list string :=
  if String.eqb i "0" && negb (Nat.eqb (List.length user_array) 0) then
    tail user_array
  else if Py.elem i user_array then Py.remove i user_array
  else user_array.

Section PenaltyCalculation.

(** [CourseControl.get_number_code] is declared in
    [sportorg.models.memory]; it is taken as given. *)
Variable get_number_code : CourseControl.t → string.

(** [ResultChecker.penalty_calculation] *)
Definition penalty_calculation (splits : list Split.t)
    (controls : list CourseControl.t) (check_existence : bool) : Z :=
  let user_array := map Split.code splits in
  let origin_array := map get_number_code controls in
  let res :=
    if check_existence
       && (List.length user_array <? List.length origin_array)%nat
    then Z.of_nat (List.length origin_array) - Z.of_nat (List.length user_array)
    else 0 in
  let incorrect_array := get_marked_route_incorrect_list controls in
  match incorrect_array with
  | _ :: _ =>
      fold_left (λ res i, if Py.elem i user_array then res + 1 else res)
        incorrect_array res
  | [] =>
      let user_array := fold_left consume_control origin_array user_array in
      res + Z.of_nat (List.length user_array)
  end.

End PenaltyCalculation.

(** [ResultChecker.penalty_calculation_free_order] *)
Definition penalty_calculation_free_order (splits : list Split.t)
    (controls : list CourseControl.t) : Z :=
  let res := 0 in
  let correct_count :=
    fold_left (λ n (i : Split.t), if negb (Split.has_penalty i) then n + 1 else n)
      splits 0 in
  let res := res + Z.max (Z.of_nat (List.length controls) - correct_count) 0 in
  res.

(** *** The classic model in the words of the specification

    Walk the course codes in order; a code present among the remaining
    punches removes one occurrence of it, a code ["0"] takes the first
    remaining punch whatever it is.  What is left is penalised. *)
Fixpoint unmatched_punches (origin user : list string) : list string :=
  match origin with
  | [] => user
  | c :: origin' =>
      unmatched_punches origin'
        (if decide (c = "0") then tail user else Py.remove c user)
  end.

(** Extra penalty of [check_existence]: the punches the athlete lacks. *)
Definition existence_shortfall (check_existence : bool) (punches controls : nat) : Z :=
  if check_existence && (punches <? controls)%nat
  then Z.of_nat controls - Z.of_nat punches else 0.

(** A course without choice-set controls: no code has a bracket. *)
Definition no_choice_controls (controls : list CourseControl.t) : Prop :=
  Forall (λ c, Py.contains "(" (CourseControl.code c) = false) controls.

(** An instance of [get_number_code] for examples: the leading digits of
    the code, ["0"] when it has none (a wildcard). *)
Fixpoint leading_digits (s : string) : string :=
  match s with
  | EmptyString => EmptyString
  | String c s' => if Py.is_digit c then String c (leading_digits s') else EmptyString
  end.

Definition leading_number_code (c : CourseControl.t) : string :=
  match leading_digits (CourseControl.code c) with
  | EmptyString => "0"
  | d => d
  end.

Definition control (code : string) : CourseControl.t := CourseControl.mk code 0.

(** A punch of the given code with neutral flags. *)
Definition punched (code : string) : Split.t := Split.punch code 0 true false.

(** *** Choice-set controls, as the course editor writes them

    ["31(31,131)"]: the correct code, then the bracketed set of codes on
    offer, separated by commas. *)
Fixpoint join_commas (members : list string) : string :=
  match members with
  | [] => ""
  | [m] => m
  | m :: ms => (m ++ "," ++ join_commas ms)%string
  end.

Definition choice_code (correct : string) (members : list string) : string :=
  (correct ++ "(" ++ join_commas members ++ ")")%string.

(** The control [c] is the choice control of [correct] among [members]. *)
Definition is_choice_control (c : CourseControl.t) (correct : string)
    (members : list string) : Prop :=
  CourseControl.code c = choice_code correct members
  ∧ Py.isdigit correct = true
  ∧ members ≠ []
  ∧ Forall (λ m, Py.isdigit m = true) members.

(** A choice-set control that offers at least one wrong code. *)
Definition offers_wrong_choice (c : CourseControl.t) : Prop :=
  ∃ correct members wrong,
    is_choice_control c correct members ∧ wrong ∈ members ∧ wrong ≠ correct.

(** Every control of the course is plain or a choice control. *)
Definition plain_or_choice (controls : list CourseControl.t) : Prop :=
  Forall (λ c, Py.contains "(" (CourseControl.code c) = false
               ∨ ∃ correct members, is_choice_control c correct members)
    controls.

(** The punches that carry no penalty flag. *)
Definition penalty_free (splits : list Split.t) : list Split.t :=
  filter (λ s, Split.has_penalty s = false) splits.

(** The incorrect choices among the punched codes. *)
Definition punched_incorrect (incorrect user : list string) : list string :=
  filter (λ x, x ∈ user) incorrect.

(** The course has a choice-set control. *)
Definition has_choice_control (controls : list CourseControl.t) : Prop :=
  ∃ c correct members, c ∈ controls ∧ is_choice_control c correct members.

(** The penalty of a course with a choice-set control as the
    specification states it: one penalty for each distinct incorrect
    choice code among the punches, the classic consumption skipped, the
    existence shortfall still added. *)
Definition choice_penalty_as_specified
    (get_number_code : CourseControl.t → string) (splits : list Split.t)
    (controls : list CourseControl.t) (check_existence : bool) : Prop :=
  has_choice_control controls →
  penalty_calculation get_number_code splits controls check_existence
  = existence_shortfall check_existence (List.length splits) (List.length controls)
    + Z.of_nat
        (List.length
           (punched_incorrect (get_marked_route_incorrect_list controls)
              (map Split.code splits))).

(** ** ARDF score *)

(** State of the walk of [calculate_scores_ardf]: the cursor into the
    course, the codes already awarded, and the score. *)
Record ardf_state := ArdfState {
  index_in_order : nat;
  user_array : list string;
  ret : Z }.

(** [current_cp.strip("?()").split(",")] *)
Definition ardf_options (current_cp : string) : list string :=
  Py.split "," (Py.strip_chars (λ c, Py.contains c "?()") current_cp).

Definition ardf_award (code : string) (index : nat) (st : ardf_state) : ardf_state :=
  ArdfState index (user_array st ++ [code]) (ret st + 1).

(** The [while] loop for one punch.  [rest] is the course from the cursor
    on, [correct_order[index_in_order:]]; the loop ends when it is used up
    ([index_in_order] has reached [len(correct_order)]) or at a [break]. *)
Fixpoint ardf_while (rest : list string) (code : string) (initial_index : nat)
    (st : ardf_state) : ardf_state :=
  match rest with
  | [] => st
  | current_cp :: rest' =>
      let next :=
        ArdfState (index_in_order st + 1) (user_array st) (ret st) in
      if Py.contains "?" current_cp then
        if Py.contains "(" current_cp && Py.contains ")" current_cp then
          let options := ardf_options current_cp in
          if Py.elem code options && negb (Py.elem code (user_array st)) then
            ardf_award code (initial_index + 1) st
          else ardf_while rest' code initial_index next
        else
          if negb (Py.elem code (user_array st)) then
            ardf_award code (initial_index + 1) st
          else ardf_while rest' code initial_index next
      else if String.eqb code current_cp then
        if negb (Py.elem code (user_array st)) then
          ardf_award code (index_in_order st + 1) st
        else next
      else ArdfState initial_index (user_array st) (ret st)
  end.

(** One turn of the [for] loop over the punches. *)
Definition ardf_punch (correct_order : list string) (st : ardf_state)
    (cur_split : Split.t) : ardf_state :=
  ardf_while (drop (index_in_order st) correct_order) (Split.code cur_split)
    (index_in_order st) st.

Definition ardf_walk (correct_order : list string) (splits : list Split.t)
    : ardf_state :=
  fold_left (ardf_punch correct_order) splits (ArdfState 0 [] 0).


Section ScoresArdf.

(** [race().find_course] and [Result.get_result_otime] are declared in
    [sportorg.models.memory]; they are taken as given. *)
Variable find_course : Result.t → option Course.t.
Variable get_result_otime : Result.t → OTime.t.

(** [OTime() < max_time < user_time] *)
Definition over_max_time (result : Result.t) (g : Group.t) : bool :=
  (OTime.zero <? Group.max_time g) && (Group.max_time g <? get_result_otime result).

(** [ResultChecker.calculate_scores_ardf]: the score returned and the
    result as the call leaves it. *)
Definition calculate_scores_ardf (result : Result.t) : Z * Result.t :=
  match find_course result with
  | None => (0, result)
  | Some course =>
      let correct_order := map CourseControl.code (Course.controls course) in
      let st := ardf_walk correct_order (Result.splits result) in
      match Result.group result with
      | Some g =>
          if over_max_time result g
          then (0, Result.set_status DISQUALIFIED result)
          else (ret st, result)
      | None => (ret st, result)
      end
  end.

End ScoresArdf.






(** ** Sample data for the examples *)

Definition runner (g : option Group.t) : Person.t := Person.mk "Runner" 101 g.

Definition group_with_limit (max_time : OTime.t) : Group.t :=
  Group.mk "M21" max_time false false.

(** A freshly read result: no penalties, scores or credit yet. *)
Definition fresh_result (person : option Person.t) (splits : list Split.t)
    (start finish : OTime.t) (status : ResultStatus) : Result.t :=
  Result.mk person splits start finish status "" 0 0 0 0 0 0 0 0 0.

Definition minutes (n : Z) : OTime.t := n * 60000.

(** Modelled from the spec: [Result.get_result_otime] is declared in
    [sportorg.models.memory].  The spec describes the elapsed result time
    as the time from start to finish from which the credit time is
    excluded ("elapsed time excluded from total result time"). *)
Definition elapsed_less_credit (result : Result.t) : OTime.t :=
  Result.finish_time result - Result.start_time result - Result.credit_time result.



(** ** Race settings and the race object *)

(** A value stored under a settings key: [None], a bool, a number or a
    string. *)
Inductive setting :=
  | VNone
  | VBool (b : bool)
  | VInt (n : Z)
  | VStr (s : string).

Module Setting.

(** Truth value of a setting in an [if]. *)
Definition truthy (v : setting) : bool :=
  match v with
  | VNone => false
  | VBool b => b
  | VInt n => negb (n =? 0)
  | VStr s => negb (String.eqb s "")
  end.

(** [v == s] for a string literal [s]. *)
Definition is_str (v : setting) (s : string) : bool :=
  match v with
  | VStr s' => String.eqb s' s
  | _ => false
  end.

(** The setting as a number, [None] where arithmetic on it raises
    TypeError.  A bool counts as 0 or 1. *)
Definition number (v : setting) : option Z :=
  match v with
  | VInt n => Some n
  | VBool b => Some (Z.b2z b)
  | _ => None
  end.

(** [n == v] for an integer [n]. *)
Definition eq_int (n : Z) (v : setting) : bool :=
  match number v with
  | Some m => n =? m
  | None => false
  end.

End Setting.

(** The object [race()] as far as the checker reads it.  [find_course] is
    declared in [sportorg.models.memory] and taken as given; [controls]
    are the race controls with their scores. *)
Module Race.
Record t := mk {
  settings : gmap string setting;
  controls : list (string * Z);
  find_course : Result.t → option Course.t }.

(** [race().get_setting(key, default)] *)
Definition get_setting (r : t) (key : string) (def_value : setting) : setting :=
  default def_value (settings r !! key).
End Race.

(** The methods of [sportorg.models.memory] and [sportorg.models.constant]
    that the checker calls and that are declared outside the sources at
    hand; they are taken as given.  [check] stands for [Result.check],
    which reports whether the punches fit the course and sets the flags
    of the splits. *)
Module Memory.
Record t := mk {
  get_result_otime : Result.t → OTime.t;
  check : Result.t → option Course.t → bool * list Split.t;
  get_number_code : CourseControl.t → string;
  get_status_default_comment : ResultStatus → string }.
End Memory.

(** ** Exceptions and the state of a call *)

Inductive exn :=
  | ResultCheckerException (msg : string)
  | ValueError
  | IndexError
  | TypeError
  | AttributeError.

(** A computation that may raise and changes nothing. *)
Inductive fallible (A : Type) :=
  | Value (a : A)
  | Error (e : exn).
Arguments Value {A} a.
Arguments Error {A} e.

#[global] Instance fallible_ret : MRet fallible := λ A a, Value a.
#[global] Instance fallible_bind : MBind fallible := λ A B f m,
  match m with
  | Value a => f a
  | Error e => Error e
  end.

Definition or_raise {A} (e : exn) (o : option A) : fallible A :=
  match o with
  | Some a => Value a
  | None => Error e
  end.

(** How a call on a result ends: it returns a value or raises, and in
    both cases leaves the result object in some state. *)
Inductive outcome (A : Type) :=
  | Return (a : A) (result : Result.t)
  | Raise (e : exn) (result : Result.t).
Arguments Return {A} a result.
Arguments Raise {A} e result.

Definition final_state {A} (o : outcome A) : Result.t :=
  match o with
  | Return _ r => r
  | Raise _ r => r
  end.

(** A method working on the result object. *)
Definition action (A : Type) : Type := Result.t → outcome A.

#[global] Instance action_ret : MRet action := λ A a r, Return a r.
#[global] Instance action_bind : MBind action := λ A B f m r,
  match m r with
  | Return a r' => f a r'
  | Raise e r' => Raise e r'
  end.

Definition raise {A} (e : exn) : action A := λ r, Raise e r.
Definition get : action Result.t := λ r, Return r r.
Definition modify (f : Result.t → Result.t) : action unit := λ r, Return tt (f r).
Definition lift {A} (m : fallible A) : action A := λ r,
  match m with
  | Value a => Return a r
  | Error e => Raise e r
  end.

Fixpoint fold_fallible {A B} (f : B → A → fallible B) (l : list A) (b : B)
    : fallible B :=
  match l with
  | [] => Value b
  | a :: l' => b' ← f b a; fold_fallible f l' b'
  end.

(** A [for] loop left by [break] at the first element on which the test
    holds; the test may raise. *)
Fixpoint find_fallible {A} (test : A → fallible bool) (l : list A)
    : fallible (option A) :=
  match l with
  | [] => Value None
  | a :: l' => b ← test a; if b : bool then Value (Some a) else find_fallible test l'
  end.

Fixpoint filter_fallible {A} (test : A → fallible bool) (l : list A)
    : fallible (list A) :=
  match l with
  | [] => Value []
  | a :: l' =>
      b ← test a; rest ← filter_fallible test l';
      Value (if b : bool then a :: rest else rest)
  end.

(** [int(code[:-1])] and [code[-1]] *)
Definition int_prefix (code : string) : fallible Z :=
  or_raise ValueError (Py.int (Py.but_last code)).
Definition last_letter (code : string) : fallible ascii :=
  or_raise IndexError (Py.last_char code).
Definition int_code (code : string) : fallible Z :=
  or_raise ValueError (Py.int code).

(** The status list that [checking] leaves untouched. *)
Definition already_checked (status : ResultStatus) : bool :=
  Py.elem status [OK; MISSING_PUNCH; OVERTIME; MISS_PENALTY_LAP; MULTI_DAY_ISSUE].

(** ** The result checker *)

Section ResultChecker.

Variable race : Race.t.
Variable mem : Memory.t.

Abbreviation get_setting := (Race.get_setting race).
Abbreviation find_course := (Race.find_course race).
Abbreviation get_result_otime := (Memory.get_result_otime mem).

(** [OTime(msec=race().get_setting(key, default))] *)
Definition otime_setting (key : string) (def_value : Z) : fallible OTime.t :=
  or_raise TypeError (Setting.number (get_setting key (VInt def_value))).

(** [ResultChecker.credit_calculation] *)
Fixpoint credit_loop (credit_cp : setting) (prev : option Split.t)
    (splits : list Split.t) (result_credit_time : OTime.t) : fallible OTime.t :=
  match splits with
  | [] => Value result_credit_time
  | split :: rest =>
      code ← int_code (Split.code split);
      let result_credit_time :=
        match prev with
        | Some before =>
            if Setting.eq_int code credit_cp
            then result_credit_time + (Split.time split - Split.time before)
            else result_credit_time
        | None => result_credit_time
        end in
      credit_loop credit_cp (Some split) rest result_credit_time
  end.

Definition credit_calculation (splits : list Split.t) (credit_cp : setting)
    : fallible OTime.t :=
  credit_loop credit_cp None splits OTime.zero.

(** [ResultChecker.calculate_credit_time] *)
Definition calculate_credit_time : action unit := λ result,
  if negb (Setting.truthy (get_setting "credit_time_enabled" (VBool false)))
  then Return tt result
  else
    let credit_cp := get_setting "credit_time_cp" (VInt 250) in
    (credit ← lift (credit_calculation (Result.splits result) credit_cp);
     modify (Result.set_credit_time credit)) result.

(** [ResultChecker.detach_penalty_laps2] *)
Definition detach_penalty_laps2 (splits : list Split.t) (lap_station : setting)
    : fallible (list Split.t * list Split.t) :=
  match splits with
  | [] => Value ([], [])
  | _ =>
      regular ← filter_fallible (λ punch,
          if Split.is_correct punch then Value true
          else code ← int_code (Split.code punch);
               Value (negb (Setting.eq_int code lap_station))) splits;
      penalty ← filter_fallible (λ punch,
          code ← int_code (Split.code punch);
          Value (Setting.eq_int code lap_station && negb (Split.is_correct punch)))
        splits;
      Value (regular, penalty)
  end.

(** [ResultChecker.check_penalty_laps] *)
Definition check_penalty_laps (result : Result.t) : fallible bool :=
  let mode := get_setting "marked_route_mode" (VStr "off") in
  let check_laps := get_setting "marked_route_if_station_check" VNone in
  if Setting.is_str mode "laps" && Setting.truthy check_laps then
    let lap_station := get_setting "marked_route_penalty_lap_station_code" VNone in
    detached ← detach_penalty_laps2 (Result.splits result) lap_station;
    let penalty_laps := snd detached in
    if Z.of_nat (List.length penalty_laps) <? Result.penalty_laps result
    then Value false else Value true
  else Value true.

(** [ResultChecker._check_overtime] *)
Definition _check_overtime : action unit := λ result,
  match Result.group result with
  | None => Return tt result
  | Some group =>
      let result_time := get_result_otime result in
      let max_time := Group.max_time group in
      if OTime.to_msec max_time =? 0 then Return tt result
      else
        let rp_mode := get_setting "result_processing_mode" (VStr "time") in
        if Setting.is_str rp_mode "time" || Setting.is_str rp_mode "ardf" then
          if max_time <? result_time
          then Return tt (Result.set_status OVERTIME result)
          else Return tt result
        else if Setting.is_str rp_mode "scores" then
          (max_overrun_time ←
             lift (otime_setting "result_processing_scores_max_overrun_time" 0);
           if (0 <? OTime.to_msec max_overrun_time)
              && (max_time + max_overrun_time <? result_time)
           then modify (Result.set_status OVERTIME)
           else mret tt) result
        else Return tt result
  end.

(** [ResultChecker._validate_result_status] *)
Definition _validate_result_status (check_flag : bool) : action unit :=
  if negb check_flag then modify (Result.set_status MISSING_PUNCH)
  else
    laps_ok ← (λ result, lift (check_penalty_laps result) result);
    if negb laps_ok then modify (Result.set_status MISS_PENALTY_LAP)
    else _check_overtime.

(** [ResultChecker.penalty_calculation_trailo] *)
Definition trailo_wrong_answer (control_point : CourseControl.t)
    (control_point_code : Z) (cur_split : Split.t) : fallible bool :=
  cur_code ← int_prefix (Split.code cur_split);
  if cur_code =? control_point_code then
    answer ← last_letter (CourseControl.code control_point);
    if negb (Ascii.eqb answer "T") then
      given ← last_letter (Split.code cur_split);
      answer ← last_letter (CourseControl.code control_point);
      Value (negb (Ascii.eqb given answer))
    else Value false
  else Value false.

Definition penalty_calculation_trailo (splits : list Split.t)
    (controls : list CourseControl.t) : fallible OTime.t :=
  penalty_time ← otime_setting "marked_route_penalty_time" 60000;
  fold_fallible (λ res control_point,
      control_point_code ← int_prefix (CourseControl.code control_point);
      if control_point_code <? 100 then Value res
      else
        found ← find_fallible
                  (trailo_wrong_answer control_point control_point_code) splits;
        Value (if found is Some _ then res + penalty_time else res))
    controls OTime.zero.

(** [ResultChecker._calculate_trailo_penalty] *)
Definition _calculate_trailo_penalty (course : Course.t) (mode : setting)
    : action unit := λ result,
  (penalty ← lift (penalty_calculation_trailo (Result.splits result)
                     (Course.controls course));
   modify (Result.set_penalty_time penalty)) result.

(** [ResultChecker._calculate_standard_penalty]; the caller has made sure
    that the person has a group. *)
Definition _calculate_standard_penalty (group : Group.t) (course : Course.t)
    (mode : setting) : action unit :=
  let name := Py.lower (Group.name group) in
  let mode := if Py.has_substring "_min" name then VStr "time" else mode in
  let mode := if Py.has_substring "_lap" name then VStr "laps" else mode in
  (if Setting.is_str mode "laps"
      && Setting.truthy (get_setting "marked_route_if_station_check" VNone)
   then
     let lap_station := get_setting "marked_route_penalty_lap_station_code" VNone in
     result ← get;
     detached ← lift (detach_penalty_laps2 (Result.splits result) lap_station);
     modify (Result.set_splits (fst detached))
   else mret tt);;
  result ← get;
  let penalty :=
    if Setting.truthy (get_setting "marked_route_dont_dsq" (VBool false))
    then penalty_calculation_free_order (Result.splits result) (Course.controls course)
    else penalty_calculation (Memory.get_number_code mem) (Result.splits result)
           (Course.controls course) true in
  let penalty :=
    if Setting.truthy (get_setting "marked_route_max_penalty_by_cp" (VBool false))
    then Z.min (Z.of_nat (List.length (Course.controls course))) penalty
    else penalty in
  modify (Result.set_penalty_laps 0);;
  modify (Result.set_penalty_time OTime.zero);;
  if Setting.is_str mode "laps" then modify (Result.set_penalty_laps penalty)
  else if Setting.is_str mode "time" then
    time_for_one_penalty ← lift (otime_setting "marked_route_penalty_time" 60000);
    modify (Result.set_penalty_time (time_for_one_penalty * penalty))
  else mret tt.

(** [ResultChecker.calculate_penalty] *)
Definition calculate_penalty : action unit := λ result,
  let mode := get_setting "marked_route_mode" (VStr "off") in
  if Setting.is_str mode "off" then Return tt result
  else
    match Result.group result with
    | None => Return tt result
    | Some group =>
        match find_course result with
        | None => Return tt result
        | Some course =>
            let processing_mode :=
              get_setting "result_processing_mode" (VStr "time") in
            if Setting.is_str processing_mode "trailo"
            then _calculate_trailo_penalty course mode result
            else _calculate_standard_penalty group course mode result
        end
    end.

(** [ResultChecker.get_control_score] *)
Definition get_control_score (code : string) : fallible Z :=
  let control := List.find (λ c, String.eqb (fst c) code) (Race.controls race) in
  let own_score :=
    match control with
    | Some c => if snd c =? 0 then None else Some (snd c)
    | None => None
    end in
  match own_score with
  | Some score => Value score
  | None =>
      if Setting.is_str
           (get_setting "result_processing_score_mode" (VStr "fixed")) "fixed"
      then or_raise TypeError
             (Setting.number
                (get_setting "result_processing_fixed_score_value" (VInt 1)))
      else n ← int_code code; Value (n / 10)
  end.

(** [ResultChecker.calculate_rogaine_score] *)
Fixpoint rogaine_loop (allow_duplicates : bool) (splits : list Split.t)
    (user_array : list string) (score : Z) : fallible Z :=
  match splits with
  | [] => Value score
  | cur_split :: rest =>
      let code := Split.code cur_split in
      if negb (Py.elem code user_array) || allow_duplicates then
        points ← get_control_score code;
        rogaine_loop allow_duplicates rest (user_array ++ [code]) (score + points)
      else rogaine_loop allow_duplicates rest user_array score
  end.

Definition calculate_rogaine_score (result : Result.t) (allow_duplicates : setting)
    : fallible Z :=
  rogaine_loop (Setting.truthy allow_duplicates) (Result.splits result) [] 0.

(** [ResultChecker.calculate_rogaine_penalty] *)
Definition calculate_rogaine_penalty (result : Result.t) (score : Z)
    (penalty_step : setting) : fallible Z :=
  penalty ←
    match Result.group result with
    | Some group =>
        let user_time := get_result_otime result in
        let max_time := Group.max_time group in
        if (OTime.zero <? max_time) && (max_time <? user_time) then
          let time_diff := user_time - max_time in
          let seconds_diff := OTime.to_sec time_diff in
          let minutes_diff := (seconds_diff + 59) / 60 in
          step ← or_raise TypeError (Setting.number penalty_step);
          Value (minutes_diff * step)
        else Value 0
    | None => Value 0
    end;
  Value (Z.min penalty score).

(** [ResultChecker.calculate_scores_trailo] *)
Definition trailo_right_answer (control_point : CourseControl.t)
    (cur_split : Split.t) : fallible bool :=
  cur_code ← int_prefix (Split.code cur_split);
  control_point_code ← int_prefix (CourseControl.code control_point);
  if cur_code =? control_point_code then
    given ← last_letter (Split.code cur_split);
    answer ← last_letter (CourseControl.code control_point);
    Value (Ascii.eqb given answer)
  else Value false.

Definition calculate_scores_trailo (result : Result.t) : fallible Z :=
  match find_course result with
  | None => Value 0
  | Some course =>
      fold_fallible (λ ret control_point,
          control_point_code ← int_prefix (CourseControl.code control_point);
          if 100 <=? control_point_code then Value ret
          else
            found ← find_fallible (trailo_right_answer control_point)
                      (Result.splits result);
            Value (if found is Some _ then ret + 1 else ret))
        (Course.controls course) 0
  end.

(** [ResultChecker.calculate_time_trailo] *)
Definition trailo_timed_punch (control_point : CourseControl.t)
    (cur_split : Split.t) : fallible bool :=
  cur_code ← int_prefix (Split.code cur_split);
  control_point_code ← int_prefix (CourseControl.code control_point);
  if cur_code =? control_point_code then
    given ← last_letter (Split.code cur_split);
    Value (Ascii.eqb given "T")
  else Value false.

Definition calculate_time_trailo (result : Result.t) : fallible OTime.t :=
  match find_course result with
  | None => Value OTime.zero
  | Some course =>
      fold_fallible (λ ret control_point,
          answer ← last_letter (CourseControl.code control_point);
          if negb (Ascii.eqb answer "T") then Value ret
          else
            found ← find_fallible (trailo_timed_punch control_point)
                      (Result.splits result);
            Value (if found is Some cur_split then ret + Split.time cur_split
                   else ret))
        (Course.controls course) OTime.zero
  end.

(** [ResultChecker._process_ardf_mode] *)
Definition _process_ardf_mode : action unit := λ result,
  let '(score, result) :=
    calculate_scores_ardf find_course get_result_otime result in
  Return tt (Result.set_scores_ardf score result).

(** [ResultChecker._process_trailo_mode] *)
Definition _process_trailo_mode : action unit :=
  result ← get;
  scores ← lift (calculate_scores_trailo result);
  penalty ← lift (calculate_rogaine_penalty result scores (VInt 1));
  time ← lift (calculate_time_trailo result);
  modify (Result.set_trailo_score_penalty penalty);;
  modify (Result.set_trailo_score (scores - penalty));;
  modify (Result.set_trailo_time time).

(** [ResultChecker._process_scores_mode] *)
Definition _process_scores_mode : action unit :=
  let allow_duplicates :=
    get_setting "result_processing_scores_allow_duplicates" (VBool false) in
  let penalty_step :=
    get_setting "result_processing_scores_minute_penalty" (VInt 1) in
  result ← get;
  score ← lift (calculate_rogaine_score result allow_duplicates);
  penalty ← lift (calculate_rogaine_penalty result score penalty_step);
  modify (Result.set_rogaine_score (score - penalty));;
  modify (Result.set_rogaine_penalty penalty).

(** [ResultChecker._get_course] *)
Definition _get_course (result : Result.t) : option Course.t :=
  match Result.person result with
  | Some _ => find_course result
  | None => None
  end.

(** [result.check(course)]: the flags of the splits are set, the verdict
    is returned. *)
Definition result_check (course : option Course.t) : action bool := λ result,
  let '(verdict, splits) := Memory.check mem result course in
  Return verdict (Result.set_splits splits result).

(** [ResultChecker._process_standard_mode], for the person [self.person]
    of the checker. *)
Definition _process_standard_mode (person : Person.t) : action bool :=
  if Setting.truthy (get_setting "marked_route_dont_dsq" (VBool false)) then
    result ← get;
    result_check (_get_course result);;
    mret true
  else
    result ← get;
    match _get_course result with
    | None =>
        mret (match Person.group person with
              | Some group => negb (Group.is_any_course group)
              | None => true
              end)
    | Some course =>
        match Person.group person with
        | Some group =>
            if Group.is_any_course group then mret true
            else result_check (Some course)
        | None => raise AttributeError
        end
    end.

(** [ResultChecker.check_result], for the person [self.person] of the
    checker. *)
Definition check_result (person : option Person.t) : action bool :=
  match person with
  | None => mret true
  | Some p =>
      match Person.group p with
      | None => mret true
      | Some _ =>
          let processing_mode :=
            get_setting "result_processing_mode" (VStr "time") in
          if Setting.is_str processing_mode "ardf" then
            _process_ardf_mode;; mret true
          else if Setting.is_str processing_mode "trailo" then
            _process_trailo_mode;; mret true
          else if Setting.is_str processing_mode "scores" then
            _process_scores_mode;; mret true
          else _process_standard_mode p
      end
  end.

(** [ResultChecker.checking].  The checker object it returns carries
    nothing but the person and is left out. *)
Definition checking : action unit := λ result,
  match Result.person result with
  | None => Raise (ResultCheckerException "Not person") result
  | Some person =>
      if already_checked (Result.status result) then Return tt result
      else
        (modify (Result.set_status OK);;
         check_flag ← check_result (Some person);
         (* penalties and credit time *)
         calculate_penalty;;
         calculate_credit_time;;
         (* status of the result *)
         _validate_result_status check_flag;;
         modify (λ result,
           Result.set_status_comment
             (Memory.get_status_default_comment mem (Result.status result))
             result)) result
  end.

End ResultChecker.

(** ** Sample race for the examples *)

(** Methods of the memory module for the examples: the elapsed time of
    the spec, a course check that accepts every result and leaves the
    flags alone, the leading digits as number code, no comments. *)
Definition sample_memory : Memory.t :=
  Memory.mk elapsed_less_credit (λ result _, (true, Result.splits result))
    leading_number_code (λ _, "").

(** A race in mode "scores" with the given overrun window. *)
Definition scores_race (window : Z) : Race.t :=
  Race.mk {[ "result_processing_mode" := VStr "scores";
             "result_processing_scores_max_overrun_time" := VInt window ]}
    [] (λ _, None).

(** What the specification says of the overtime check in mode "scores":
    the status is OVERTIME after the check exactly when the elapsed time
    exceeds [max_time] plus the configured overrun window. *)
Definition scores_overtime_as_specified (race : Race.t) (mem : Memory.t)
    (result : Result.t) (group : Group.t) (window : OTime.t) : Prop :=
  Result.status (final_state (_check_overtime race mem result)) = OVERTIME
  ↔ Group.max_time group + window < Memory.get_result_otime mem result.

(** ** What a call may do to a result *)

(** Every exception the checker can meet but the one it raises itself. *)
Definition foreign (e : exn) : Prop :=
  match e with
  | ResultCheckerException _ => False
  | _ => True
  end.

(** A fallible computation raises only exceptions in [E]. *)
Definition raises_only {A} (E : exn → Prop) (m : fallible A) : Prop :=
  match m with
  | Value _ => True
  | Error e => E e
  end.

(** Started on [r], a call ends in a state related to [r] by [Q], and
    raises only exceptions in [E]. *)
Definition ends_in {A} (Q : Result.t → Result.t → Prop) (E : exn → Prop)
    (r : Result.t) (o : outcome A) : Prop :=
  match o with
  | Return _ r' => Q r r'
  | Raise e r' => E e ∧ Q r r'
  end.

(** Person and status are as before. *)
Definition same_verdict (r r' : Result.t) : Prop :=
  Result.person r' = Result.person r ∧ Result.status r' = Result.status r.

(** Person as before, status as before or one of [statuses]. *)
Definition verdict_among (statuses : list ResultStatus) (r r' : Result.t) : Prop :=
  Result.person r' = Result.person r
  ∧ (Result.status r' = Result.status r ∨ Result.status r' ∈ statuses).

(** The statuses that [checking] takes as final. *)
Definition checked_statuses : list ResultStatus :=
  [OK; MISSING_PUNCH; OVERTIME; MISS_PENALTY_LAP; MULTI_DAY_ISSUE].

(** The fields the specification names for idempotence. *)
Definition same_outcome_fields (r1 r2 : Result.t) : Prop :=
  Result.status r2 = Result.status r1
  ∧ Result.penalty_time r2 = Result.penalty_time r1
  ∧ Result.penalty_laps r2 = Result.penalty_laps r1
  ∧ Result.credit_time r2 = Result.credit_time r1
  ∧ Result.rogaine_score r2 = Result.rogaine_score r1
  ∧ Result.rogaine_penalty r2 = Result.rogaine_penalty r1
  ∧ Result.scores_ardf r2 = Result.scores_ardf r1
  ∧ Result.trailo_score r2 = Result.trailo_score r1
  ∧ Result.trailo_score_penalty r2 = Result.trailo_score_penalty r1
  ∧ Result.trailo_time r2 = Result.trailo_time r1.

(** Idempotence of [checking] as the specification states it. *)
Definition checking_idempotent_as_specified (race : Race.t) (mem : Memory.t)
    (result : Result.t) : Prop :=
  Result.person result ≠ None →
  ∀ r1 r2,
    checking race mem result = Return tt r1 →
    checking race mem r1 = Return tt r2 →
    same_outcome_fields r1 r2.

(** The penalty-lap check is switched on in the settings. *)
Definition lap_check_enabled (race : Race.t) : bool :=
  Setting.is_str (Race.get_setting race "marked_route_mode" (VStr "off")) "laps"
  && Setting.truthy (Race.get_setting race "marked_route_if_station_check" VNone).

(** An ARDF race that credits the time spent before control 250. *)
Definition ardf_credit_race : Race.t :=
  Race.mk {[ "result_processing_mode" := VStr "ardf";
             "credit_time_enabled" := VBool true ]}
    [] (λ _, Some (Course.mk [control "31"] 0)).

(** 100 minutes on the clock against a limit of 90, of which 20 minutes
    before the punch of control 250 are credited. *)
Definition credited_runner : Result.t :=
  fresh_result (Some (runner (Some (group_with_limit (minutes 90)))))
    [Split.punch "31" (minutes 40) true false;
     Split.punch "250" (minutes 60) true false]
    0 (minutes 100) DID_NOT_FINISH.

(** A race that checks penalty laps at a station. *)
Definition lap_race : Race.t :=
  Race.mk {[ "marked_route_mode" := VStr "laps";
             "marked_route_if_station_check" := VBool true;
             "marked_route_penalty_lap_station_code" := VInt 99 ]}
    [] (λ _, None).

(** A person without group whose result still carries one penalty lap. *)
Definition groupless_with_lap : Result.t :=
  Result.mk (Some (runner None)) [] 0 (minutes 30) DID_NOT_FINISH ""
    0 1 0 0 0 0 0 0 0.

(** What is stated of persons without group: a result that is not yet
    final ends with status OK. *)
Definition ok_without_group_as_stated (race : Race.t) (mem : Memory.t)
    (result : Result.t) : Prop :=
  ∀ person,
    Result.person result = Some person →
    Person.group person = None →
    Result.status result ∉ checked_statuses →
    Result.status (final_state (checking race mem result)) = OK.

(** ** Split calculation: ranking the results of a group *)

(** [list.sort(key=...)]: Python sorts by the keys with [<] alone and
    keeps the order of elements whose keys do not differ.  A stable
    insertion sort does the same. *)
Section Sort.

Context {A K : Type} (lt : K → K → bool) (key : A → K).

Fixpoint sort_insert (x : A) (l : list A) : list A :=
  match l with
  | [] => [x]
  | y :: l' => if lt (key y) (key x) then y :: sort_insert x l' else x :: y :: l'
  end.

Definition sort_by (l : list A) : list A := foldr sort_insert [] l.

(** [a] may stand before [b]: the key of [b] is not below the key of [a]. *)
Definition in_order (a b : A) : Prop := lt (key b) (key a) = false.

End Sort.

Module PersonSplits.
Record t := mk {
  result : Result.t;
  last_correct_index : Z;
  relay_leg : Z }.

Definition with_splits (splits : list Split.t) (p : t) : t :=
  mk (Result.set_splits splits (result p)) (last_correct_index p) (relay_leg p).
End PersonSplits.

(** [PersonSplits.get_leg_by_course_index] *)
Definition get_leg_by_course_index (p : PersonSplits.t) (index : Z)
    : option Split.t :=
  if PersonSplits.last_correct_index p <? index then None
  else List.find (λ split, Split.course_index split =? index)
         (Result.splits (PersonSplits.result p)).

(** [PersonSplits.get_leg_time] and [PersonSplits.get_leg_relative_time] *)
Definition get_leg_time (p : PersonSplits.t) (index : Z) : option OTime.t :=
  match get_leg_by_course_index p index with
  | Some leg => Split.leg_time leg
  | None => None
  end.

Definition get_leg_relative_time (p : PersonSplits.t) (index : Z)
    : option OTime.t :=
  match get_leg_by_course_index p index with
  | Some leg => Split.relative_time leg
  | None => None
  end.

(** The keys of [_sort_by_leg] are pairs of a bool and a time, the time
    being [float('inf')] ([None] here) when the leg has none.  Tuples
    compare component by component, [False] before [True]. *)
Definition time_or_inf_lt (t1 t2 : option OTime.t) : bool :=
  match t1, t2 with
  | Some a, Some b => a <? b
  | Some _, None => true
  | None, _ => false
  end.

Definition leg_key_lt (k1 k2 : bool * option OTime.t) : bool :=
  (negb (fst k1) && fst k2)
  || (Bool.eqb (fst k1) (fst k2) && time_or_inf_lt (snd k1) (snd k2)).

(** The time the key looks at: the relative time or the leg time. *)
Definition leg_time_of (relative : bool) (index : Z) (item : PersonSplits.t)
    : option OTime.t :=
  if relative then get_leg_relative_time item index
  else get_leg_time item index.

Definition leg_key (index : Z) (relative : bool) (item : PersonSplits.t)
    : bool * option OTime.t :=
  let time := leg_time_of relative index item in
  (if time is None then true else false, time).

(** [GroupSplits._sort_by_leg] *)
Definition _sort_by_leg (index : Z) (relative : bool)
    (person_splits : list PersonSplits.t) : list PersonSplits.t :=
  sort_by leg_key_lt (leg_key index relative) person_splits.

(** The object [leg] of a person is the first split with the course
    index; a write to it changes that split in the list of the result. *)
Fixpoint update_leg (index : Z) (f : Split.t → Split.t) (splits : list Split.t)
    : list Split.t :=
  match splits with
  | [] => []
  | split :: rest =>
      if Split.course_index split =? index then f split :: rest
      else split :: update_leg index f rest
  end.

Definition leg_time_attr (relative : bool) (leg : Split.t) : option OTime.t :=
  if relative then Split.relative_time leg else Split.leg_time leg.

Definition set_place_attr (relative : bool) (place : Z) (leg : Split.t) : Split.t :=
  if relative then Split.set_relative_place place leg
  else Split.set_leg_place place leg.

(** What the loop writes into a leg: the place, and for leg times the
    time of the leader. *)
Definition written (relative : bool) (leader_time : option OTime.t) (place : Z)
    (leg : Split.t) : Split.t :=
  let leg := set_place_attr relative place leg in
  if relative then leg else Split.set_leader_time leader_time leg.

(** The loop of [_set_places_for_leg], from position [i] on. *)
Fixpoint places_loop (index : Z) (relative : bool) (leader_time : option OTime.t)
    (i : nat) (double_places_counter : Z) (prev_time : option OTime.t)
    (person_splits : list PersonSplits.t) : list PersonSplits.t :=
  match person_splits with
  | [] => []
  | person :: rest =>
      match get_leg_by_course_index person index with
      | None =>
          person
          :: places_loop index relative leader_time (S i) double_places_counter
               prev_time rest
      | Some leg =>
          let current_time := leg_time_attr relative leg in
          let double_places_counter :=
            if (0 <? i)%nat && bool_decide (prev_time = current_time)
            then double_places_counter + 1 else 0 in
          let place := Z.of_nat i + 1 - double_places_counter in
          PersonSplits.with_splits
            (update_leg index (written relative leader_time place)
               (Result.splits (PersonSplits.result person)))
            person
          :: places_loop index relative leader_time (S i) double_places_counter
               current_time rest
      end
  end.

(** [GroupSplits._set_places_for_leg] *)
Definition _set_places_for_leg (index : Z) (relative : bool)
    (person_splits : list PersonSplits.t) : list PersonSplits.t :=
  match person_splits with
  | [] => []
  | first :: _ =>
      let leader_time :=
        match get_leg_by_course_index first index with
        | Some leg => leg_time_attr relative leg
        | None => None
        end in
      places_loop index relative leader_time 0 0 leader_time person_splits
  end.

Definition place_attr (relative : bool) (leg : Split.t) : Z :=
  if relative then Split.relative_place leg else Split.leg_place leg.

(** The number of persons whose time on the leg is below [t]. *)
Definition is_faster (relative : bool) (index : Z) (t : OTime.t)
    (q : PersonSplits.t) : bool :=
  match leg_time_of relative index q with
  | Some t' => t' <? t
  | None => false
  end.

Definition faster_on_leg (relative : bool) (index : Z) (t : OTime.t)
    (person_splits : list PersonSplits.t) : nat :=
  List.length (filter (λ q, is_faster relative index t q = true) person_splits).

(** *** Final order of a group *)

(** The enumeration [ResultStatus] is declared in
    [sportorg.models.memory]: the values of its members ([.value]) and
    Python's [==] between a status and such a value are taken as given,
    as is [Result.get_result_otime]. *)
Section SortByResult.

Variable get_result_otime : Result.t → OTime.t.

Context {V : Type}.
Variable value : ResultStatus → V.
Variable equals_value : ResultStatus → V → bool.

(** The list [status_priority] of [_sort_by_result]: the values of five
    statuses. *)
Definition status_priority : list V :=
  [value OVERTIME; value MISSING_PUNCH; value DISQUALIFIED;
   value DID_NOT_FINISH; value DID_NOT_START].

(** [status in values] and [values.index(status)]: the first position
    whose value the status equals. *)
Fixpoint index_of_status (status : ResultStatus) (values : list V)
    : option nat :=
  match values with
  | [] => None
  | v :: rest =>
      if equals_value status v then Some 0%nat
      else S <$> index_of_status status rest
  end.

Definition priority (status : ResultStatus) : nat :=
  match index_of_status status status_priority with
  | Some i => (i + 1)%nat
  | None => 0%nat
  end.

(** Modelled from the spec: the order of [Result] objects is declared in
    [sportorg.models.memory]; the spec has results ordered by elapsed
    result time, so the component [item.result] of the key is taken as
    the elapsed time of the result.  This is [sort_key] of
    [_sort_by_result]; [item.result is None] is [False] for every item,
    since the status of the result was read before. *)
Definition sort_key (item : PersonSplits.t) : bool * nat * OTime.t :=
  (false, priority (Result.status (PersonSplits.result item)),
   get_result_otime (PersonSplits.result item)).

Definition sort_key_lt (k1 k2 : bool * nat * OTime.t) : bool :=
  let '(none1, priority1, time1) := k1 in
  let '(none2, priority2, time2) := k2 in
  (negb none1 && none2)
  || (Bool.eqb none1 none2
      && ((priority1 <? priority2)%nat
          || ((priority1 =? priority2)%nat && (time1 <? time2)))).

(** [GroupSplits._sort_by_result] *)
Definition _sort_by_result (person_splits : list PersonSplits.t)
    : list PersonSplits.t :=
  sort_by sort_key_lt sort_key person_splits.

End SortByResult.

(** The two ways an enumeration of Python compares with values: a member
    of an [Enum] is equal to no value, a member of an [IntEnum] to its own
    value and to no other. *)
Definition members_are_not_values {V} (equals_value : ResultStatus → V → bool)
    : Prop :=
  ∀ status v, equals_value status v = false.

Definition members_are_values {V} (value : ResultStatus → V)
    (equals_value : ResultStatus → V → bool) : Prop :=
  ∀ status status', equals_value status (value status') = true ↔ status = status'.

(** The priority the specification gives: the place in the list
    OVERTIME, MISSING_PUNCH, DISQUALIFIED, DID_NOT_FINISH, DID_NOT_START,
    and 0 for the other statuses. *)
Definition listed_priority (status : ResultStatus) : nat :=
  match status with
  | OVERTIME => 1
  | MISSING_PUNCH => 2
  | DISQUALIFIED => 3
  | DID_NOT_FINISH => 4
  | DID_NOT_START => 5
  | _ => 0
  end.

(** An enumeration of the examples: numbers as values, which no member
    equals. *)
Definition status_number (status : ResultStatus) : Z :=
  match status with
  | OK => 1
  | DISQUALIFIED => 3
  | MISSING_PUNCH => 4
  | DID_NOT_FINISH => 5
  | DID_NOT_START => 6
  | OVERTIME => 7
  | MISS_PENALTY_LAP => 8
  | MULTI_DAY_ISSUE => 9
  end.

Definition never_equal (status : ResultStatus) (v : Z) : bool := false.

(** After the places were set, [p'] is [p] with its place on the leg:
    the time is as before, and a person with a time stands one place
    behind the number of persons of [everyone] who were faster. *)
Definition ranked_on_leg (relative : bool) (index : Z)
    (everyone : list PersonSplits.t) (p p' : PersonSplits.t) : Prop :=
  leg_time_of relative index p' = leg_time_of relative index p
  ∧ ∀ t, leg_time_of relative index p = Some t →
      ∃ leg, get_leg_by_course_index p' index = Some leg
             ∧ place_attr relative leg
               = 1 + Z.of_nat (faster_on_leg relative index t everyone).

(** Three runners for the examples: two with the same time on the first
    leg, one slower. *)
Definition runner_with_leg (leg_time : OTime.t) : PersonSplits.t :=
  PersonSplits.mk
    (fresh_result (Some (runner None))
       [Split.mk "31" leg_time true false 0 (Some leg_time) (Some leg_time)
          0 0 None]
       0 leg_time OK)
    0 0.

(** A finisher of the examples with the given status and elapsed time. *)
Definition finisher (status : ResultStatus) (elapsed : OTime.t) : PersonSplits.t :=
  PersonSplits.mk (fresh_result (Some (runner None)) [] 0 elapsed status) 0 0.

(** Person, start and finish are as before. *)
Definition same_clock (r r' : Result.t) : Prop :=
  Result.person r' = Result.person r
  ∧ Result.start_time r' = Result.start_time r
  ∧ Result.finish_time r' = Result.finish_time r.

(** The elapsed time is read off start and finish alone: it is not
    changed by what [checking] writes to the result. *)
Definition time_fixed (mem : Memory.t) : Prop :=
  ∀ r r', same_clock r r' →
    Memory.get_result_otime mem r' = Memory.get_result_otime mem r.

(** * Further functions of the checker and of the split calculation *)

(** ** Penalty laps and credit time *)

(** A punch at the penalty-lap station that was not accepted as a
    control of the course; [None] where [int(punch.code)] raises. *)
Definition is_penalty_lap (lap_station : setting) (punch : Split.t) : option bool :=
  n ← Py.int (Split.code punch);
  Some (Setting.eq_int n lap_station && negb (Split.is_correct punch)).

(** The punches of the credit control from the second punch on, each with
    the punch before it. *)
Fixpoint credited_legs (credit_cp : setting) (prev : option Split.t)
    (splits : list Split.t) : list (Split.t * Split.t) :=
  match splits with
  | [] => []
  | split :: rest =>
      let tail := credited_legs credit_cp (Some split) rest in
      match prev, Py.int (Split.code split) with
      | Some before, Some n =>
          if Setting.eq_int n credit_cp then (before, split) :: tail else tail
      | _, _ => tail
      end
  end.

(** The punch times do not go back. *)
Definition times_ascending (splits : list Split.t) : Prop :=
  StronglySorted (λ a b, Split.time a ≤ Split.time b) splits.

(** The time credited for the given legs. *)
Definition credit_of_legs (legs : list (Split.t * Split.t)) : OTime.t :=
  foldr (λ leg sum, (Split.time (snd leg) - Split.time (fst leg)) + sum) 0 legs.

(** The time from the first punch to the last. *)
Definition punch_span (splits : list Split.t) : OTime.t :=
  match splits with
  | [] => 0
  | first :: rest => Split.time (List.last rest first) - Split.time first
  end.

(** ** Rogaine score *)

(** The only exception [get_control_score] raises in a race: TypeError
    for a fixed score value that is no number, ValueError for a code that
    is no number when the score is read off the code. *)
Definition score_error (race : Race.t) : exn :=
  if Setting.is_str
       (Race.get_setting race "result_processing_score_mode" (VStr "fixed"))
       "fixed"
  then TypeError else ValueError.

(** ** Verdict of the checker *)

(** The statuses a run of [checking] can leave. *)
Definition verdicts : list ResultStatus :=
  [OK; MISSING_PUNCH; MISS_PENALTY_LAP; OVERTIME; DISQUALIFIED].

(** The punches are checked against the course: the mode is none of
    "ardf", "trailo" and "scores", and wrong punches disqualify. *)
Definition course_checked (race : Race.t) : bool :=
  let mode := Race.get_setting race "result_processing_mode" (VStr "time") in
  negb (Setting.is_str mode "ardf") && negb (Setting.is_str mode "trailo")
  && negb (Setting.is_str mode "scores")
  && negb (Setting.truthy
             (Race.get_setting race "marked_route_dont_dsq" (VBool false))).

(** [ResultChecker.check_all], on the list [race().results]: the results
    are checked in place one after the other, and the first exception
    ends the loop.  The list as it is left, and the exception if any. *)
Fixpoint check_all (race : Race.t) (mem : Memory.t) (results : list Result.t)
    : list Result.t * option exn :=
  match results with
  | [] => ([], None)
  | result :: rest =>
      match Result.person result with
      | Some _ =>
          match checking race mem result with
          | Return _ checked =>
              let '(rest, error) := check_all race mem rest in
              (checked :: rest, error)
          | Raise e partial => (partial :: rest, Some e)
          end
      | None =>
          let '(rest, error) := check_all race mem rest in
          (result :: rest, error)
      end
  end.

(** Methods of the memory module for the examples, with an elapsed time
    read off start and finish alone. *)
Definition clock_memory : Memory.t :=
  Memory.mk (λ result, Result.finish_time result - Result.start_time result)
    (λ result _, (true, Result.splits result)) leading_number_code (λ _, "").

(** ** Generation of the splits of a person *)

Definition set_course_index (v : Z) (s : Split.t) : Split.t :=
  Split.mk (Split.code s) (Split.time s) (Split.is_correct s)
    (Split.has_penalty s) v (Split.leg_time s) (Split.relative_time s)
    (Split.leg_place s) (Split.relative_place s) (Split.leader_time s).
Definition set_leg_time (v : option OTime.t) (s : Split.t) : Split.t :=
  Split.mk (Split.code s) (Split.time s) (Split.is_correct s)
    (Split.has_penalty s) (Split.course_index s) v (Split.relative_time s)
    (Split.leg_place s) (Split.relative_place s) (Split.leader_time s).
Definition set_relative_time (v : option OTime.t) (s : Split.t) : Split.t :=
  Split.mk (Split.code s) (Split.time s) (Split.is_correct s)
    (Split.has_penalty s) (Split.course_index s) (Split.leg_time s) v
    (Split.leg_place s) (Split.relative_place s) (Split.leader_time s).

Definition set_last_correct_index (v : Z) (p : PersonSplits.t) : PersonSplits.t :=
  PersonSplits.mk (PersonSplits.result p) v (PersonSplits.relay_leg p).

Section GenerateSplits.

Variable race : Race.t.

(** [Result.get_start_time] and the constructor [Course()] are declared
    in [sportorg.models.memory]; they are taken as given. *)
Variable get_start_time : Result.t → OTime.t.
Variable new_course : Course.t.

(** [PersonSplits.course]: [race.find_course(result) or Course()]. *)
Definition splits_course (p : PersonSplits.t) : Course.t :=
  default new_course (Race.find_course race (PersonSplits.result p)).

(** [PersonSplits._process_splits_without_controls], from position [i]
    on.  The attribute [index] of a split, which no function at hand
    reads, is not part of the data model. *)
Fixpoint _process_splits_without_controls (prev_time : OTime.t) (i : Z)
    (splits : list Split.t) : list Split.t :=
  match splits with
  | [] => []
  | split :: rest =>
      set_leg_time (Some (Split.time split - prev_time))
        (set_course_index i split)
      :: _process_splits_without_controls (Split.time split) (i + 1) rest
  end.

(** [PersonSplits._update_correct_split]; the attributes [length_leg] and
    [speed] of a split are not part of the data model. *)
Definition _update_correct_split (split : Split.t) (course_index : Z)
    (leg_start_time : OTime.t) : Split.t :=
  Split.set_leg_place 0
    (set_course_index course_index
       (set_leg_time (Some (Split.time split - leg_start_time)) split)).

(** The [while] loop of [PersonSplits._process_splits_with_controls] from
    the split at the cursor on: the splits as they are left, and the
    course index reached. *)
Fixpoint correct_splits_loop (controls : nat) (course_index : nat)
    (leg_start_time : OTime.t) (splits : list Split.t) : list Split.t * nat :=
  match splits with
  | [] => ([], course_index)
  | current_split :: rest =>
      if (course_index <? controls)%nat then
        if Split.is_correct current_split then
          let '(rest, reached) :=
            correct_splits_loop controls (S course_index)
              (Split.time current_split) rest in
          (_update_correct_split current_split (Z.of_nat course_index)
             leg_start_time :: rest, reached)
        else
          let '(rest, reached) :=
            correct_splits_loop controls course_index leg_start_time rest in
          (current_split :: rest, reached)
      else (splits, course_index)
  end.

(** [PersonSplits._generate_standard_splits]; the speed of the result is
    not part of the data model. *)
Definition _generate_standard_splits (p : PersonSplits.t) : PersonSplits.t :=
  let course := splits_course p in
  let start_time := get_start_time (PersonSplits.result p) in
  let splits :=
    map (λ split, set_relative_time (Some (Split.time split - start_time)) split)
      (Result.splits (PersonSplits.result p)) in
  match Course.controls course with
  | [] =>
      PersonSplits.with_splits
        (_process_splits_without_controls start_time 0 splits) p
  | _ =>
      let '(splits, course_index) :=
        correct_splits_loop (List.length (Course.controls course)) 0
          start_time splits in
      set_last_correct_index (Z.of_nat course_index - 1)
        (PersonSplits.with_splits splits p)
  end.

End GenerateSplits.

(** The time over the first [n] legs of a person: the sum of the leg
    times that [get_leg_time] reports. *)
Fixpoint time_over_legs (p : PersonSplits.t) (n : nat) : OTime.t :=
  match n with
  | O => 0
  | S n' => time_over_legs p n' + default 0 (get_leg_time p (Z.of_nat n'))
  end.

(** The splits as they come from the card reader: a split that is not a
    correct control carries no course index. *)
Definition unmatched_unindexed (splits : list Split.t) : Prop :=
  Forall (λ s, Split.is_correct s = false → Split.course_index s < 0) splits.

(** The time at which leg [i] starts: the start time for the first leg,
    the time of the correct split before for the others. *)
Definition leg_start (start_time : OTime.t) (correct : list Split.t) (i : nat)
    : OTime.t :=
  match i with
  | O => start_time
  | S i' => default start_time (Split.time <$> correct !! i')
  end.

Definition sum_leg_times (splits : list Split.t) : OTime.t :=
  foldr (λ s sum, default 0 (Split.leg_time s) + sum) 0 splits.

(** A race of the examples with the course 31, 41 for everyone, and a
    person's card with a stray punch between the two controls. *)
Definition race_31_41 : Race.t :=
  Race.mk ∅ [] (λ _, Some (Course.mk [control "31"; control "41"] 0)).

Definition card_31_77_41 : PersonSplits.t :=
  PersonSplits.mk
    (fresh_result (Some (runner None))
       [Split.punch "31" 100 true false; Split.punch "77" 150 false false;
        Split.punch "41" 220 true false]
       10 230 OK)
    0 0.

(** ** Places of a group *)

From stdpp Require Import pretty.

Open Scope string_scope.
Open Scope list_scope.
Open Scope Z_scope.

(** The state of a [GroupSplits] object: the number of controls of the
    course of the group, the persons, and the leader of each leg under
    the key [str(index)]. *)
Module GroupSplits.
Record t := mk {
  cp_count : nat;
  person_splits : list PersonSplits.t;
  leader : gmap string (string * option OTime.t) }.

Definition with_person_splits (v : list PersonSplits.t) (g : t) : t :=
  mk (cp_count g) v (leader g).
End GroupSplits.

(** [GroupSplits._set_leg_leader]; [leader.person.name] raises
    AttributeError for a result without a person. *)
Definition _set_leg_leader (index : Z) (g : GroupSplits.t)
    : fallible GroupSplits.t :=
  match GroupSplits.person_splits g with
  | [] => Value g
  | leader :: _ =>
      person ← or_raise AttributeError
                 (Result.person (PersonSplits.result leader));
      Value (GroupSplits.mk (GroupSplits.cp_count g)
               (GroupSplits.person_splits g)
               (<[pretty index := (Person.name person, get_leg_time leader index)]>
                  (GroupSplits.leader g)))
  end.

(** One turn of the loop of [GroupSplits._set_places]. *)
Definition set_places_of_leg (g : GroupSplits.t) (i : nat)
    : fallible GroupSplits.t :=
  let index := Z.of_nat i in
  let g := GroupSplits.with_person_splits
             (_sort_by_leg index false (GroupSplits.person_splits g)) g in
  let g := GroupSplits.with_person_splits
             (_set_places_for_leg index false (GroupSplits.person_splits g)) g in
  g ← _set_leg_leader index g;
  let g := GroupSplits.with_person_splits
             (_sort_by_leg index true (GroupSplits.person_splits g)) g in
  Value (GroupSplits.with_person_splits
           (_set_places_for_leg index true (GroupSplits.person_splits g)) g).

(** [GroupSplits._set_places] *)
Definition _set_places (g : GroupSplits.t) : fallible GroupSplits.t :=
  fold_fallible set_places_of_leg (seq 0 (GroupSplits.cp_count g)) g.

(** The person [p] stands on leg [index] one place behind the number of
    persons of [everyone] who were faster. *)
Definition placed (relative : bool) (index : Z) (everyone : list PersonSplits.t)
    (p : PersonSplits.t) : Prop :=
  ∀ t, leg_time_of relative index p = Some t →
    ∃ leg, get_leg_by_course_index p index = Some leg
           ∧ place_attr relative leg
             = 1 + Z.of_nat (faster_on_leg relative index t everyone).

(** What setting the places of one leg keeps of a person: the person of
    the result, the legs found and their times, and every place but the
    one set. *)
Definition same_but_place (relative : bool) (index : Z) (p p' : PersonSplits.t)
    : Prop :=
  Result.person (PersonSplits.result p') = Result.person (PersonSplits.result p)
  ∧ ∀ j, option_Forall2
           (λ leg leg',
              Split.leg_time leg' = Split.leg_time leg
              ∧ Split.relative_time leg' = Split.relative_time leg
              ∧ ∀ r, (r, j) ≠ (relative, index) →
                     place_attr r leg' = place_attr r leg)
           (get_leg_by_course_index p j) (get_leg_by_course_index p' j).

(** What is read of a person on a leg: who it is, and the time. *)
Definition leg_summary (relative : bool) (index : Z) (p : PersonSplits.t)
    : option Person.t * option OTime.t :=
  (Result.person (PersonSplits.result p), leg_time_of relative index p).

(** The entry of the leader of a leg: the name of a person of the group
    with the time of that person on the leg, which no time on the leg is
    below. *)
Definition leader_of (index : Z) (everyone : list PersonSplits.t)
    (entry : string * option OTime.t) : Prop :=
  (∃ person, (Some person, snd entry) ∈ leg_summary false index <$> everyone
             ∧ fst entry = Person.name person)
  ∧ ∀ p t, p ∈ everyone → get_leg_time p index = Some t →
      ∃ leader_time, snd entry = Some leader_time ∧ leader_time ≤ t.

Definition has_person (p : PersonSplits.t) : Prop :=
  is_Some (Result.person (PersonSplits.result p)).

(** ** Penalty of the marked route *)

(** The mode [_calculate_standard_penalty] works in: the mode given,
    overridden by the name of the group. *)
Definition penalty_mode (group : Group.t) (mode : setting) : setting :=
  let name := Py.lower (Group.name group) in
  if Py.has_substring "_lap" name then VStr "laps"
  else if Py.has_substring "_min" name then VStr "time"
  else mode.

(** The penalty [_calculate_standard_penalty] counts on the punches. *)
Definition counted_penalty (race : Race.t) (mem : Memory.t)
    (splits : list Split.t) (course : Course.t) : Z :=
  let penalty :=
    if Setting.truthy (Race.get_setting race "marked_route_dont_dsq" (VBool false))
    then penalty_calculation_free_order splits (Course.controls course)
    else penalty_calculation (Memory.get_number_code mem) splits
           (Course.controls course) true in
  if Setting.truthy
       (Race.get_setting race "marked_route_max_penalty_by_cp" (VBool false))
  then Z.min (Z.of_nat (List.length (Course.controls course))) penalty
  else penalty.

(** A race of the examples that counts penalty laps and checks them at
    the lap station 99. *)
Definition lap_station_race : Race.t :=
  Race.mk {[ "marked_route_mode" := VStr "laps";
             "marked_route_if_station_check" := VBool true;
             "marked_route_penalty_lap_station_code" := VInt 99 ]}
    [] (λ _, Some (Course.mk [control "31"; control "41"] 0)).

(** ** Trail orienteering *)

(** A code of trail orienteering: a number followed by one letter. *)
Definition trailo_code (code : string) : Prop :=
  is_Some (Py.int (Py.but_last code)) ∧ is_Some (Py.last_char code).

(** The controls of the course of a result, none without a course. *)
Definition course_controls (race : Race.t) (result : Result.t)
    : list CourseControl.t :=
  match Race.find_course race result with
  | Some course => Course.controls course
  | None => []
  end.

(** A trail orienteering race of the examples: two controls with the
    answers A and B and a timed control. *)
Definition trailo_race : Race.t :=
  Race.mk {[ "result_processing_mode" := VStr "trailo" ]} []
    (λ _, Some (Course.mk [control "1A"; control "2B"; control "101T"] 0)).

(** A race of the examples with penalty laps by setting, and a group
    whose name asks for penalty minutes. *)
Definition penalty_minutes_race : Race.t :=
  Race.mk {[ "marked_route_mode" := VStr "laps" ]} []
    (λ _, Some (Course.mk [control "31"; control "41"] 0)).

Definition group_min : Group.t := Group.mk "M21_MIN" 0 false false.

(** * Properties *)

(** ** Python helpers *)

Example py_split_choice : Py.split "(" "31(31,131)" = ["31"; "31,131)"].
Proof. reflexivity. Qed.

Example py_int_31 : Py.int " 31 " = Some 31 ∧ Py.int "31A" = None ∧ Py.int "-1_0" = Some (-10).
Proof. repeat split; reflexivity. Qed.


(** ** Classic penalty *)

Section ClassicPenalty.

Implicit Types (user origin : list string) (i : string).

Lemma py_elem_true {A} `{EqDecision A} (x : A) l : Py.elem x l = true ↔ x ∈ l.
Proof. unfold Py.elem. apply bool_decide_eq_true. Qed.

Lemma py_elem_false {A} `{EqDecision A} (x : A) l : Py.elem x l = false ↔ x ∉ l.
Proof. unfold Py.elem. apply bool_decide_eq_false. Qed.

Lemma py_remove_absent i user : i ∉ user → Py.remove i user = user.
Proof.
  induction user as [|y user IH]; simpl; [done|].
  intros Hni. apply not_elem_of_cons in Hni as [Hne Hni].
  rewrite decide_False by done. by rewrite IH.
Qed.

Lemma py_remove_multiset i user :
  list_to_set_disj (Py.remove i user) =@{gmultiset string}
  list_to_set_disj user ∖ {[+ i +]}.
Proof.
  induction user as [|y user IH]; simpl.
  - multiset_solver.
  - destruct (decide (i = y)) as [->|Hne].
    + multiset_solver.
    + rewrite list_to_set_disj_cons, IH. multiset_solver.
Qed.

Lemma consume_control_spec user i :
  consume_control user i
  = if decide (i = "0") then tail user else Py.remove i user.
Proof.
  unfold consume_control.
  destruct (decide (i = "0")) as [->|Hne].
  - destruct user as [|y user]; simpl; [done|done].
  - apply String.eqb_neq in Hne. rewrite Hne. simpl.
    destruct (Py.elem i user) eqn:He; [done|].
    apply py_elem_false in He. by rewrite py_remove_absent.
Qed.

Lemma fold_consume_unmatched origin user :
  fold_left consume_control origin user = unmatched_punches origin user.
Proof.
  revert user. induction origin as [|c origin IH]; intros user; simpl; [done|].
  by rewrite consume_control_spec, IH.
Qed.

Lemma unmatched_multiset origin user :
  "0" ∉ origin →
  list_to_set_disj (unmatched_punches origin user) =@{gmultiset string}
  list_to_set_disj user ∖ list_to_set_disj origin.
Proof.
  revert user. induction origin as [|c origin IH]; intros user Hz; simpl.
  - multiset_solver.
  - apply not_elem_of_cons in Hz as [Hne Hz].
    rewrite decide_False by done.
    rewrite IH, py_remove_multiset by done. multiset_solver.
Qed.

Lemma length_size_multiset user :
  List.length user = size (list_to_set_disj user : gmultiset string).
Proof.
  induction user as [|y user IH].
  - reflexivity.
  - rewrite (list_to_set_disj_cons (A:=string)), gmultiset_size_disj_union,
      gmultiset_size_singleton. simpl. by rewrite IH.
Qed.

Lemma incorrect_of_control_plain ret c :
  Py.contains "(" (CourseControl.code c) = false → incorrect_of_control ret c = ret.
Proof.
  intros H. unfold incorrect_of_control. rewrite H.
  by rewrite andb_false_r.
Qed.

Lemma incorrect_list_no_choice controls :
  no_choice_controls controls → get_marked_route_incorrect_list controls = [].
Proof.
  unfold get_marked_route_incorrect_list. generalize (@nil string).
  intros ret H. revert ret.
  induction H as [|c controls Hc _ IH]; intros ret; simpl; [done|].
  by rewrite incorrect_of_control_plain, IH.
Qed.

End ClassicPenalty.

Example incorrect_list_31_131 :
  get_marked_route_incorrect_list [control "31"; control "31(31,131)"; control "41(141,41,131)"]
  = ["131"; "141"]
  ∧ choice_code "31" ["31"; "131"] = "31(31,131)".
Proof. split; reflexivity. Qed.

(** ** Parsing of choice-set controls *)

Section ChoiceParsing.

Implicit Types (s t correct : string) (c sep : ascii) (p : ascii → bool).

Lemma append_nil t : ("" ++ t)%string = t.
Proof. reflexivity. Qed.

Lemma append_cons c s t : (String c s ++ t)%string = String c (s ++ t)%string.
Proof. reflexivity. Qed.

Lemma append_assoc s t u : ((s ++ t) ++ u = s ++ (t ++ u))%string.
Proof.
  induction s as [|c s IH]; [done|]. rewrite !append_cons. by rewrite IH.
Qed.

Lemma contains_append sep s t :
  Py.contains sep (s ++ t)%string = Py.contains sep s || Py.contains sep t.
Proof.
  induction s as [|c s IH]; [done|]. rewrite append_cons. simpl.
  destruct (Ascii.eqb sep c); [done|apply IH].
Qed.

Lemma contains_digits sep s :
  Py.is_digit sep = false → Py.all_chars Py.is_digit s = true →
  Py.contains sep s = false.
Proof.
  intros Hsep. induction s as [|c s IH]; simpl; [done|].
  intros [Hc Hs]%andb_true_iff.
  destruct (Ascii.eqb_spec sep c) as [->|_]; [congruence|auto].
Qed.

Lemma isdigit_all s : Py.isdigit s = true → Py.all_chars Py.is_digit s = true.
Proof. by destruct s. Qed.

Lemma isdigit_nonempty s : Py.isdigit s = true → s ≠ "".
Proof. by destruct s. Qed.

Lemma split_append_sep sep s t :
  Py.contains sep s = false →
  Py.split sep (s ++ String sep t)%string = s :: Py.split sep t.
Proof.
  induction s as [|c s IH].
  - intros _. rewrite append_nil. simpl. by rewrite Ascii.eqb_refl.
  - rewrite append_cons. simpl. rewrite (Ascii.eqb_sym c sep).
    destruct (Ascii.eqb sep c); [done|]. intros H. by rewrite IH.
Qed.

Lemma split_no_sep sep s : Py.contains sep s = false → Py.split sep s = [s].
Proof.
  induction s as [|c s IH]; simpl; [done|].
  rewrite (Ascii.eqb_sym c sep).
  destruct (Ascii.eqb sep c); [done|]. intros H. by rewrite IH.
Qed.

Lemma rstrip_kept p s :
  (∀ c, Py.is_digit c = true → p c = false) →
  Py.all_chars Py.is_digit s = true → Py.rstrip p s = s.
Proof.
  intros Hp. induction s as [|c s IH]; simpl; [done|].
  intros [Hc Hs]%andb_true_iff. rewrite IH by done.
  destruct s; [by rewrite Hp|done].
Qed.

Lemma strip_chars_kept p s :
  (∀ c, Py.is_digit c = true → p c = false) →
  Py.all_chars Py.is_digit s = true → Py.strip_chars p s = s.
Proof.
  intros Hp Hs. unfold Py.strip_chars.
  assert (Py.lstrip p s = s) as ->.
  { destruct s as [|c s]; simpl in *; [done|].
    apply andb_true_iff in Hs as [Hc _]. by rewrite Hp. }
  by apply rstrip_kept.
Qed.

Lemma rstrip_last p s x :
  (∀ c, Py.is_digit c = true → p c = false) → p x = true →
  Py.isdigit s = true → Py.rstrip p (s ++ String x "")%string = s.
Proof.
  intros Hp Hx. induction s as [|c s IH]; [done|].
  intros Hs. apply isdigit_all in Hs. simpl in Hs.
  apply andb_true_iff in Hs as [Hc Hs]. rewrite append_cons. simpl.
  destruct s as [|d s].
  - rewrite append_nil. simpl. by rewrite Hx, Hp.
  - rewrite IH by done. done.
Qed.

Lemma strip_chars_last p s x :
  (∀ c, Py.is_digit c = true → p c = false) → p x = true →
  Py.isdigit s = true → Py.strip_chars p (s ++ String x "")%string = s.
Proof.
  intros Hp Hx Hs. unfold Py.strip_chars.
  assert (Py.lstrip p (s ++ String x "")%string = (s ++ String x "")%string) as ->.
  { destruct s as [|c s]; [done|]. rewrite append_cons. simpl in *.
    apply andb_true_iff in Hs as [Hc _]. by rewrite Hp. }
  by apply rstrip_last.
Qed.

Lemma digit_not_space c : Py.is_digit c = true → Py.is_space c = false.
Proof.
  unfold Py.is_digit, Py.is_space. generalize (nat_of_ascii c). intros n.
  rewrite andb_true_iff, !Nat.leb_le. intros [H1 H2].
  apply orb_false_iff. split; apply andb_false_iff.
  - right. apply Nat.leb_gt. lia.
  - right. apply Nat.leb_gt. lia.
Qed.

Lemma digit_not_char x c : Py.is_digit x = false → Py.is_digit c = true → Ascii.eqb x c = false.
Proof. intros Hx Hc. destruct (Ascii.eqb_spec x c) as [->|]; congruence. Qed.

Lemma strip_digits s : Py.isdigit s = true → Py.strip s = s.
Proof.
  intros Hs. apply strip_chars_kept; [apply digit_not_space|by apply isdigit_all].
Qed.

Lemma clean_member_digits s : Py.isdigit s = true → clean_member s = s.
Proof.
  intros Hs. unfold clean_member.
  rewrite strip_chars_kept; [by apply strip_digits| |by apply isdigit_all].
  intros c. by apply digit_not_char.
Qed.

Lemma clean_member_last s : Py.isdigit s = true → clean_member (s ++ ")")%string = s.
Proof.
  intros Hs. unfold clean_member.
  rewrite strip_chars_last; [by apply strip_digits| | |done].
  - intros c. by apply digit_not_char.
  - done.
Qed.

Lemma split_members members :
  members ≠ [] → Forall (λ m, Py.isdigit m = true) members →
  clean_member <$> Py.split "," (join_commas members ++ ")")%string = members.
Proof.
  intros Hne Hd. induction Hd as [|m ms Hm Hms IH]; [done|].
  destruct ms as [|m2 ms].
  - simpl join_commas. rewrite split_no_sep.
    + simpl. by rewrite clean_member_last.
    + rewrite contains_append. simpl.
      by rewrite contains_digits by (done || by apply isdigit_all).
  - change (join_commas (m :: m2 :: ms))
      with (m ++ String "," (join_commas (m2 :: ms)))%string.
    rewrite append_assoc, append_cons.
    rewrite split_append_sep
      by (apply contains_digits; [done|by apply isdigit_all]).
    rewrite fmap_cons, clean_member_digits by done.
    f_equal. by apply IH.
Qed.

End ChoiceParsing.

(** ** The list of incorrect choices *)

Section IncorrectList.

Implicit Types (ret members : list string) (correct x : string).

Lemma add_incorrect_elem correct ret cp x :
  x ∈ add_incorrect correct ret cp ↔
  x ∈ ret ∨ (x = clean_member cp ∧ x ≠ correct ∧ Py.isdigit x = true).
Proof.
  unfold add_incorrect.
  destruct (String.eqb_spec (clean_member cp) correct) as [Heq|Hne]; simpl.
  { split; [auto|]. intros [?|(-> & ? & _)]; [done|congruence]. }
  destruct (Py.isdigit (clean_member cp)) eqn:Hd.
  2:{ split; [auto|]. intros [?|(-> & _ & ?)]; [done|congruence]. }
  destruct (Py.elem (clean_member cp) ret) eqn:He.
  - apply py_elem_true in He. split; [auto|].
    intros [?|(-> & _)]; done.
  - rewrite elem_of_app, list_elem_of_singleton. split.
    + intros [?| ->]; auto.
    + intros [?|(-> & _)]; auto.
Qed.

Lemma add_incorrect_NoDup correct ret cp :
  NoDup ret → NoDup (add_incorrect correct ret cp).
Proof.
  intros Hnd. unfold add_incorrect.
  destruct (negb _ && _); [|done].
  destruct (Py.elem (clean_member cp) ret) eqn:He; [done|].
  apply py_elem_false in He. apply list.NoDup_app. repeat split; [done| |apply NoDup_singleton].
  intros y Hy ->%list_elem_of_singleton. done.
Qed.

Lemma incorrect_members_elem correct members ret x :
  x ∈ incorrect_members correct members ret ↔
  x ∈ ret ∨ (x ∈ clean_member <$> members) ∧ x ≠ correct ∧ Py.isdigit x = true.
Proof.
  unfold incorrect_members. revert ret.
  induction members as [|cp members IH]; intros ret; simpl.
  - rewrite elem_of_nil. tauto.
  - rewrite IH, add_incorrect_elem, elem_of_cons. tauto.
Qed.

Lemma incorrect_members_NoDup correct members ret :
  NoDup ret → NoDup (incorrect_members correct members ret).
Proof.
  unfold incorrect_members. revert ret.
  induction members as [|cp members IH]; intros ret Hnd; simpl; [done|].
  by apply IH, add_incorrect_NoDup.
Qed.

Lemma incorrect_of_control_NoDup ret c :
  NoDup ret → NoDup (incorrect_of_control ret c).
Proof.
  intros Hnd. unfold incorrect_of_control.
  destruct (negb _ && _); [|done].
  destruct (Py.split "(" (CourseControl.code c)) as [|before [|after ?]]; try done.
  destruct (Py.isdigit (Py.strip before)); [|done].
  by apply incorrect_members_NoDup.
Qed.

Lemma incorrect_of_control_mono ret c x :
  x ∈ ret → x ∈ incorrect_of_control ret c.
Proof.
  intros Hx. unfold incorrect_of_control.
  destruct (negb _ && _); [|done].
  destruct (Py.split "(" (CourseControl.code c)) as [|before [|after ?]]; try done.
  destruct (Py.isdigit (Py.strip before)); [|done].
  apply incorrect_members_elem. by left.
Qed.

Lemma contains_join_commas members :
  Forall (λ m, Py.isdigit m = true) members →
  Py.contains "(" (join_commas members) = false.
Proof.
  induction 1 as [|m ms Hm _ IH]; [done|].
  destruct ms as [|m2 ms].
  - apply contains_digits; [done|by apply isdigit_all].
  - change (join_commas (m :: m2 :: ms))
      with (m ++ String "," (join_commas (m2 :: ms)))%string.
    rewrite contains_append. apply orb_false_iff. split.
    + apply contains_digits; [done|by apply isdigit_all].
    + apply IH.
Qed.

(** What the parser finds in a well-formed choice control. *)
Lemma incorrect_of_choice_control ret c correct members x :
  is_choice_control c correct members →
  x ∈ incorrect_of_control ret c ↔ x ∈ ret ∨ (x ∈ members ∧ x ≠ correct).
Proof.
  intros (Hcode & Hcorrect & Hne & Hdigits).
  unfold incorrect_of_control. rewrite Hcode. unfold choice_code.
  assert (Py.contains "(" (correct ++ "(" ++ join_commas members ++ ")")%string = true) as ->.
  { rewrite contains_append. apply orb_true_iff. right. done. }
  assert ((correct ++ "(" ++ join_commas members ++ ")")%string ≠ "") as Hnonempty.
  { destruct correct; done. }
  apply String.eqb_neq in Hnonempty. rewrite Hnonempty. simpl negb. simpl andb.
  change ("(" ++ join_commas members ++ ")")%string
    with (String "(" (join_commas members ++ ")"))%string.
  rewrite split_append_sep
    by (apply contains_digits; [done|by apply isdigit_all]).
  assert (Py.contains "(" (join_commas members ++ ")")%string = false) as Hrest.
  { rewrite contains_append. apply orb_false_iff. split; [|done].
    by apply contains_join_commas. }
  rewrite (split_no_sep _ _ Hrest).
  rewrite strip_digits, Hcorrect by done.
  rewrite incorrect_members_elem, split_members by done.
  split; [intros [?|(? & ? & ?)]; auto|].
  intros [?|[Hx ?]]; [auto|]. right. repeat split; [done..|].
  rewrite list.Forall_forall in Hdigits. by apply Hdigits.
Qed.

Lemma incorrect_list_acc_mono controls ret x :
  x ∈ ret → x ∈ fold_left incorrect_of_control controls ret.
Proof.
  revert ret. induction controls as [|c controls IH]; intros ret Hx; simpl; [done|].
  by apply IH, incorrect_of_control_mono.
Qed.

Lemma incorrect_list_NoDup controls :
  NoDup (get_marked_route_incorrect_list controls).
Proof.
  unfold get_marked_route_incorrect_list.
  assert (NoDup (@nil string)) as H by constructor.
  revert H. generalize (@nil string).
  induction controls as [|c controls IH]; intros ret Hnd; simpl; [done|].
  by apply IH, incorrect_of_control_NoDup.
Qed.

Lemma incorrect_list_wrong_choice controls c correct members wrong :
  c ∈ controls → is_choice_control c correct members →
  wrong ∈ members → wrong ≠ correct →
  wrong ∈ get_marked_route_incorrect_list controls.
Proof.
  unfold get_marked_route_incorrect_list. generalize (@nil string).
  induction controls as [|c' controls IH]; intros ret Hc Hch Hw Hne.
  { by apply elem_of_nil in Hc. }
  simpl. apply elem_of_cons in Hc as [<-|Hc].
  - apply incorrect_list_acc_mono.
    apply (incorrect_of_choice_control _ _ _ _ _ Hch). auto.
  - by apply IH.
Qed.

(** On a course of plain and choice controls the list holds exactly the
    codes offered by some choice control next to its correct code. *)
Lemma incorrect_list_elem controls x :
  plain_or_choice controls →
  x ∈ get_marked_route_incorrect_list controls ↔
  ∃ c correct members,
    c ∈ controls ∧ is_choice_control c correct members ∧ x ∈ members ∧ x ≠ correct.
Proof.
  unfold get_marked_route_incorrect_list.
  intros Hwf.
  assert (∀ ret, x ∈ fold_left incorrect_of_control controls ret ↔
     x ∈ ret ∨ ∃ c correct members,
       c ∈ controls ∧ is_choice_control c correct members ∧ x ∈ members ∧ x ≠ correct)
    as Hgen.
  { induction Hwf as [|c controls Hc _ IH]; intros ret; simpl.
    - split; [auto|]. intros [?|(c & ? & ? & Hin & _)]; [done|].
      by apply elem_of_nil in Hin.
    - rewrite IH. destruct Hc as [Hplain|(correct & members & Hch)].
      + rewrite incorrect_of_control_plain by done. split.
        * intros [?|(c' & co & ms & Hin & Hrest)]; [auto|].
          right. exists c', co, ms. rewrite elem_of_cons. auto.
        * intros [?|(c' & co & ms & Hin & Hch' & Hrest)]; [auto|].
          apply elem_of_cons in Hin as [->|Hin].
          -- destruct Hch' as (Hcode & _). exfalso.
             rewrite Hcode in Hplain. unfold choice_code in Hplain.
             rewrite contains_append in Hplain.
             apply orb_false_iff in Hplain as [_ Hp]. done.
          -- right. exists c', co, ms. auto.
      + split.
        * intros [Hx|(c' & co & ms & Hin & Hrest)].
          -- apply (incorrect_of_choice_control _ _ _ _ _ Hch) in Hx as [?|[? ?]];
               [auto|].
             right. exists c, correct, members. rewrite elem_of_cons. auto.
          -- right. exists c', co, ms. rewrite elem_of_cons. auto.
        * intros [?|(c' & co & ms & Hin & Hch' & Hx & Hne)].
          { left. by apply incorrect_of_control_mono. }
          apply elem_of_cons in Hin as [->|Hin].
          -- left. apply (incorrect_of_choice_control _ _ _ _ _ Hch'). auto.
          -- right. exists c', co, ms. auto. }
  rewrite Hgen, elem_of_nil. tauto.
Qed.

End IncorrectList.

(** ** Penalty calculation *)

Lemma count_punched_incorrect (incorrect user : list string) (res : Z) :
  fold_left (λ res i, if Py.elem i user then res + 1 else res) incorrect res
  = res + Z.of_nat (List.length (punched_incorrect incorrect user)).
Proof.
  revert res. induction incorrect as [|i incorrect IH]; intros res; simpl.
  - lia.
  - rewrite IH. unfold punched_incorrect. rewrite filter_cons.
    destruct (Py.elem i user) eqn:He.
    + apply py_elem_true in He. rewrite decide_True by done. simpl. lia.
    + apply py_elem_false in He. rewrite decide_False by done. lia.
Qed.

Lemma count_penalty_free (splits : list Split.t) (n : Z) :
  fold_left (λ n (i : Split.t), if negb (Split.has_penalty i) then n + 1 else n)
    splits n
  = n + Z.of_nat (List.length (penalty_free splits)).
Proof.
  revert n. induction splits as [|s splits IH]; intros n; simpl.
  - lia.
  - rewrite IH. unfold penalty_free. rewrite filter_cons.
    destruct (decide (Split.has_penalty s = false)) as [Hs|Hs].
    + rewrite Hs. simpl. lia.
    + apply not_false_is_true in Hs. rewrite Hs. simpl. lia.
Qed.

Lemma penalty_calculation_free_order_eq splits controls :
  penalty_calculation_free_order splits controls
  = Z.max 0 (Z.of_nat (List.length controls)
             - Z.of_nat (List.length (penalty_free splits))).
Proof.
  unfold penalty_calculation_free_order. rewrite count_penalty_free. lia.
Qed.

(** C3: on a course without choice-set controls [penalty_calculation]
    consumes the course codes from left to right against the punches and
    returns the number of punches left unmatched, plus the number of
    missing punches when [check_existence] is set and the athlete has
    fewer punches than the course has controls.  Without wildcard codes
    the punches left are the multiset difference of punches and course.
    For the course 31, 41, 51: punches 31, 41, 51 give 0; 31, 42, 51 give
    1; 31, 41, 51, 51 give 1; no punches with [check_existence] give 3. *)
Theorem penalty_calculation_classic (get_number_code : CourseControl.t → string) :
  (∀ splits controls check_existence,
     no_choice_controls controls →
     let user := map Split.code splits in
     let origin := map get_number_code controls in
     penalty_calculation get_number_code splits controls check_existence
     = existence_shortfall check_existence (List.length splits) (List.length controls)
       + Z.of_nat (List.length (unmatched_punches origin user))
     ∧ ("0" ∉ origin →
        penalty_calculation get_number_code splits controls check_existence
        = existence_shortfall check_existence (List.length splits) (List.length controls)
          + Z.of_nat (size (list_to_set_disj user ∖ list_to_set_disj origin
                            : gmultiset string))))
  ∧ (get_number_code (control "31") = "31" →
     get_number_code (control "41") = "41" →
     get_number_code (control "51") = "51" →
     let course := [control "31"; control "41"; control "51"] in
     (∀ check_existence,
        penalty_calculation get_number_code
          [punched "31"; punched "41"; punched "51"] course check_existence = 0
        ∧ penalty_calculation get_number_code
            [punched "31"; punched "42"; punched "51"] course check_existence = 1
        ∧ penalty_calculation get_number_code
            [punched "31"; punched "41"; punched "51"; punched "51"] course
            check_existence = 1)
     ∧ penalty_calculation get_number_code [] course true = 3).
Proof.
  split.
  - intros splits controls ce Hno user origin.
    assert (penalty_calculation get_number_code splits controls ce
      = existence_shortfall ce (List.length splits) (List.length controls)
        + Z.of_nat (List.length (unmatched_punches origin user))) as Heq.
    { unfold penalty_calculation. rewrite incorrect_list_no_choice by done.
      rewrite fold_consume_unmatched. unfold existence_shortfall.
      by rewrite !length_map. }
    split; [done|]. intros Hz. rewrite Heq. do 2 f_equal.
    by rewrite length_size_multiset, unmatched_multiset.
  - intros H31 H41 H51 course. unfold penalty_calculation. simpl.
    rewrite H31, H41, H51. split; [|reflexivity].
    intros []; repeat split; reflexivity.
Qed.

Lemma penalty_calculation_classic_witness :
  penalty_calculation leading_number_code
    [punched "31"; punched "42"; punched "51"; punched "51"]
    [control "31"; control "41"; control "51"] true = 2
  ∧ penalty_calculation leading_number_code [] [control "31"; control "41"; control "51"] true = 3.
Proof.
  destruct (penalty_calculation_classic leading_number_code) as [Hgen Hex].
  split.
  - destruct (Hgen [punched "31"; punched "42"; punched "51"; punched "51"]
               [control "31"; control "41"; control "51"] true) as [-> _].
    + repeat constructor.
    + reflexivity.
  - apply Hex; reflexivity.
Defined.

(** C4, as the code has it: the penalty of the marked route is decided
    by the list of incorrect choice codes.  On a course where some
    choice-set control offers a wrong code, such as 31(31,131), that list
    is not empty, and [penalty_calculation] charges one penalty for each
    distinct incorrect choice code that occurs among the punches, however
    often it was punched; the classic consumption is not run for any
    control of the course, so besides the [check_existence] shortfall
    nothing else is charged.  Where the list is empty, as on a course
    whose bracketed controls offer the correct code only, the classic
    consumption is run. *)
Theorem penalty_calculation_choice (get_number_code : CourseControl.t → string)
    (splits : list Split.t) (controls : list CourseControl.t)
    (check_existence : bool) :
  let user := map Split.code splits in
  let origin := map get_number_code controls in
  let incorrect := get_marked_route_incorrect_list controls in
  let shortfall :=
    existence_shortfall check_existence (List.length splits)
      (List.length controls) in
  let penalty :=
    penalty_calculation get_number_code splits controls check_existence in
  ((∃ c, c ∈ controls ∧ offers_wrong_choice c) →
   incorrect ≠ [] ∧ NoDup incorrect
   ∧ (plain_or_choice controls →
      ∀ x, x ∈ incorrect ↔
        ∃ c correct members,
          c ∈ controls ∧ is_choice_control c correct members
          ∧ x ∈ members ∧ x ≠ correct)
   ∧ penalty
     = shortfall + Z.of_nat (List.length (punched_incorrect incorrect user)))
  ∧ (incorrect ≠ [] →
     penalty
     = shortfall + Z.of_nat (List.length (punched_incorrect incorrect user)))
  ∧ (incorrect = [] →
     penalty
     = shortfall + Z.of_nat (List.length (unmatched_punches origin user)))
  ∧ (plain_or_choice controls →
     (incorrect ≠ [] ↔ ∃ c, c ∈ controls ∧ offers_wrong_choice c)).
Proof.
  intros user origin incorrect shortfall penalty.
  assert (incorrect ≠ [] →
          penalty
          = shortfall + Z.of_nat (List.length (punched_incorrect incorrect user)))
    as Hchoice.
  { intros Hne. subst penalty. unfold penalty_calculation.
    fold incorrect. fold user.
    destruct incorrect as [|i0 rest] eqn:Hi; [done|].
    rewrite count_punched_incorrect. subst shortfall.
    unfold existence_shortfall. subst user. by rewrite !length_map. }
  assert ((∃ c, c ∈ controls ∧ offers_wrong_choice c) → incorrect ≠ [])
    as Hwrong.
  { intros (c & Hc & correct & members & wrong & Hch & Hw & Hne) Heq.
    assert (wrong ∈ incorrect) as Hin
      by (by eapply incorrect_list_wrong_choice).
    rewrite Heq in Hin. by apply elem_of_nil in Hin. }
  split; [|split; [|split]].
  - intros Hsome. split; [by apply Hwrong|]. split; [apply incorrect_list_NoDup|].
    split; [intros Hwf x; by apply incorrect_list_elem|].
    by apply Hchoice, Hwrong.
  - exact Hchoice.
  - intros Hnone. subst penalty. unfold penalty_calculation.
    fold incorrect. rewrite Hnone. rewrite fold_consume_unmatched.
    subst shortfall. unfold existence_shortfall. subst user origin.
    by rewrite !length_map.
  - intros Hwf. split; [|exact Hwrong].
    intros Hne. destruct incorrect as [|x rest] eqn:Hi; [done|].
    assert (x ∈ get_marked_route_incorrect_list controls) as Hx.
    { fold incorrect. rewrite Hi. apply list_elem_of_here. }
    apply (incorrect_list_elem controls x Hwf) in Hx
      as (c & correct & members & Hc & Hch & Hm & Hxne).
    exists c. split; [done|]. by exists correct, members, x.
Qed.

Lemma penalty_calculation_choice_witness :
  penalty_calculation leading_number_code
    [punched "131"; punched "131"; punched "77"; punched "41"; punched "41"]
    [control "31(31,131)"; control "41"] true
  = 0 + Z.of_nat (List.length ["131"]).
Proof.
  destruct (penalty_calculation_choice leading_number_code
    [punched "131"; punched "131"; punched "77"; punched "41"; punched "41"]
    [control "31(31,131)"; control "41"] true) as [Hsome _].
  destruct Hsome as (_ & _ & _ & Hpenalty); [|exact Hpenalty].
  exists (control "31(31,131)"). split; [apply list_elem_of_here|].
  exists "31", ["31"; "131"], "131". split; [|split].
  - repeat split; [done|repeat constructor].
  - apply list_elem_of_further, list_elem_of_here.
  - done.
Defined.

(** C4 as the specification states it fails on a course whose only
    choice-set control offers the correct code alone: the incorrect list
    is empty, the classic consumption is run, and of the punches 77, 31,
    31 at the control 31(31) the stray one and the repeated one are
    charged. *)
Lemma penalty_calculation_choice_counterexample :
  ¬ choice_penalty_as_specified leading_number_code
      [punched "77"; punched "31"; punched "31"] [control "31(31)"] false.
Proof.
  intros H.
  assert (has_choice_control [control "31(31)"]) as Hchoice.
  { exists (control "31(31)"), "31", ["31"]. split; [apply list_elem_of_here|].
    repeat split; [done|repeat constructor]. }
  specialize (H Hchoice). vm_compute in H. discriminate H.
Qed.

(** C5: [penalty_calculation_free_order] returns the number of controls
    minus the number of punches without penalty flag, or 0 when that is
    negative: the shortfall only, never more for further punches.  For a
    course of three controls and four punches of 31, of which the three
    repeats are the flagged ones, it returns 2. *)
Theorem penalty_calculation_free_order_shortfall :
  (∀ splits controls,
     penalty_calculation_free_order splits controls
     = Z.max 0 (Z.of_nat (List.length controls)
                - Z.of_nat (List.length (penalty_free splits))))
  ∧ (∀ splits more controls,
       0 ≤ penalty_calculation_free_order (splits ++ more) controls
         ≤ penalty_calculation_free_order splits controls)
  ∧ (∀ t1 t2 t3 t4 c1 c2 c3 c4,
       penalty_calculation_free_order
         [Split.punch "31" t1 c1 false; Split.punch "31" t2 c2 true;
          Split.punch "31" t3 c3 true; Split.punch "31" t4 c4 true]
         [control "*"; control "*"; control "*"] = 2).
Proof.
  split; [|split].
  - apply penalty_calculation_free_order_eq.
  - intros splits more controls.
    rewrite !penalty_calculation_free_order_eq. unfold penalty_free.
    rewrite list.filter_app, length_app. lia.
  - reflexivity.
Qed.

(** ** ARDF score *)

Example ardf_options_20 : ardf_options "20?(20,120)" = ["20?(20"; "120"].
Proof. reflexivity. Qed.

Example ardf_walk_examples :
  let course := ["10"; "20?(20,120)"; "30"] in
  ardf_walk course [punched "10"; punched "120"; punched "30"]
  = ArdfState 3 ["10"; "120"; "30"] 3
  ∧ ardf_walk course [punched "10"; punched "30"] = ArdfState 3 ["10"; "30"] 2
  ∧ ardf_walk course [punched "10"; punched "20"; punched "30"]
    = ArdfState 3 ["10"; "30"] 2.
Proof. repeat split; reflexivity. Qed.

Section ArdfWalk.

Implicit Types (st : ardf_state) (rest course codes : list string) (code : string).









End ArdfWalk.

Section ArdfCursor.

Implicit Types (st : ardf_state) (rest course : list string) (code : string).



End ArdfCursor.





(** ** Overtime check *)

Lemma is_str_eq v s : Setting.is_str v s = true ↔ v = VStr s.
Proof.
  destruct v; simpl; try (split; [discriminate|congruence]).
  rewrite String.eqb_eq. split; congruence.
Qed.

(** C7, as the code has it: without a time limit ([max_time] zero) the
    overtime check leaves the result alone; in the modes "time" and "ardf"
    an elapsed time above a non-zero [max_time] sets OVERTIME (and nothing
    else does); in mode "scores" the status becomes OVERTIME exactly when
    the configured overrun window is positive and the elapsed time exceeds
    [max_time] plus that window. *)
Theorem check_overtime_spec (race : Race.t) (mem : Memory.t)
    (result : Result.t) (group : Group.t) :
  Result.group result = Some group →
  let elapsed := Memory.get_result_otime mem result in
  let max_time := Group.max_time group in
  let mode := Race.get_setting race "result_processing_mode" (VStr "time") in
  (max_time = 0 → _check_overtime race mem result = Return tt result)
  ∧ (max_time ≠ 0 → mode = VStr "time" ∨ mode = VStr "ardf" →
     (max_time < elapsed →
      _check_overtime race mem result
      = Return tt (Result.set_status OVERTIME result))
     ∧ (elapsed ≤ max_time → _check_overtime race mem result = Return tt result))
  ∧ (max_time ≠ 0 → mode = VStr "scores" →
     ∀ window,
       Setting.number
         (Race.get_setting race "result_processing_scores_max_overrun_time" (VInt 0))
       = Some window →
       (0 < window ∧ max_time + window < elapsed →
        _check_overtime race mem result
        = Return tt (Result.set_status OVERTIME result))
       ∧ (¬ (0 < window ∧ max_time + window < elapsed) →
          _check_overtime race mem result = Return tt result)
       ∧ (Result.status result ≠ OVERTIME →
          Result.status (final_state (_check_overtime race mem result)) = OVERTIME
          ↔ 0 < window ∧ max_time + window < elapsed)).
Proof.
  intros Hgroup elapsed max_time mode. unfold _check_overtime. rewrite Hgroup.
  fold max_time. fold elapsed. unfold OTime.to_msec. fold mode.
  split; [|split].
  - intros ->. done.
  - intros Hmax%Z.eqb_neq Hmode. rewrite Hmax.
    assert (Setting.is_str mode "time" || Setting.is_str mode "ardf" = true) as ->.
    { destruct Hmode as [-> | ->]; done. }
    split.
    + intros Hlt%Z.ltb_lt. by rewrite Hlt.
    + intros Hle%Z.ltb_ge. by rewrite Hle.
  - intros Hmax%Z.eqb_neq -> window Hwindow. rewrite Hmax. simpl.
    unfold otime_setting. rewrite Hwindow. simpl.
    unfold mbind, action_bind, lift, or_raise. simpl. unfold OTime.to_msec.
    destruct ((0 <? window) && (max_time + window <? elapsed)) eqn:Hcond.
    + apply andb_true_iff in Hcond as [H0%Z.ltb_lt H1%Z.ltb_lt].
      repeat split; try done. intros H. exfalso. auto.
    + assert (¬ (0 < window ∧ max_time + window < elapsed)) as Hno.
      { intros [H0%Z.ltb_lt H1%Z.ltb_lt]. by rewrite H0, H1 in Hcond. }
      repeat split; done.
Qed.

Lemma check_overtime_spec_witness :
  let late :=
    fresh_result (Some (runner (Some (group_with_limit (minutes 60))))) []
      0 (minutes 70) OK in
  _check_overtime (scores_race (minutes 5)) sample_memory late
  = Return tt (Result.set_status OVERTIME late).
Proof.
  intros late.
  destruct (check_overtime_spec (scores_race (minutes 5)) sample_memory late
              (group_with_limit (minutes 60)) eq_refl) as (_ & _ & Hscores).
  apply (Hscores ltac:(done) eq_refl (minutes 5) eq_refl).
  vm_compute. split; reflexivity.
Defined.

(** C7 as the specification words it fails for mode "scores" when no
    overrun window is configured: 70 minutes against a limit of 60 do not
    give OVERTIME. *)
Lemma check_overtime_scores_counterexample :
  let late :=
    fresh_result (Some (runner (Some (group_with_limit (minutes 60))))) []
      0 (minutes 70) OK in
  ¬ scores_overtime_as_specified (scores_race 0) sample_memory late
      (group_with_limit (minutes 60)) 0.
Proof.
  intros late [_ H]. vm_compute in H. specialize (H eq_refl). discriminate H.
Qed.

(** ** Effects of the checker on person and status *)

Section Effects.

Context {Q : Result.t → Result.t → Prop} `{!PreOrder Q} {E : exn → Prop}.

Lemma raises_only_bind {A B} (m : fallible A) (f : A → fallible B) :
  raises_only E m → (∀ a, raises_only E (f a)) → raises_only E (m ≫= f).
Proof. destruct m; simpl; auto. Qed.

Lemma raises_only_or_raise {A} e (o : option A) :
  E e → raises_only E (or_raise e o).
Proof. destruct o; simpl; auto. Qed.

Lemma raises_only_fold {A B} (f : B → A → fallible B) l b :
  (∀ b a, raises_only E (f b a)) → raises_only E (fold_fallible f l b).
Proof.
  intros Hf. revert b. induction l as [|a l IH]; intros b; simpl; [done|].
  apply raises_only_bind; auto.
Qed.

Lemma raises_only_find {A} (test : A → fallible bool) l :
  (∀ a, raises_only E (test a)) → raises_only E (find_fallible test l).
Proof.
  intros Hf. induction l as [|a l IH]; simpl; [done|].
  apply raises_only_bind; [auto|]. intros []; [done|auto].
Qed.

Lemma raises_only_filter {A} (test : A → fallible bool) l :
  (∀ a, raises_only E (test a)) → raises_only E (filter_fallible test l).
Proof.
  intros Hf. induction l as [|a l IH]; simpl; [done|].
  apply raises_only_bind; [auto|]. intros b.
  apply raises_only_bind; [auto|]. done.
Qed.

Lemma ends_in_ret {A} (a : A) r : ends_in Q E r (mret (M:=action) a r).
Proof. simpl. reflexivity. Qed.

Lemma ends_in_bind {A B} (m : action A) (f : A → action B) r :
  ends_in Q E r (m r) → (∀ a r', ends_in Q E r' (f a r')) →
  ends_in Q E r ((m ≫= f) r).
Proof.
  intros Hm Hf. unfold mbind, action_bind.
  destruct (m r) as [a r'|e r']; simpl in *; [|done].
  specialize (Hf a r'). destruct (f a r') as [b r''|e r'']; simpl in *.
  - by etrans.
  - destruct Hf. split; [done|by etrans].
Qed.

Lemma ends_in_lift {A} (m : fallible A) r :
  raises_only E m → ends_in Q E r (lift m r).
Proof. destruct m; simpl; [reflexivity|]. intros. split; [done|reflexivity]. Qed.

Lemma ends_in_modify f r : Q r (f r) → ends_in Q E r (modify f r).
Proof. done. Qed.

Lemma ends_in_get r : ends_in Q E r (get r).
Proof. simpl. reflexivity. Qed.

Lemma ends_in_raise {A} e r : E e → ends_in Q E r (raise (A:=A) e r).
Proof. simpl. intros. split; [done|reflexivity]. Qed.

Lemma ends_in_Return {A} (a : A) r r' : Q r r' → ends_in Q E r (Return a r').
Proof. done. Qed.

End Effects.

#[global] Instance same_verdict_preorder : PreOrder same_verdict.
Proof.
  split.
  - intros r. by split.
  - intros r1 r2 r3 [Hp1 Hs1] [Hp2 Hs2]. split; congruence.
Qed.

#[global] Instance verdict_among_preorder statuses : PreOrder (verdict_among statuses).
Proof.
  split.
  - intros r. split; auto.
  - intros r1 r2 r3 [Hp1 Hs1] [Hp2 Hs2]. split; [congruence|].
    destruct Hs2 as [Hs2|Hs2]; [|auto]. rewrite Hs2. done.
Qed.

Lemma same_verdict_among statuses r r' :
  same_verdict r r' → verdict_among statuses r r'.
Proof. intros [Hp Hs]. split; auto. Qed.

Lemma ends_in_weaken {A} (Q Q' : Result.t → Result.t → Prop) (E E' : exn → Prop)
    r (o : outcome A) :
  (∀ r', Q r r' → Q' r r') → (∀ e, E e → E' e) →
  ends_in Q E r o → ends_in Q' E' r o.
Proof. intros HQ HE. destruct o; simpl; [auto|]. intros [? ?]. auto. Qed.

Create HintDb checker.

(** Membership in, and inclusion between, explicit lists. *)
Ltac solve_elem :=
  first [ assumption
        | apply list_elem_of_here
        | apply list_elem_of_further; solve_elem ].

Ltac solve_incl :=
  let x := fresh "x" in
  let Hx := fresh "Hx" in
  intros x Hx;
  repeat (apply elem_of_cons in Hx as [->|Hx]);
  try (by apply elem_of_nil in Hx);
  solve_elem.

Ltac solve_raises :=
  repeat first
    [ progress intros
    | exact I
    | assumption
    | apply raises_only_bind
    | apply raises_only_or_raise
    | apply raises_only_fold
    | apply raises_only_find
    | apply raises_only_filter
    | match goal with
      | |- raises_only _ (if ?b then _ else _) => destruct b
      | |- raises_only _ (match ?x with _ => _ end) => destruct x
      end ].

Ltac solve_ends :=
  repeat first
    [ progress intros
    | exact I
    | assumption
    | apply ends_in_ret
    | apply ends_in_get
    | apply ends_in_Return; first [reflexivity | by split | by (split; auto)]
    | apply ends_in_modify; first [reflexivity | by split | by (split; auto)]
    | apply ends_in_raise
    | apply ends_in_lift
    | apply ends_in_bind
    | match goal with
      | |- ends_in _ _ _ (if ?b then _ else _) => destruct b
      | |- ends_in _ _ _ (match ?x with _ => _ end) => destruct x
      | |- ends_in _ _ _ ((if ?b then _ else _) _) => destruct b
      | |- ends_in _ _ _ ((match ?x with _ => _ end) _) => destruct x
      end ].

Section CheckerEffects.

Variable race : Race.t.
Variable mem : Memory.t.

Lemma int_prefix_raises code : raises_only foreign (int_prefix code).
Proof. unfold int_prefix. solve_raises. Qed.

Lemma int_code_raises code : raises_only foreign (int_code code).
Proof. unfold int_code. solve_raises. Qed.

Lemma last_letter_raises code : raises_only foreign (last_letter code).
Proof. unfold last_letter. solve_raises. Qed.

Lemma otime_setting_raises key d : raises_only foreign (otime_setting race key d).
Proof. unfold otime_setting. solve_raises. Qed.

#[local] Hint Resolve int_prefix_raises int_code_raises last_letter_raises
  otime_setting_raises : checker.

Lemma credit_calculation_raises splits credit_cp :
  raises_only foreign (credit_calculation splits credit_cp).
Proof.
  unfold credit_calculation. generalize OTime.zero (@None Split.t).
  induction splits as [|s splits IH]; intros acc prev; simpl; [done|].
  apply raises_only_bind; [apply int_code_raises|]. intros code. apply IH.
Qed.

Lemma detach_penalty_laps2_raises splits lap_station :
  raises_only foreign (detach_penalty_laps2 splits lap_station).
Proof.
  unfold detach_penalty_laps2. destruct splits; [done|].
  solve_raises; apply int_code_raises.
Qed.

Lemma check_penalty_laps_raises result :
  raises_only foreign (check_penalty_laps race result).
Proof.
  unfold check_penalty_laps. solve_raises. apply detach_penalty_laps2_raises.
Qed.

Lemma penalty_calculation_trailo_raises splits controls :
  raises_only foreign (penalty_calculation_trailo race splits controls).
Proof.
  unfold penalty_calculation_trailo, trailo_wrong_answer.
  solve_raises; auto with checker.
Qed.

Lemma get_control_score_raises code :
  raises_only foreign (get_control_score race code).
Proof. unfold get_control_score. solve_raises; auto with checker. Qed.

Lemma calculate_rogaine_score_raises result allow_duplicates :
  raises_only foreign (calculate_rogaine_score race result allow_duplicates).
Proof.
  unfold calculate_rogaine_score.
  generalize (Setting.truthy allow_duplicates) (@nil string) 0.
  induction (Result.splits result) as [|s splits IH]; intros dup ua score;
    simpl; [done|].
  destruct (negb (Py.elem (Split.code s) ua) || dup); [|apply IH].
  apply raises_only_bind; [apply get_control_score_raises|]. intros. apply IH.
Qed.

Lemma calculate_rogaine_penalty_raises result score step :
  raises_only foreign (calculate_rogaine_penalty mem result score step).
Proof. unfold calculate_rogaine_penalty. solve_raises. Qed.

Lemma calculate_scores_trailo_raises result :
  raises_only foreign (calculate_scores_trailo race result).
Proof.
  unfold calculate_scores_trailo, trailo_right_answer.
  solve_raises; auto with checker.
Qed.

Lemma calculate_time_trailo_raises result :
  raises_only foreign (calculate_time_trailo race result).
Proof.
  unfold calculate_time_trailo, trailo_timed_punch.
  solve_raises; auto with checker.
Qed.

#[local] Hint Resolve credit_calculation_raises detach_penalty_laps2_raises
  check_penalty_laps_raises penalty_calculation_trailo_raises
  calculate_rogaine_score_raises calculate_rogaine_penalty_raises
  calculate_scores_trailo_raises calculate_time_trailo_raises : checker.

Lemma calculate_credit_time_effect r :
  ends_in same_verdict foreign r (calculate_credit_time race r).
Proof. unfold calculate_credit_time. solve_ends; auto with checker. Qed.

Lemma calculate_penalty_effect r :
  ends_in same_verdict foreign r (calculate_penalty race mem r).
Proof.
  unfold calculate_penalty, _calculate_trailo_penalty, _calculate_standard_penalty.
  solve_ends; auto with checker.
Qed.

Lemma process_trailo_mode_effect r :
  ends_in same_verdict foreign r (_process_trailo_mode race mem r).
Proof. unfold _process_trailo_mode. solve_ends; auto with checker. Qed.

Lemma process_scores_mode_effect r :
  ends_in same_verdict foreign r (_process_scores_mode race mem r).
Proof. unfold _process_scores_mode. solve_ends; auto with checker. Qed.

Lemma result_check_effect course r :
  ends_in same_verdict foreign r (result_check mem course r).
Proof. unfold result_check. destruct (Memory.check mem r course). by split. Qed.

Lemma process_standard_mode_effect person r :
  ends_in same_verdict foreign r (_process_standard_mode race mem person r).
Proof.
  unfold _process_standard_mode. solve_ends; apply result_check_effect.
Qed.

Lemma process_ardf_mode_effect r :
  ends_in (verdict_among [DISQUALIFIED]) foreign r (_process_ardf_mode race mem r).
Proof.
  unfold _process_ardf_mode, calculate_scores_ardf.
  destruct (Race.find_course race r); [|by split; auto].
  destruct (Result.group r); [|by split; auto].
  destruct (over_max_time _ _ _); [|by split; auto].
  split; [done|]. right. apply list_elem_of_here.
Qed.

Lemma check_overtime_effect r :
  ends_in (verdict_among [OVERTIME]) foreign r (_check_overtime race mem r).
Proof.
  unfold _check_overtime.
  solve_ends; auto with checker;
    try (split; [done|]; right; apply list_elem_of_here).
Qed.

Lemma check_result_modes_effect (mode : setting) p r :
  ends_in same_verdict foreign r
    ((if Setting.is_str mode "trailo" then
        _process_trailo_mode race mem;; mret true
      else if Setting.is_str mode "scores" then
        _process_scores_mode race mem;; mret true
      else _process_standard_mode race mem p) r).
Proof.
  destruct (Setting.is_str mode "trailo").
  { apply ends_in_bind; [apply process_trailo_mode_effect|].
    intros. apply ends_in_ret. }
  destruct (Setting.is_str mode "scores").
  { apply ends_in_bind; [apply process_scores_mode_effect|].
    intros. apply ends_in_ret. }
  apply process_standard_mode_effect.
Qed.

Lemma check_result_effect person r :
  ends_in (verdict_among [DISQUALIFIED]) foreign r (check_result race mem person r).
Proof.
  unfold check_result. destruct person as [p|]; [|by split; auto].
  destruct (Person.group p); [|by split; auto].
  destruct (Setting.is_str _ "ardf").
  { apply ends_in_bind; [apply process_ardf_mode_effect|]. intros. by split; auto. }
  eapply ends_in_weaken; [intros r'; apply same_verdict_among|done|].
  apply check_result_modes_effect.
Qed.

(** Outside the mode "ardf" the check of the punches leaves the status. *)
Lemma check_result_effect_not_ardf person r :
  Race.get_setting race "result_processing_mode" (VStr "time") ≠ VStr "ardf" →
  ends_in same_verdict foreign r (check_result race mem person r).
Proof.
  intros Hmode. unfold check_result. destruct person as [p|]; [|by split].
  destruct (Person.group p); [|by split].
  destruct (Setting.is_str _ "ardf") eqn:Hardf.
  { by apply is_str_eq in Hardf. }
  apply check_result_modes_effect.
Qed.

Lemma validate_result_status_effect check_flag r :
  ends_in (verdict_among [MISSING_PUNCH; MISS_PENALTY_LAP; OVERTIME]) foreign r
    (_validate_result_status race mem check_flag r).
Proof.
  unfold _validate_result_status. destruct check_flag; simpl.
  - apply ends_in_bind.
    { apply ends_in_lift. apply check_penalty_laps_raises. }
    intros [] r'; simpl.
    + eapply ends_in_weaken; [| |apply check_overtime_effect]; [|done].
      intros r'' [Hp [Hs|Hs]]; split; auto. right.
      apply list_elem_of_singleton in Hs. rewrite Hs.
      do 2 apply list_elem_of_further. apply list_elem_of_here.
    + split; [done|]. right. apply list_elem_of_further, list_elem_of_here.
  - split; [done|]. right. apply list_elem_of_here.
Qed.

End CheckerEffects.

(** ** The entry point [checking] *)

Section Checking.

Variable race : Race.t.
Variable mem : Memory.t.

(** The steps of [checking] after the status was reset to OK. *)
Lemma checking_steps result person :
  Result.person result = Some person →
  already_checked (Result.status result) = false →
  checking race mem result
  = (check_flag ← check_result race mem (Some person);
     calculate_penalty race mem;;
     calculate_credit_time race;;
     _validate_result_status race mem check_flag;;
     modify (λ result,
       Result.set_status_comment
         (Memory.get_status_default_comment mem (Result.status result)) result))
      (Result.set_status OK result).
Proof. intros Hp Hs. unfold checking. by rewrite Hp, Hs. Qed.

Lemma already_checked_elem status :
  already_checked status = true ↔ status ∈ checked_statuses.
Proof. apply py_elem_true. Qed.

Lemma verdict_among_mono (L L' : list ResultStatus) r r' :
  L ⊆ L' → verdict_among L r r' → verdict_among L' r r'.
Proof. intros Hsub [Hp [Hs|Hs]]; split; auto. Qed.

Lemma checking_effect_from (L : list ResultStatus) result person :
  Result.person result = Some person →
  already_checked (Result.status result) = false →
  (∀ r, ends_in (verdict_among L) foreign r
          (check_result race mem (Some person) r)) →
  ends_in
    (verdict_among (OK :: MISSING_PUNCH :: MISS_PENALTY_LAP :: OVERTIME :: L))
    foreign (Result.set_status OK result) (checking race mem result).
Proof.
  intros Hp Hs Hcheck. rewrite (checking_steps _ _ Hp Hs).
  apply ends_in_bind.
  { eapply ends_in_weaken; [| |apply Hcheck]; [|done].
    intros r'. apply verdict_among_mono. solve_incl. }
  intros check_flag r1. apply ends_in_bind.
  { eapply ends_in_weaken; [| |apply calculate_penalty_effect]; [|done].
    intros r'. apply same_verdict_among. }
  intros _ r2. apply ends_in_bind.
  { eapply ends_in_weaken; [| |apply calculate_credit_time_effect]; [|done].
    intros r'. apply same_verdict_among. }
  intros _ r3. apply ends_in_bind.
  { eapply ends_in_weaken; [| |apply validate_result_status_effect]; [|done].
    intros r'. apply verdict_among_mono. solve_incl. }
  intros _ r4. apply ends_in_modify. split; auto.
Qed.

(** After a full run the person is the same and the status is OK, one of
    the three verdicts of the status check, or what the check of the
    punches may set. *)
Lemma checking_final_status (L : list ResultStatus) result person :
  Result.person result = Some person →
  already_checked (Result.status result) = false →
  (∀ r, ends_in (verdict_among L) foreign r
          (check_result race mem (Some person) r)) →
  let final := final_state (checking race mem result) in
  Result.person final = Some person
  ∧ Result.status final
    ∈ OK :: MISSING_PUNCH :: MISS_PENALTY_LAP :: OVERTIME :: L.
Proof.
  intros Hp Hs Hcheck final.
  pose proof (checking_effect_from L _ _ Hp Hs Hcheck) as H.
  assert (verdict_among
            (OK :: MISSING_PUNCH :: MISS_PENALTY_LAP :: OVERTIME :: L)
            (Result.set_status OK result) final) as [Hp' Hs'].
  { subst final. destruct (checking race mem result) as [[] r'|e r']; simpl in *;
      [done|by destruct H]. }
  split.
  - by rewrite Hp'.
  - destruct Hs' as [Hs'|Hs']; [|done]. rewrite Hs'. apply list_elem_of_here.
Qed.

Lemma checking_raises_foreign result person e r' :
  Result.person result = Some person →
  checking race mem result = Raise e r' → foreign e.
Proof.
  intros Hp Hraise.
  destruct (already_checked (Result.status result)) eqn:Hs.
  - unfold checking in Hraise. by rewrite Hp, Hs in Hraise.
  - pose proof (checking_effect_from [DISQUALIFIED] _ _ Hp Hs
                  (check_result_effect race mem (Some person))) as H.
    rewrite Hraise in H. by destruct H.
Qed.

End Checking.

(** C1: [checking] raises [ResultCheckerException] exactly when the result
    has no person, and then leaves the result as it was; on a result whose
    status is OK, MISSING_PUNCH, OVERTIME, MISS_PENALTY_LAP or
    MULTI_DAY_ISSUE it changes no field, and returns if there is a
    person. *)
Theorem checking_guards (race : Race.t) (mem : Memory.t) (result : Result.t) :
  ((∃ msg r', checking race mem result = Raise (ResultCheckerException msg) r')
   ↔ Result.person result = None)
  ∧ (Result.person result = None →
     final_state (checking race mem result) = result)
  ∧ (Result.status result ∈ checked_statuses →
     final_state (checking race mem result) = result
     ∧ (Result.person result ≠ None → checking race mem result = Return tt result)).
Proof.
  split; [|split].
  - split.
    + intros (msg & r' & Hraise).
      destruct (Result.person result) as [person|] eqn:Hp; [|done]. exfalso.
      apply (checking_raises_foreign _ _ _ _ _ _ Hp Hraise).
    + intros Hp. unfold checking. rewrite Hp. eauto.
  - intros Hp. unfold checking. by rewrite Hp.
  - intros Hs%already_checked_elem. unfold checking. rewrite Hs.
    destruct (Result.person result); split; done.
Qed.

Lemma checking_guards_witness :
  let result :=
    fresh_result (Some (runner (Some (group_with_limit (minutes 90)))))
      [punched "31"] 0 (minutes 100) MISSING_PUNCH in
  checking ardf_credit_race sample_memory result = Return tt result
  ∧ final_state (checking ardf_credit_race sample_memory
                   (fresh_result None [] 0 0 DID_NOT_START))
    = fresh_result None [] 0 0 DID_NOT_START.
Proof.
  intros result. split.
  - apply (checking_guards ardf_credit_race sample_memory result).
    + apply list_elem_of_further, list_elem_of_here.
    + done.
  - destruct (checking_guards ardf_credit_race sample_memory
                (fresh_result None [] 0 0 DID_NOT_START)) as (_ & H & _).
    apply H. reflexivity.
Defined.

(** ** When a second check differs *)

#[global] Instance same_clock_preorder : PreOrder same_clock.
Proof.
  split.
  - intros r. by repeat split.
  - intros r1 r2 r3 (Hp1 & Hs1 & Hf1) (Hp2 & Hs2 & Hf2).
    repeat split; congruence.
Qed.

Lemma bind_Return_inv {A B} (m : action A) (f : A → action B) r b r' :
  (m ≫= f) r = Return b r' →
  ∃ a r'', m r = Return a r'' ∧ f a r'' = Return b r'.
Proof.
  unfold mbind, action_bind. destruct (m r) as [a r''|e r'']; [eauto|done].
Qed.

Lemma ends_in_Return_inv {A} Q E r (m : action A) a r' :
  ends_in Q E r (m r) → m r = Return a r' → Q r r'.
Proof. intros H Heq. by rewrite Heq in H. Qed.

Section SecondCheck.

Variable race : Race.t.
Variable mem : Memory.t.

Lemma calculate_credit_time_clock r :
  ends_in same_clock foreign r (calculate_credit_time race r).
Proof.
  unfold calculate_credit_time. destruct (negb _); [by repeat split|].
  apply ends_in_bind.
  - apply ends_in_lift, credit_calculation_raises.
  - intros credit r'. by repeat split.
Qed.

Lemma calculate_penalty_clock r :
  ends_in same_clock foreign r (calculate_penalty race mem r).
Proof.
  unfold calculate_penalty.
  destruct (Setting.is_str _ "off"); [by repeat split|].
  destruct (Result.group r) as [g|]; [|by repeat split].
  destruct (Race.find_course race r) as [course|]; [|by repeat split].
  destruct (Setting.is_str _ "trailo").
  - unfold _calculate_trailo_penalty. apply ends_in_bind.
    + apply ends_in_lift, penalty_calculation_trailo_raises.
    + intros penalty r'. by repeat split.
  - unfold _calculate_standard_penalty.
    apply ends_in_bind.
    { destruct (_ && _).
      - apply ends_in_bind; [apply ends_in_get|]. intros r0 r'.
        apply ends_in_bind;
          [apply ends_in_lift, detach_penalty_laps2_raises|].
        intros d r''. by repeat split.
      - apply ends_in_ret. }
    intros _ r1. apply ends_in_bind; [apply ends_in_get|]. intros r2 r3.
    apply ends_in_bind; [by repeat split|]. intros _ r4.
    apply ends_in_bind; [by repeat split|]. intros _ r5.
    destruct (Setting.is_str _ "laps"); [by repeat split|].
    destruct (Setting.is_str _ "time"); [|apply ends_in_ret].
    apply ends_in_bind; [apply ends_in_lift, otime_setting_raises|].
    intros penalty_time r6. by repeat split.
Qed.

(** If the score calculation of mode "ardf" disqualifies, the elapsed
    time it saw was above the limit of the group. *)
Lemma process_ardf_mode_outcome r r' :
  _process_ardf_mode race mem r = Return tt r' →
  same_clock r r'
  ∧ (Result.status r' = Result.status r
     ∨ ∃ g, Result.group r = Some g
            ∧ over_max_time (Memory.get_result_otime mem) r g = true).
Proof.
  unfold _process_ardf_mode, calculate_scores_ardf.
  destruct (Race.find_course race r) as [course|].
  2:{ intros [= <-]. split; [by repeat split|by left]. }
  destruct (Result.group r) as [g|] eqn:Hg.
  2:{ intros [= <-]. split; [by repeat split|by left]. }
  destruct (over_max_time _ r g) eqn:Hover; intros [= <-].
  - split; [by repeat split|]. right. eauto.
  - split; [by repeat split|by left].
Qed.

Lemma check_result_disqualified p r check_flag r' :
  check_result race mem (Some p) r = Return check_flag r' →
  Result.status r = OK → Result.status r' = DISQUALIFIED →
  same_clock r r' ∧ check_flag = true
  ∧ ∃ g, Result.group r = Some g
         ∧ over_max_time (Memory.get_result_otime mem) r g = true.
Proof.
  intros Hcheck Hok Hd. unfold check_result in Hcheck.
  destruct (Person.group p) as [g0|].
  2:{ injection Hcheck as _ <-. congruence. }
  destruct (Setting.is_str _ "ardf").
  - apply bind_Return_inv in Hcheck as ([] & r'' & Hardf & Hret).
    injection Hret as <- <-.
    apply process_ardf_mode_outcome in Hardf as [Hclock [Hs|Hg]];
      [congruence|done].
  - pose proof (check_result_modes_effect race mem
                  (Race.get_setting race "result_processing_mode" (VStr "time"))
                  p r) as H.
    rewrite Hcheck in H. destruct H as [_ Hs]. congruence.
Qed.

(** With the limit exceeded, the status check of the modes "time" and
    "ardf" ends in MISS_PENALTY_LAP or OVERTIME. *)
Lemma validate_result_status_overtime r g r' :
  Result.group r = Some g →
  over_max_time (Memory.get_result_otime mem) r g = true →
  Race.get_setting race "result_processing_mode" (VStr "time") = VStr "ardf" →
  _validate_result_status race mem true r = Return tt r' →
  Result.status r' = MISS_PENALTY_LAP ∨ Result.status r' = OVERTIME.
Proof.
  intros Hg Hover Hmode. unfold _validate_result_status. simpl negb. cbv iota.
  intros ([] & r'' & Hlaps & Hrest)%bind_Return_inv.
  - unfold lift in Hlaps. destruct (check_penalty_laps race r); [|done].
    injection Hlaps as _ <-. simpl in Hrest.
    unfold _check_overtime in Hrest. rewrite Hg, Hmode in Hrest.
    unfold over_max_time, OTime.zero in Hover.
    apply andb_true_iff in Hover as [H0%Z.ltb_lt Hmax].
    unfold OTime.to_msec in Hrest.
    assert ((Group.max_time g =? 0) = false) as Hne by (apply Z.eqb_neq; lia).
    rewrite Hne, Hmax in Hrest. simpl in Hrest.
    injection Hrest as <-. by right.
  - simpl in Hrest. injection Hrest as <-. by left.
Qed.

(** When the elapsed time does not depend on what [checking] writes,
    no call of [checking] leaves DISQUALIFIED. *)
Lemma checking_not_disqualified result r1 :
  time_fixed mem →
  checking race mem result = Return tt r1 →
  already_checked (Result.status result) = false →
  Result.status r1 ≠ DISQUALIFIED.
Proof.
  intros Hfixed Hfirst Hs Hd.
  destruct (Result.person result) as [person|] eqn:Hp.
  2:{ unfold checking in Hfirst. by rewrite Hp in Hfirst. }
  assert (Race.get_setting race "result_processing_mode" (VStr "time")
          = VStr "ardf") as Hmode.
  { destruct (Setting.is_str
                (Race.get_setting race "result_processing_mode" (VStr "time"))
                "ardf") eqn:Hardf; [by apply is_str_eq|]. exfalso.
    destruct (checking_final_status race mem [] _ _ Hp Hs) as [_ Hs1].
    { intros r. eapply ends_in_weaken;
        [| |apply (check_result_effect_not_ardf race mem)]; [|done|].
      - intros r'. apply same_verdict_among.
      - intros Heq. rewrite Heq in Hardf. done. }
    rewrite Hfirst in Hs1. simpl in Hs1. rewrite Hd in Hs1.
    repeat (apply elem_of_cons in Hs1 as [Hs1|Hs1]; [discriminate Hs1|]).
    by apply elem_of_nil in Hs1. }
  rewrite (checking_steps _ _ _ _ Hp Hs) in Hfirst.
  set (r0 := Result.set_status OK result) in Hfirst.
  apply bind_Return_inv in Hfirst as (check_flag & ra & Hcheck & Hfirst).
  apply bind_Return_inv in Hfirst as ([] & rb & Hpenalty & Hfirst).
  apply bind_Return_inv in Hfirst as ([] & rc & Hcredit & Hfirst).
  apply bind_Return_inv in Hfirst as ([] & rd & Hvalidate & Hfirst).
  injection Hfirst as <-. simpl in Hd.
  pose proof (ends_in_Return_inv _ _ _ _ _ _
                (calculate_penalty_effect race mem ra) Hpenalty) as [_ Hsb].
  pose proof (ends_in_Return_inv _ _ _ _ _ _
                (calculate_credit_time_effect race rb) Hcredit) as [_ Hsc].
  pose proof (ends_in_Return_inv _ _ _ _ _ _
                (calculate_penalty_clock ra) Hpenalty) as Hcb.
  pose proof (ends_in_Return_inv _ _ _ _ _ _
                (calculate_credit_time_clock rb) Hcredit) as Hcc.
  pose proof (ends_in_Return_inv _ _ _ _ _ _
                (validate_result_status_effect race mem check_flag rc) Hvalidate)
    as [_ Hsd].
  destruct Hsd as [Hsd|Hsd].
  2:{ rewrite Hd in Hsd.
      repeat (apply elem_of_cons in Hsd as [Hsd|Hsd]; [discriminate Hsd|]).
      by apply elem_of_nil in Hsd. }
  assert (Result.status ra = DISQUALIFIED) as Hda by congruence.
  destruct (check_result_disqualified _ _ _ _ Hcheck eq_refl Hda)
    as (Hca & -> & g & Hg & Hover).
  assert (same_clock r0 rc) as Hclock by (etrans; [exact Hca|]; by etrans).
  assert (Result.group rc = Some g) as Hgc.
  { unfold Result.group in *. destruct Hclock as [-> _]. done. }
  assert (over_max_time (Memory.get_result_otime mem) rc g = true) as Hoverc.
  { unfold over_max_time in *. by rewrite (Hfixed r0 rc Hclock). }
  destruct (validate_result_status_overtime rc g rd Hgc Hoverc Hmode Hvalidate)
    as [H|H]; congruence.
Qed.

End SecondCheck.

(** C2, as the code has it: when a call of [checking] returns and leaves
    a status other than DISQUALIFIED, a second call changes nothing, so
    that status, penalties, credit time and scores are the same after it;
    DISQUALIFIED is left only in mode "ardf", by the score calculation,
    and never when the elapsed time does not depend on what [checking]
    writes to the result. *)
Theorem checking_twice (race : Race.t) (mem : Memory.t) (result r1 : Result.t) :
  checking race mem result = Return tt r1 →
  (Result.status r1 ≠ DISQUALIFIED →
   checking race mem r1 = Return tt r1 ∧ same_outcome_fields r1 r1)
  ∧ (Result.status r1 = DISQUALIFIED →
     already_checked (Result.status result) = false
     ∧ Race.get_setting race "result_processing_mode" (VStr "time") = VStr "ardf")
  ∧ (time_fixed mem → Result.status r1 ≠ DISQUALIFIED).
Proof.
  intros Hfirst.
  destruct (Result.person result) as [person|] eqn:Hp.
  2:{ unfold checking in Hfirst. by rewrite Hp in Hfirst. }
  destruct (already_checked (Result.status result)) eqn:Hs.
  { unfold checking in Hfirst. rewrite Hp, Hs in Hfirst.
    injection Hfirst as <-. split; [|split].
    - intros _. split; [|by repeat split]. unfold checking. by rewrite Hp, Hs.
    - intros Hd. rewrite Hd in Hs. done.
    - intros _ Hd. rewrite Hd in Hs. done. }
  split; [|split].
  - intros Hnd.
    destruct (checking_final_status race mem [DISQUALIFIED] _ _ Hp Hs
                (check_result_effect race mem (Some person))) as [Hp1 Hs1].
    rewrite Hfirst in Hp1, Hs1. simpl in Hp1, Hs1.
    split; [|by repeat split].
    unfold checking. rewrite Hp1.
    assert (already_checked (Result.status r1) = true) as ->; [|done].
    apply already_checked_elem. unfold checked_statuses.
    repeat (apply elem_of_cons in Hs1 as [Heq|Hs1];
            [first [done | rewrite Heq; solve_elem]|]).
    by apply elem_of_nil in Hs1.
  - intros Hd. split; [done|].
    destruct (Setting.is_str
                (Race.get_setting race "result_processing_mode" (VStr "time"))
                "ardf") eqn:Hmode.
    { by apply is_str_eq. }
    exfalso.
    assert (Race.get_setting race "result_processing_mode" (VStr "time")
            ≠ VStr "ardf") as Hne.
    { intros Heq. rewrite Heq in Hmode. done. }
    destruct (checking_final_status race mem [] _ _ Hp Hs) as [_ Hs1].
    { intros r. eapply ends_in_weaken;
        [| |apply (check_result_effect_not_ardf race mem _ _ Hne)]; [|done].
      intros r'. apply same_verdict_among. }
    rewrite Hfirst in Hs1. simpl in Hs1. rewrite Hd in Hs1.
    repeat (apply elem_of_cons in Hs1 as [Hs1|Hs1]; [discriminate Hs1|]).
    by apply elem_of_nil in Hs1.
  - intros Hfixed. by eapply checking_not_disqualified.
Qed.

Lemma checking_twice_witness :
  ∃ r1, checking ardf_credit_race sample_memory
          (fresh_result (Some (runner (Some (group_with_limit (minutes 90)))))
             [punched "31"] 0 (minutes 100) DID_NOT_FINISH) = Return tt r1
        ∧ Result.status r1 = OVERTIME
        ∧ checking ardf_credit_race sample_memory r1 = Return tt r1.
Proof.
  eexists. split; [reflexivity|]. split; [reflexivity|].
  apply (checking_twice ardf_credit_race sample_memory
    (fresh_result (Some (runner (Some (group_with_limit (minutes 90)))))
       [punched "31"] 0 (minutes 100) DID_NOT_FINISH)).
  - reflexivity.
  - done.
Defined.

(** C2 as the specification words it fails: in an ARDF race with credit
    time the first call sees 100 minutes against a limit of 90 and leaves
    DISQUALIFIED with score 0; it also credits 20 minutes, so the second
    call sees 80 minutes and leaves OK with score 1. *)
Lemma checking_twice_counterexample :
  ¬ checking_idempotent_as_specified ardf_credit_race sample_memory credited_runner.
Proof.
  intros H.
  destruct (H ltac:(done)
    (Result.mk (Some (runner (Some (group_with_limit (minutes 90)))))
       [Split.punch "31" (minutes 40) true false;
        Split.punch "250" (minutes 60) true false]
       0 (minutes 100) DISQUALIFIED "" 0 0 (minutes 20) 0 0 0 0 0 0)
    (Result.mk (Some (runner (Some (group_with_limit (minutes 90)))))
       [Split.punch "31" (minutes 40) true false;
        Split.punch "250" (minutes 60) true false]
       0 (minutes 100) OK "" 0 0 (minutes 20) 0 0 1 0 0 0))
    as [Hstatus _].
  - vm_compute. reflexivity.
  - vm_compute. reflexivity.
  - discriminate Hstatus.
Qed.

(** ** Results of persons without group *)

Lemma credit_calculation_total splits credit_cp :
  Forall (λ s, is_Some (Py.int (Split.code s))) splits →
  ∃ credit, credit_calculation splits credit_cp = Value credit.
Proof.
  unfold credit_calculation. intros Hcodes.
  generalize OTime.zero (@None Split.t).
  induction Hcodes as [|s splits [n Hn] _ IH]; intros acc prev; simpl; [eauto|].
  unfold int_code. rewrite Hn. simpl. apply IH.
Qed.

Lemma filter_fallible_total {A} (test : A → fallible bool) (l : list A) :
  Forall (λ a, ∃ b, test a = Value b) l →
  ∃ l', filter_fallible test l = Value l'.
Proof.
  induction 1 as [|a l [b Hb] _ [l' IH]]; simpl; [eauto|].
  rewrite Hb, IH. simpl. eauto.
Qed.

Lemma check_penalty_laps_total race result :
  Forall (λ s, is_Some (Py.int (Split.code s))) (Result.splits result) →
  ∃ b, check_penalty_laps race result = Value b.
Proof.
  intros Hcodes. unfold check_penalty_laps.
  destruct (_ && _); [|eauto].
  unfold detach_penalty_laps2.
  destruct (Result.splits result) as [|s splits] eqn:Hsplits.
  { simpl. destruct (_ <? _); eauto. }
  rewrite <- Hsplits in *. clear Hsplits.
  match goal with
  | |- context [filter_fallible ?t1 (Result.splits result) ≫= _] =>
      destruct (filter_fallible_total t1 (Result.splits result)) as [regular ->]
  end.
  { eapply list.Forall_impl; [exact Hcodes|]. intros x [n Hn]. simpl.
    destruct (Split.is_correct x); [eauto|].
    unfold int_code. rewrite Hn. simpl. eauto. }
  simpl.
  match goal with
  | |- context [filter_fallible ?t1 (Result.splits result) ≫= _] =>
      destruct (filter_fallible_total t1 (Result.splits result)) as [penalty ->]
  end.
  { eapply list.Forall_impl; [exact Hcodes|]. intros x [n Hn]. simpl.
    unfold int_code. rewrite Hn. simpl. eauto. }
  simpl. destruct (_ <? _); eauto.
Qed.

(** C10, as the code has it: for a person without group, on a result that
    is not yet final, [checking] leaves the status OK or
    MISS_PENALTY_LAP, never MISSING_PUNCH, OVERTIME or DISQUALIFIED; it
    leaves OK whenever the penalty-lap check is off, and
    MISS_PENALTY_LAP only when that check finds fewer penalty laps
    punched than the result records; it returns whenever all punch codes
    are numbers. *)
Theorem checking_without_group (race : Race.t) (mem : Memory.t)
    (result : Result.t) (person : Person.t) :
  Result.person result = Some person →
  Person.group person = None →
  Result.status result ∉ checked_statuses →
  let final := final_state (checking race mem result) in
  (Result.status final = OK ∨ Result.status final = MISS_PENALTY_LAP)
  ∧ (lap_check_enabled race = false → Result.status final = OK)
  ∧ (Result.status final = MISS_PENALTY_LAP →
     check_penalty_laps race result = Value false)
  ∧ (Forall (λ s, is_Some (Py.int (Split.code s))) (Result.splits result) →
     checking race mem result = Return tt final).
Proof.
  intros Hp Hg Hs final.
  assert (already_checked (Result.status result) = false) as Hs'.
  { apply py_elem_false. exact Hs. }
  subst final. remember (checking race mem result) as o eqn:Ho.
  rewrite (checking_steps _ _ _ _ Hp Hs') in Ho.
  set (r0 := Result.set_status OK result) in Ho.
  assert (Result.group r0 = None) as Hg0.
  { unfold Result.group, r0. simpl. by rewrite Hp. }
  assert (calculate_penalty race mem r0 = Return tt r0) as Hpen.
  { unfold calculate_penalty. rewrite Hg0. by destruct (Setting.is_str _ _). }
  assert (lap_check_enabled race = false →
          check_penalty_laps race result = Value true) as Hoff.
  { unfold lap_check_enabled, check_penalty_laps. by intros ->. }
  assert (∀ r1, Result.splits r1 = Result.splits result →
                Result.penalty_laps r1 = Result.penalty_laps result →
                Result.group r1 = None → Result.status r1 = OK →
    let o1 := (_validate_result_status race mem true;;
               modify (λ result,
                 Result.set_status_comment
                   (Memory.get_status_default_comment mem (Result.status result))
                   result)) r1 in
    match check_penalty_laps race result with
    | Value true =>
        ∃ r2, o1 = Return tt r2 ∧ Result.status r2 = OK
    | Value false =>
        ∃ r2, o1 = Return tt r2 ∧ Result.status r2 = MISS_PENALTY_LAP
    | Error e => o1 = Raise e r1
    end) as Hvalidate.
  { intros r1 Hsplits Hlaps Hg1 Hs1 o1. subst o1.
    unfold _validate_result_status. simpl negb. cbv iota.
    unfold mbind, action_bind, lift.
    assert (check_penalty_laps race r1 = check_penalty_laps race result) as ->.
    { unfold check_penalty_laps. by rewrite Hsplits, Hlaps. }
    destruct (check_penalty_laps race result) as [[]|e]; simpl.
    - unfold _check_overtime. rewrite Hg1. simpl. eauto.
    - eauto.
    - done. }
  unfold mbind at 1, action_bind at 1 in Ho.
  unfold check_result in Ho. rewrite Hg in Ho. simpl in Ho.
  unfold mbind at 1, action_bind at 1 in Ho. rewrite Hpen in Ho.
  unfold mbind at 1, action_bind at 1 in Ho.
  unfold calculate_credit_time in Ho.
  destruct (negb (Setting.truthy _)).
  - specialize (Hvalidate r0 eq_refl eq_refl Hg0 eq_refl). simpl in Hvalidate.
    destruct (check_penalty_laps race result) as [[]|e] eqn:Hcheck.
    + destruct Hvalidate as (r2 & Hr2 & Hst). rewrite Hr2 in Ho. subst o.
      simpl. rewrite Hst. repeat split; auto; discriminate.
    + destruct Hvalidate as (r2 & Hr2 & Hst). rewrite Hr2 in Ho. subst o.
      simpl. rewrite Hst. repeat split; auto.
      intros Hoff'. apply Hoff in Hoff'. discriminate.
    + rewrite Hvalidate in Ho. subst o. simpl.
      repeat split; auto; try discriminate.
      intros Hcodes. destruct (check_penalty_laps_total race result Hcodes).
      congruence.
  - unfold mbind at 1, action_bind at 1, lift at 1 in Ho.
    change (Result.splits r0) with (Result.splits result) in Ho.
    destruct (credit_calculation (Result.splits result) _) as [credit|e]
      eqn:Hcredit.
    + unfold modify at 1 in Ho.
      specialize (Hvalidate (Result.set_credit_time credit r0)
                    eq_refl eq_refl Hg0 eq_refl). simpl in Hvalidate.
      destruct (check_penalty_laps race result) as [[]|e] eqn:Hcheck.
      * destruct Hvalidate as (r2 & Hr2 & Hst). rewrite Hr2 in Ho. subst o.
        simpl. rewrite Hst. repeat split; auto; discriminate.
      * destruct Hvalidate as (r2 & Hr2 & Hst). rewrite Hr2 in Ho. subst o.
        simpl. rewrite Hst. repeat split; auto.
        intros Hoff'. apply Hoff in Hoff'. discriminate.
      * rewrite Hvalidate in Ho. subst o. simpl.
        repeat split; auto; try discriminate.
        intros Hcodes. destruct (check_penalty_laps_total race result Hcodes).
        congruence.
    + subst o. simpl. repeat split; auto; try discriminate.
      intros Hcodes.
      destruct (credit_calculation_total _
                  (Race.get_setting race "credit_time_cp" (VInt 250)) Hcodes).
      congruence.
Qed.

Lemma checking_without_group_witness :
  Result.status
    (final_state
       (checking ardf_credit_race sample_memory
          (fresh_result (Some (runner None)) [punched "31"; punched "250"]
             0 (minutes 100) DID_NOT_START))) = OK.
Proof.
  apply (checking_without_group ardf_credit_race sample_memory
           (fresh_result (Some (runner None)) [punched "31"; punched "250"]
              0 (minutes 100) DID_NOT_START) (runner None)).
  - reflexivity.
  - reflexivity.
  - apply py_elem_false. reflexivity.
  - reflexivity.
Defined.

(** C10 as it is stated fails: with the penalty-lap check on, a
    person without group whose result records a penalty lap that was not
    run ends with MISS_PENALTY_LAP, not OK. *)
Lemma checking_without_group_counterexample :
  ¬ ok_without_group_as_stated lap_race sample_memory groupless_with_lap.
Proof.
  intros H. specialize (H (runner None) eq_refl eq_refl).
  assert (Result.status groupless_with_lap ∉ checked_statuses) as Hs.
  { apply py_elem_false. reflexivity. }
  specialize (H Hs). vm_compute in H. discriminate H.
Qed.

(** ** Sorting by key *)

Section SortProps.

Context {A K : Type} (lt : K → K → bool) (key : A → K).

Hypothesis lt_asym : ∀ k1 k2, lt k1 k2 = true → lt k2 k1 = false.
Hypothesis lt_neg_trans :
  ∀ k1 k2 k3, lt k2 k1 = false → lt k3 k2 = false → lt k3 k1 = false.

Lemma sort_insert_perm x l : sort_insert lt key x l ≡ₚ x :: l.
Proof.
  induction l as [|y l IH]; simpl; [done|].
  destruct (lt (key y) (key x)); [|done].
  rewrite IH. apply perm_swap.
Qed.

Lemma sort_by_perm l : sort_by lt key l ≡ₚ l.
Proof.
  induction l as [|x l IH]; simpl; [done|].
  rewrite sort_insert_perm. by rewrite IH.
Qed.

Lemma sort_insert_sorted x l :
  StronglySorted (in_order lt key) l → StronglySorted (in_order lt key) (sort_insert lt key x l).
Proof.
  induction 1 as [|y l Hsorted IH Hy]; simpl.
  - repeat constructor.
  - destruct (lt (key y) (key x)) eqn:Hyx.
    + constructor; [done|].
      rewrite sort_insert_perm. constructor; [|done].
      unfold in_order. by apply lt_asym.
    + constructor; [by constructor|].
      constructor; [done|].
      eapply list.Forall_impl; [exact Hy|]. intros z Hz. unfold in_order in *.
      by eapply lt_neg_trans.
Qed.

Lemma sort_by_sorted l : StronglySorted (in_order lt key) (sort_by lt key l).
Proof.
  induction l as [|x l IH]; simpl; [constructor|].
  by apply sort_insert_sorted.
Qed.

End SortProps.

(** ** Places on a leg *)

Lemma leg_key_lt_asym k1 k2 : leg_key_lt k1 k2 = true → leg_key_lt k2 k1 = false.
Proof.
  destruct k1 as [[] [t1|]], k2 as [[] [t2|]]; unfold leg_key_lt; simpl;
    try done; rewrite ?orb_false_r; intros H%Z.ltb_lt; apply Z.ltb_ge; lia.
Qed.

Lemma leg_key_lt_neg_trans k1 k2 k3 :
  leg_key_lt k2 k1 = false → leg_key_lt k3 k2 = false → leg_key_lt k3 k1 = false.
Proof.
  destruct k1 as [[] [t1|]], k2 as [[] [t2|]], k3 as [[] [t3|]];
    unfold leg_key_lt; simpl; try done;
    rewrite ?orb_false_r; intros H1%Z.ltb_ge H2%Z.ltb_ge; apply Z.ltb_ge; lia.
Qed.

Section LegPlaces.

Variable index : Z.
Variable relative : bool.

Abbreviation tm := (leg_time_of relative index).
Abbreviation ordered := (in_order leg_key_lt (leg_key index relative)).
Abbreviation cnt := (faster_on_leg relative index).

Lemma leg_time_of_leg p :
  tm p = get_leg_by_course_index p index ≫= leg_time_attr relative.
Proof.
  unfold leg_time_of, get_leg_relative_time, get_leg_time, leg_time_attr.
  destruct relative, (get_leg_by_course_index p index); done.
Qed.

Lemma find_update_leg f splits :
  (∀ s, Split.course_index (f s) = Split.course_index s) →
  List.find (λ split, Split.course_index split =? index) (update_leg index f splits)
  = f <$> List.find (λ split, Split.course_index split =? index) splits.
Proof.
  intros Hf. induction splits as [|s splits IH]; simpl; [done|].
  destruct (Split.course_index s =? index) eqn:Hs; simpl.
  - by rewrite Hf, Hs.
  - by rewrite Hs, IH.
Qed.

Lemma get_leg_updated f p :
  (∀ s, Split.course_index (f s) = Split.course_index s) →
  get_leg_by_course_index
    (PersonSplits.with_splits
       (update_leg index f (Result.splits (PersonSplits.result p))) p) index
  = f <$> get_leg_by_course_index p index.
Proof.
  intros Hf. unfold get_leg_by_course_index. simpl.
  destruct (PersonSplits.last_correct_index p <? index); [done|].
  by apply find_update_leg.
Qed.

(** Who stands before a person with a time has a time that is not above. *)
Lemma ordered_before a b tb :
  ordered a b → tm b = Some tb → ∃ ta, tm a = Some ta ∧ ta ≤ tb.
Proof.
  unfold in_order, leg_key, leg_key_lt. intros H Hb. rewrite Hb in H.
  destruct (tm a) as [ta|]; simpl in *; [|done].
  exists ta. split; [done|]. apply Z.ltb_ge in H. lia.
Qed.

(** Who stands behind a person with a time is not faster. *)
Lemma ordered_after a b ta :
  ordered a b → tm a = Some ta → is_faster relative index ta b = false.
Proof.
  unfold in_order, leg_key, leg_key_lt, is_faster. intros H Ha. rewrite Ha in H.
  destruct (tm b) as [tb|]; simpl in *; done.
Qed.

Lemma faster_app t l1 l2 : cnt t (l1 ++ l2) = (cnt t l1 + cnt t l2)%nat.
Proof. unfold faster_on_leg. by rewrite list.filter_app, length_app. Qed.

Lemma faster_none t l :
  Forall (λ q, is_faster relative index t q = false) l → cnt t l = 0%nat.
Proof.
  unfold faster_on_leg. induction 1 as [|q l Hq _ IH]; [done|].
  rewrite filter_cons. rewrite decide_False by congruence. done.
Qed.

Lemma faster_all t l :
  Forall (λ q, is_faster relative index t q = true) l → cnt t l = List.length l.
Proof.
  unfold faster_on_leg. induction 1 as [|q l Hq _ IH]; [done|].
  rewrite filter_cons. rewrite decide_True by done. simpl. by rewrite IH.
Qed.

Lemma faster_perm t l1 l2 : l1 ≡ₚ l2 → cnt t l1 = cnt t l2.
Proof. unfold faster_on_leg. by intros ->. Qed.

Lemma faster_same_times t l1 l2 :
  Forall2 (λ p p', tm p' = tm p) l1 l2 → cnt t l1 = cnt t l2.
Proof.
  unfold faster_on_leg. induction 1 as [|p p' l1 l2 Hp _ IH]; [done|].
  assert (is_faster relative index t p' = is_faster relative index t p) as Heq.
  { unfold is_faster. by rewrite Hp. }
  rewrite !filter_cons, Heq. destruct (decide _); simpl; by rewrite IH.
Qed.

Lemma not_faster_self p t : tm p = Some t → is_faster relative index t p = false.
Proof. unfold is_faster. intros ->. apply Z.ltb_irrefl. Qed.

(** In a sorted list the persons around one with time [t] count thus. *)
Lemma faster_in_sorted pre p rest t :
  StronglySorted ordered (pre ++ p :: rest) → tm p = Some t →
  cnt t (pre ++ p :: rest) = cnt t pre.
Proof.
  intros Hsorted Hp. rewrite faster_app.
  assert (cnt t (p :: rest) = 0%nat) as ->; [|lia].
  apply faster_none. constructor; [by apply not_faster_self|].
  apply StronglySorted_app_1_r, StronglySorted_cons in Hsorted as [Hrest _].
  eapply list.Forall_impl; [exact Hrest|]. intros q Hq. by eapply ordered_after.
Qed.

End LegPlaces.

Section LegRanking.

Variable index : Z.
Variable relative : bool.

Abbreviation tm' := (leg_time_of relative index).
Abbreviation ordered' := (in_order leg_key_lt (leg_key index relative)).
Abbreviation cnt' := (faster_on_leg relative index).

Lemma written_course_index leader place leg :
  Split.course_index (written relative leader place leg) = Split.course_index leg.
Proof. unfold written, set_place_attr. by destruct relative. Qed.

Lemma written_time leader place leg :
  leg_time_attr relative (written relative leader place leg)
  = leg_time_attr relative leg.
Proof. unfold written, set_place_attr, leg_time_attr. by destruct relative. Qed.

Lemma written_place leader place leg :
  place_attr relative (written relative leader place leg) = place.
Proof. unfold written, set_place_attr, place_attr. by destruct relative. Qed.

Lemma places_loop_ranks leader pre rest counter prev :
  StronglySorted ordered' (pre ++ rest) →
  (∀ p t, last pre = Some p → tm' p = Some t →
     prev = Some t
     ∧ Z.of_nat (List.length pre) - counter = 1 + Z.of_nat (cnt' t pre)) →
  Forall2 (ranked_on_leg relative index (pre ++ rest)) rest
    (places_loop index relative leader (List.length pre) counter prev rest).
Proof.
  revert pre counter prev.
  induction rest as [|p rest IH]; intros pre counter prev Hsorted Hinv; simpl.
  { constructor. }
  assert (pre ++ p :: rest = (pre ++ [p]) ++ rest) as Happ
    by (by rewrite <- app_assoc).
  assert (S (List.length pre) = List.length (pre ++ [p])) as Hlen
    by (rewrite length_app; simpl; lia).
  destruct (get_leg_by_course_index p index) as [leg|] eqn:Hleg.
  2:{ (* no leg: the person is passed over *)
    assert (tm' p = None) as Hnone by (by rewrite leg_time_of_leg, Hleg).
    constructor.
    - split; [done|]. intros t Ht. congruence.
    - rewrite Happ, Hlen. apply IH; [by rewrite <- Happ|].
      intros q t Hlast Hq. rewrite last_snoc in Hlast.
      injection Hlast as <-. congruence. }
  set (current_time := leg_time_attr relative leg).
  assert (tm' p = current_time) as Hcur by (by rewrite leg_time_of_leg, Hleg).
  set (counter' := if (0 <? List.length pre)%nat && bool_decide (prev = current_time)
                   then counter + 1 else 0).
  set (place := Z.of_nat (List.length pre) + 1 - counter').
  set (p' := PersonSplits.with_splits _ p).
  assert (get_leg_by_course_index p' index
          = Some (written relative leader place leg))
    as Hleg'.
  { unfold p'. rewrite get_leg_updated by apply written_course_index.
    by rewrite Hleg. }
  assert (tm' p' = tm' p) as Htime.
  { rewrite !leg_time_of_leg, Hleg', Hleg. simpl. apply written_time. }
  assert (∀ t, tm' p = Some t →
            place = 1 + Z.of_nat (cnt' t pre)) as Hplace.
  { intros t Ht.
    assert (Forall (λ q, ∃ tq, tm' q = Some tq ∧ tq ≤ t) pre) as Hpre.
    { apply list.Forall_forall. intros q Hq. eapply ordered_before; [|done].
      eapply StronglySorted_app_1_elem_of; [done..|]. apply list_elem_of_here. }
    destruct (last pre) as [q|] eqn:Hlast.
    - apply last_Some in Hlast as [pre' ->].
      apply list.Forall_app in Hpre as [Hpre' Hq].
      apply list.Forall_singleton in Hq as (tq & Hq & Hle).
      destruct (Hinv q tq) as [-> Hcount]; [done|done|].
      unfold place, counter'. rewrite length_app in *. simpl in *.
      assert ((0 <? List.length pre' + 1)%nat = true) as ->
        by (apply Nat.ltb_lt; lia).
      simpl. rewrite <- Hcur, Ht.
      destruct (decide (tq = t)) as [->|Hne].
      + rewrite bool_decide_eq_true_2 by done. lia.
      + rewrite bool_decide_eq_false_2 by congruence.
        assert (cnt' t (pre' ++ [q]) = List.length (pre' ++ [q])) as ->.
        { apply faster_all. apply list.Forall_forall. intros q' Hq'.
          assert (∃ tq', tm' q' = Some tq' ∧ tq' ≤ tq) as (tq' & Hq'' & Hle').
          { apply elem_of_app in Hq' as [Hq'|Hq'%list_elem_of_singleton].
            - eapply ordered_before; [|done].
              apply StronglySorted_app_1_l in Hsorted.
              eapply StronglySorted_app_1_elem_of; [done..|].
              apply list_elem_of_here.
            - subst q'. exists tq. split; [done|lia]. }
          unfold is_faster. rewrite Hq''. apply Z.ltb_lt. lia. }
        rewrite length_app. simpl. lia.
    - apply last_None in Hlast as ->. unfold place, counter'. simpl. done. }
  constructor.
  - split; [done|]. intros t Ht. exists (written relative leader place leg).
    split; [done|]. rewrite written_place, (faster_in_sorted _ _ _ _ _ _ Hsorted Ht).
    by apply Hplace.
  - rewrite Happ, Hlen. apply IH; [by rewrite <- Happ|].
    intros q t Hlast Hq. rewrite last_snoc in Hlast. injection Hlast as <-.
    split; [congruence|].
    rewrite <- Hlen, Nat2Z.inj_succ.
    replace (cnt' t (pre ++ [p])) with (cnt' t pre).
    + specialize (Hplace t Hq). unfold place in Hplace. lia.
    + rewrite faster_app.
      assert (cnt' t [p] = 0%nat) as ->; [|lia].
      apply faster_none. constructor; [|done]. by apply not_faster_self.
Qed.

End LegRanking.

Lemma set_places_for_leg_ranks index relative sorted :
  StronglySorted (in_order leg_key_lt (leg_key index relative)) sorted →
  Forall2 (ranked_on_leg relative index sorted) sorted
    (_set_places_for_leg index relative sorted).
Proof.
  intros Hsorted. unfold _set_places_for_leg.
  destruct sorted as [|first rest] eqn:Heq; [constructor|].
  rewrite <- Heq in *.
  apply (places_loop_ranks index relative _ [] sorted 0); [done|].
  intros p t Hlast. done.
Qed.

Lemma ranked_on_leg_perm relative index l1 l2 p p' :
  l1 ≡ₚ l2 → ranked_on_leg relative index l1 p p' →
  ranked_on_leg relative index l2 p p'.
Proof.
  intros Hperm [Htime Hplace]. split; [done|]. intros t Ht.
  destruct (Hplace t Ht) as (leg & Hleg & Hp). exists leg. split; [done|].
  by rewrite <- (faster_perm index relative t _ _ Hperm).
Qed.

(** C8: the places on a leg share ties.  After the persons are sorted by
    the time on the leg (those without a time last) and the places are
    set, every person keeps the time, and a person with a time stands
    one place behind the number of persons who were strictly faster: equal
    times share a place, and behind two persons tied for the first place
    the next one is third. *)
Theorem leg_places_share_ties (index : Z) (relative : bool)
    (person_splits : list PersonSplits.t) :
  let time := leg_time_of relative index in
  let sorted := _sort_by_leg index relative person_splits in
  let ranked := _set_places_for_leg index relative sorted in
  sorted ≡ₚ person_splits
  ∧ (∀ i j a b tb, (i < j)%nat → sorted !! i = Some a → sorted !! j = Some b →
       time b = Some tb → ∃ ta, time a = Some ta ∧ ta ≤ tb)
  ∧ Forall2 (ranked_on_leg relative index person_splits) sorted ranked
  ∧ (∀ a b c t u,
       person_splits ≡ₚ [a; b; c] →
       time a = Some t → time b = Some t → time c = Some u → t < u →
       ∀ p', p' ∈ ranked →
         ∃ leg, get_leg_by_course_index p' index = Some leg
                ∧ (time p' = Some t ∧ place_attr relative leg = 1
                   ∨ time p' = Some u ∧ place_attr relative leg = 3)).
Proof.
  intros time sorted ranked.
  assert (sorted ≡ₚ person_splits) as Hperm by apply sort_by_perm.
  assert (StronglySorted (in_order leg_key_lt (leg_key index relative)) sorted)
    as Hsorted.
  { apply sort_by_sorted; [apply leg_key_lt_asym|apply leg_key_lt_neg_trans]. }
  assert (Forall2 (ranked_on_leg relative index person_splits) sorted ranked)
    as Hranked.
  { eapply Forall2_impl; [apply set_places_for_leg_ranks; exact Hsorted|].
    intros p p'. by apply ranked_on_leg_perm. }
  split; [done|]. split; [|split; [done|]].
  - intros i j a b tb Hij Hi Hj Hb.
    rewrite <- (take_drop_middle sorted j b Hj) in Hsorted.
    eapply ordered_before; [|exact Hb].
    eapply StronglySorted_app_1_elem_of; [exact Hsorted| |apply list_elem_of_here].
    apply list_elem_of_lookup. exists i. rewrite lookup_take_lt by done. done.
  - intros a b c t u Habc Ha Hb Hc Htu p' Hp'.
    apply list_elem_of_lookup in Hp' as [i Hi].
    destruct (Forall2_lookup_r _ _ _ _ _ Hranked Hi) as (p & Hp & Htime & Hplace).
    assert (p ∈ [a; b; c]) as Hin.
    { rewrite <- Habc, <- Hperm. apply list_elem_of_lookup. eauto. }
    assert (faster_on_leg relative index t person_splits = 0%nat) as Ht0.
    { rewrite (faster_perm index relative t _ _ Habc). unfold faster_on_leg.
      rewrite !filter_cons, filter_nil. unfold is_faster. fold time.
      rewrite Ha, Hb, Hc.
      rewrite !decide_False; [done|..]; intros H%Z.ltb_lt; lia. }
    assert (faster_on_leg relative index u person_splits = 2%nat) as Hu2.
    { rewrite (faster_perm index relative u _ _ Habc). unfold faster_on_leg.
      rewrite !filter_cons, filter_nil. unfold is_faster. fold time.
      rewrite Ha, Hb, Hc.
      rewrite !decide_True by (by apply Z.ltb_lt).
      rewrite decide_False; [done|]. intros H%Z.ltb_lt; lia. }
    fold time in Htime.
    assert (time p = Some t ∨ time p = Some u) as [Hpt|Hpu].
    { repeat (apply elem_of_cons in Hin as [->|Hin]); auto.
      by apply elem_of_nil in Hin. }
    + destruct (Hplace t Hpt) as (leg & Hleg & Hpl). exists leg. split; [done|].
      left. rewrite Htime, Hpl, Ht0. done.
    + destruct (Hplace u Hpu) as (leg & Hleg & Hpl). exists leg. split; [done|].
      right. rewrite Htime, Hpl, Hu2. done.
Qed.

Lemma leg_places_share_ties_witness :
  (λ p, place_attr false <$> get_leg_by_course_index p 0)
  <$> _set_places_for_leg 0 false
        (_sort_by_leg 0 false
           [runner_with_leg 700; runner_with_leg 500; runner_with_leg 500])
  = [Some 1; Some 1; Some 3]
  ∧ ∀ p', p' ∈ _set_places_for_leg 0 false
                 (_sort_by_leg 0 false
                    [runner_with_leg 700; runner_with_leg 500; runner_with_leg 500]) →
      ∃ leg, get_leg_by_course_index p' 0 = Some leg
             ∧ (leg_time_of false 0 p' = Some 500 ∧ place_attr false leg = 1
                ∨ leg_time_of false 0 p' = Some 700 ∧ place_attr false leg = 3).
Proof.
  split; [reflexivity|].
  destruct (leg_places_share_ties 0 false
              [runner_with_leg 700; runner_with_leg 500; runner_with_leg 500])
    as (_ & _ & _ & Hex).
  apply (Hex (runner_with_leg 500) (runner_with_leg 500) (runner_with_leg 700)).
  - apply Permutation_cons_append.
  - reflexivity.
  - reflexivity.
  - reflexivity.
  - reflexivity.
Defined.

(** ** Final order of a group *)

Lemma sort_key_lt_asym k1 k2 : sort_key_lt k1 k2 = true → sort_key_lt k2 k1 = false.
Proof.
  destruct k1 as [[[] p1] t1], k2 as [[[] p2] t2]; unfold sort_key_lt; simpl;
    try done.
  all: rewrite orb_true_iff, andb_true_iff, orb_false_iff, andb_false_iff,
         Nat.ltb_lt, Nat.eqb_eq, Z.ltb_lt, Nat.ltb_ge, Nat.eqb_neq, Z.ltb_ge; lia.
Qed.

Lemma sort_key_lt_neg_trans k1 k2 k3 :
  sort_key_lt k2 k1 = false → sort_key_lt k3 k2 = false → sort_key_lt k3 k1 = false.
Proof.
  destruct k1 as [[[] p1] t1], k2 as [[[] p2] t2], k3 as [[[] p3] t3];
    unfold sort_key_lt; simpl; try done.
  all: rewrite !orb_false_iff, !andb_false_iff, !Nat.ltb_ge, !Nat.eqb_neq,
         !Z.ltb_ge; lia.
Qed.

Section Priority.

Context {V : Type} (value : ResultStatus → V)
  (equals_value : ResultStatus → V → bool).

Lemma priority_not_values status :
  members_are_not_values equals_value →
  priority value equals_value status = 0%nat.
Proof.
  intros Hplain. unfold priority, status_priority. cbn [index_of_status].
  by rewrite !Hplain.
Qed.

Lemma priority_values status :
  members_are_values value equals_value →
  priority value equals_value status = listed_priority status.
Proof.
  intros Hvalues.
  assert (∀ s, equals_value s (value s) = true) as Hsame.
  { intros s. by apply Hvalues. }
  assert (∀ s s', s ≠ s' → equals_value s (value s') = false) as Hother.
  { intros s s' Hne. destruct (equals_value s (value s')) eqn:He; [|done].
    by apply Hvalues in He. }
  unfold priority, status_priority. cbn [index_of_status].
  destruct status;
    repeat first [ rewrite Hsame | rewrite Hother by discriminate ];
    reflexivity.
Qed.

End Priority.

Lemma listed_priority_listed status :
  status ∈ [OVERTIME; MISSING_PUNCH; DISQUALIFIED; DID_NOT_FINISH; DID_NOT_START]
  ↔ (1 ≤ listed_priority status)%nat.
Proof.
  destruct status; cbn [listed_priority]; split; intros H; try lia;
    try solve_elem.
  all: repeat (apply elem_of_cons in H as [H|H]; [discriminate H|]).
  all: by apply elem_of_nil in H.
Qed.

(** C9, on the code: [_sort_by_result] sorts by the key (False, priority,
    result), where the priority of a status is one more than its place
    among the values OVERTIME.value, MISSING_PUNCH.value,
    DISQUALIFIED.value, DID_NOT_FINISH.value, DID_NOT_START.value, and 0
    when the status equals none of them.  A status is a member of the
    enumeration; where a member equals no value, the priority is 0 for
    every status, the results stand in the order of their elapsed time
    whatever their status, and results of the same elapsed time keep the
    order they came in: the list has no effect.  Only where a member
    equals its own value do the results stand as the list has them: none
    of the listed statuses before an OK result, the listed ones in the
    order of the list, the OK results in the order of their elapsed
    time. *)
Theorem sort_by_result_order {V : Type} (get_result_otime : Result.t → OTime.t)
    (value : ResultStatus → V) (equals_value : ResultStatus → V → bool)
    (person_splits : list PersonSplits.t) :
  let status p := Result.status (PersonSplits.result p) in
  let elapsed p := get_result_otime (PersonSplits.result p) in
  let sort := _sort_by_result get_result_otime value equals_value in
  let listed := [OVERTIME; MISSING_PUNCH; DISQUALIFIED; DID_NOT_FINISH;
                 DID_NOT_START] in
  sort person_splits ≡ₚ person_splits
  ∧ (members_are_not_values equals_value →
     (∀ s, priority value equals_value s = 0%nat)
     ∧ (∀ i j a b, (i < j)%nat →
          sort person_splits !! i = Some a → sort person_splits !! j = Some b →
          elapsed a ≤ elapsed b)
     ∧ (∀ a b c, elapsed a = elapsed b → elapsed b = elapsed c →
          sort [a; b; c] = [a; b; c]))
  ∧ (members_are_values value equals_value →
     (∀ s, priority value equals_value s = listed_priority s)
     ∧ ∀ i j a b, (i < j)%nat →
         sort person_splits !! i = Some a → sort person_splits !! j = Some b →
         (status a ∈ listed → status b ≠ OK)
         ∧ (status a ∈ listed → status b ∈ listed →
            (listed_priority (status a) ≤ listed_priority (status b))%nat)
         ∧ (status a = OK → status b = OK → elapsed a ≤ elapsed b)).
Proof.
  intros status elapsed sort listed. subst sort.
  set (sorted := _sort_by_result get_result_otime value equals_value person_splits).
  set (key := sort_key get_result_otime value equals_value).
  assert (∀ i j a b, (i < j)%nat → sorted !! i = Some a → sorted !! j = Some b →
            in_order sort_key_lt key a b) as Hordered.
  { intros i j a b Hij Hi Hj.
    assert (StronglySorted (in_order sort_key_lt key) sorted) as Hsorted.
    { apply sort_by_sorted; [apply sort_key_lt_asym|apply sort_key_lt_neg_trans]. }
    rewrite <- (take_drop_middle sorted j b Hj) in Hsorted.
    eapply StronglySorted_app_1_elem_of; [exact Hsorted| |apply list_elem_of_here].
    apply list_elem_of_lookup. exists i. by rewrite lookup_take_lt. }
  split; [apply sort_by_perm|]. split.
  - intros Hplain.
    pose proof (λ s, priority_not_values value equals_value s Hplain) as Hzero.
    split; [exact Hzero|]. split.
    + intros i j a b Hij Hi Hj.
      pose proof (Hordered i j a b Hij Hi Hj) as Hab.
      unfold in_order, key, sort_key, sort_key_lt in Hab.
      rewrite !Hzero in Hab. cbn in Hab. by apply Z.ltb_ge in Hab.
    + intros a b c Hab Hbc.
      assert (∀ x y, elapsed x = elapsed y →
                     sort_key_lt (key y) (key x) = false) as Hkey.
      { intros x y Hxy. unfold key, sort_key, sort_key_lt. rewrite !Hzero.
        fold (elapsed x) (elapsed y). rewrite Hxy. cbn.
        by rewrite Z.ltb_irrefl. }
      unfold _sort_by_result, sort_by. fold key. cbn [foldr sort_insert].
      rewrite (Hkey b c Hbc). cbn [sort_insert]. by rewrite (Hkey a b Hab).
  - intros Hvalues.
    pose proof (λ s, priority_values value equals_value s Hvalues) as Hlisted.
    split; [exact Hlisted|].
    intros i j a b Hij Hi Hj.
    pose proof (Hordered i j a b Hij Hi Hj) as Hab.
    unfold in_order, key, sort_key, sort_key_lt in Hab.
    rewrite !Hlisted in Hab. cbn in Hab.
    fold (status a) (status b) (elapsed a) (elapsed b) in Hab.
    apply orb_false_iff in Hab as [Hlt%Nat.ltb_ge Heq%andb_false_iff].
    rewrite Nat.eqb_neq, Z.ltb_ge in Heq.
    split; [|split].
    + intros Ha%listed_priority_listed Hb. rewrite Hb in Hlt.
      cbn [listed_priority] in Hlt. lia.
    + intros _ _. exact Hlt.
    + intros Ha Hb. rewrite Ha, Hb in Heq. destruct Heq; [done|lia].
Qed.

Lemma sort_by_result_order_witness :
  let group :=
    [finisher DISQUALIFIED 10; finisher MISSING_PUNCH 10; finisher OVERTIME 10] in
  _sort_by_result elapsed_less_credit status_number never_equal group = group
  ∧ priority status_number never_equal OVERTIME = 0%nat.
Proof.
  intros group.
  destruct (sort_by_result_order elapsed_less_credit status_number never_equal
              group) as (_ & Hplain & _).
  destruct Hplain as (Hzero & _ & Hkept); [done|].
  split; [|apply Hzero]. by apply Hkept.
Defined.

(** * Further properties *)

(** ** Penalty laps *)

Lemma fallible_bind_Value_inv {A B} (m : fallible A) (f : A → fallible B) b :
  m ≫= f = Value b → ∃ a, m = Value a ∧ f a = Value b.
Proof. destruct m as [a|e]; simpl; [eauto|done]. Qed.

Lemma filter_fallible_Value {A} (test : A → fallible bool) (p : A → bool) l :
  Forall (λ a, test a = Value (p a)) l →
  filter_fallible test l = Value (List.filter p l).
Proof.
  induction 1 as [|a l Ha _ IH]; simpl; [done|].
  rewrite Ha, IH. simpl. by destruct (p a).
Qed.

Lemma filter_fallible_Error {A} (test : A → fallible bool) l e :
  filter_fallible test l = Error e → ∃ a, a ∈ l ∧ test a = Error e.
Proof.
  induction l as [|a l IH]; simpl; [done|].
  destruct (test a) as [b|e'] eqn:Ha; simpl.
  - destruct (filter_fallible test l) as [l'|e'] eqn:Hl; simpl; [done|].
    intros [= ->]. destruct (IH eq_refl) as (a' & Hin & Ha').
    exists a'. split; [by apply list_elem_of_further|done].
  - intros [= ->]. exists a. split; [apply list_elem_of_here|done].
Qed.

Lemma filter_fallible_Value_inv {A} (test : A → fallible bool) l l' :
  filter_fallible test l = Value l' → Forall (λ a, ∃ b, test a = Value b) l.
Proof.
  revert l'. induction l as [|a l IH]; intros l'; simpl; [constructor|].
  destruct (test a) as [b|e] eqn:Ha; simpl; [|done].
  destruct (filter_fallible test l) as [l''|e] eqn:Hl; simpl; [|done].
  intros _. constructor; [eauto|]. by eapply IH.
Qed.

Lemma detach_penalty_laps2_value_error splits lap_station :
  raises_only (λ e, e = ValueError) (detach_penalty_laps2 splits lap_station).
Proof.
  unfold detach_penalty_laps2. destruct splits; [done|].
  unfold int_code. solve_raises; done.
Qed.

(** X1: [detach_penalty_laps2] divides the punches: when every punch code
    is a number, it returns the penalty laps (the punches at the lap
    station that are not correct controls, in their order) and all other
    punches, and the two lists together are the punches given; as soon as
    one code is not a number it raises ValueError. *)
Theorem detach_penalty_laps2_partition (splits : list Split.t)
    (lap_station : setting) :
  (Forall (λ p, is_Some (Py.int (Split.code p))) splits →
   ∃ regular penalty,
     detach_penalty_laps2 splits lap_station = Value (regular, penalty)
     ∧ regular ++ penalty ≡ₚ splits
     ∧ penalty = filter (λ p, is_penalty_lap lap_station p = Some true) splits
     ∧ regular = filter (λ p, ¬ is_penalty_lap lap_station p = Some true) splits)
  ∧ (¬ Forall (λ p, is_Some (Py.int (Split.code p))) splits →
     detach_penalty_laps2 splits lap_station = Error ValueError).
Proof.
  split.
  - intros Hcodes.
    set (lap p := match Py.int (Split.code p) with
                  | Some n => Setting.eq_int n lap_station
                              && negb (Split.is_correct p)
                  | None => false
                  end).
    assert (∀ p, p ∈ splits →
              (is_penalty_lap lap_station p = Some true ↔ lap p = true)) as Hlap.
    { intros p Hp. rewrite list.Forall_forall in Hcodes.
      destruct (Hcodes p Hp) as [n Hn]. unfold is_penalty_lap, lap.
      rewrite Hn. simpl. split; congruence. }
    assert (List.filter lap splits
            = filter (λ p, is_penalty_lap lap_station p = Some true) splits) as Hpen.
    { clear Hcodes. induction splits as [|p splits IH]; [done|].
      simpl. rewrite filter_cons, <- IH.
      2:{ intros q Hq. apply Hlap. by apply list_elem_of_further. }
      destruct (Hlap p (list_elem_of_here _ _)) as [H1 H2].
      destruct (lap p); destruct (decide _); try done.
      - exfalso. auto.
      - specialize (H1 ltac:(done)). done. }
    assert (List.filter (λ p, negb (lap p)) splits
            = filter (λ p, ¬ is_penalty_lap lap_station p = Some true) splits)
      as Hreg.
    { clear Hcodes Hpen. induction splits as [|p splits IH]; [done|].
      simpl. rewrite filter_cons, <- IH.
      2:{ intros q Hq. apply Hlap. by apply list_elem_of_further. }
      destruct (Hlap p (list_elem_of_here _ _)) as [H1 H2].
      destruct (lap p); destruct (decide _); simpl; try done.
      - exfalso. auto.
      - exfalso. apply n. intros H. specialize (H1 H). done. }
    exists (List.filter (λ p, negb (lap p)) splits), (List.filter lap splits).
    split; [|split; [|done]].
    + unfold detach_penalty_laps2. destruct splits as [|p0 rest] eqn:Heq; [done|].
      rewrite <- Heq in *. clear Heq.
      assert (filter_fallible (λ punch,
                  if Split.is_correct punch then Value true
                  else code ← int_code (Split.code punch);
                       Value (negb (Setting.eq_int code lap_station))) splits
              = Value (List.filter (λ p, negb (lap p)) splits)) as ->.
      { apply filter_fallible_Value.
        eapply list.Forall_impl; [exact Hcodes|]. intros p [n Hn]. simpl.
        unfold lap, int_code. rewrite Hn. simpl.
        destruct (Split.is_correct p); [|by rewrite andb_true_r].
        by rewrite andb_false_r. }
      assert (filter_fallible (λ punch,
                  code ← int_code (Split.code punch);
                  Value (Setting.eq_int code lap_station
                         && negb (Split.is_correct punch))) splits
              = Value (List.filter lap splits)) as ->; [|done].
      apply filter_fallible_Value.
      eapply list.Forall_impl; [exact Hcodes|]. intros p [n Hn]. simpl.
      unfold lap, int_code. by rewrite Hn.
    + rewrite Hreg, Hpen. rewrite (comm (++)). apply filter_app_complement.
  - intros Hbad.
    pose proof (detach_penalty_laps2_value_error splits lap_station) as Herr.
    destruct (detach_penalty_laps2 splits lap_station) as [[regular penalty]|e]
      eqn:Hd; [|simpl in Herr; by subst].
    exfalso. apply Hbad. unfold detach_penalty_laps2 in Hd.
    destruct splits as [|p0 rest] eqn:Heq; [constructor|].
    rewrite <- Heq in *. clear Heq.
    apply fallible_bind_Value_inv in Hd as (reg & _ & Hd).
    apply fallible_bind_Value_inv in Hd as (pen & H2 & _).
    apply filter_fallible_Value_inv in H2.
    eapply list.Forall_impl; [exact H2|]. intros p [b Hb]. simpl in Hb.
    unfold int_code in Hb. destruct (Py.int (Split.code p)); [eauto|done].
Qed.

Lemma detach_penalty_laps2_partition_witness :
  ∃ regular penalty,
    detach_penalty_laps2
      [Split.punch "31" 10 true false; Split.punch "99" 20 false true;
       Split.punch "99" 30 true false; Split.punch "99" 40 false true]
      (VInt 99) = Value (regular, penalty)
    ∧ List.length penalty = 2%nat
  ∧ detach_penalty_laps2 [Split.punch "31A" 10 true false] (VInt 99)
    = Error ValueError.
Proof.
  destruct (detach_penalty_laps2_partition
              [Split.punch "31" 10 true false; Split.punch "99" 20 false true;
               Split.punch "99" 30 true false; Split.punch "99" 40 false true]
              (VInt 99)) as [Hok _].
  destruct Hok as (regular & penalty & Hd & _ & Hpen & _).
  { repeat constructor; by eexists. }
  exists regular, penalty. split; [done|]. split.
  - rewrite Hpen. reflexivity.
  - apply (detach_penalty_laps2_partition [Split.punch "31A" 10 true false]).
    intros H. apply list.Forall_cons in H as [[n Hn] _]. discriminate Hn.
Defined.

(** ** Credit time *)

Lemma credit_loop_value credit_cp prev splits acc :
  Forall (λ p, is_Some (Py.int (Split.code p))) splits →
  credit_loop credit_cp prev splits acc
  = Value (acc + credit_of_legs (credited_legs credit_cp prev splits)).
Proof.
  intros Hcodes. revert prev acc.
  induction Hcodes as [|s splits [n Hn] _ IH]; intros prev acc; simpl.
  - f_equal. lia.
  - unfold int_code. rewrite Hn. simpl. rewrite IH.
    destruct prev as [before|]; [|done].
    destruct (Setting.eq_int n credit_cp); [|done].
    simpl. f_equal. lia.
Qed.

Lemma credit_loop_error credit_cp prev splits acc :
  ¬ Forall (λ p, is_Some (Py.int (Split.code p))) splits →
  credit_loop credit_cp prev splits acc = Error ValueError.
Proof.
  revert prev acc. induction splits as [|s splits IH]; intros prev acc Hbad.
  - exfalso. apply Hbad. constructor.
  - simpl. unfold int_code.
    destruct (Py.int (Split.code s)) as [n|] eqn:Hn; [|done]. simpl.
    apply IH. intros H. apply Hbad. constructor; [eauto|done].
Qed.

Lemma last_cons_default {A} (x d : A) l : List.last (x :: l) d = List.last l x.
Proof.
  revert x d. induction l as [|y l IH]; intros x d; [done|].
  change (List.last (x :: y :: l) d) with (List.last (y :: l) d).
  change (List.last (y :: l) x) with (List.last (y :: l) x).
  by rewrite !IH.
Qed.

Lemma credited_legs_bounds credit_cp before splits :
  times_ascending (before :: splits) →
  0 ≤ credit_of_legs (credited_legs credit_cp (Some before) splits)
    ≤ Split.time (List.last splits before) - Split.time before.
Proof.
  revert before. induction splits as [|s splits IH]; intros before Hasc.
  - simpl. lia.
  - apply StronglySorted_cons in Hasc as [Hle Hasc].
    apply list.Forall_cons in Hle as [Hs _].
    specialize (IH s Hasc).
    rewrite last_cons_default.
    simpl credited_legs.
    destruct (Py.int (Split.code s)) as [n|]; [|lia].
    destruct (Setting.eq_int n credit_cp); simpl; lia.
Qed.

(** X2: [credit_calculation] returns the time of the legs that end at a
    punch of the credit control, the first punch never counting; when the
    punch times do not go back, this credit is not negative and not more
    than the time from the first punch to the last; it raises ValueError
    as soon as a punch code is not a number. *)
Theorem credit_calculation_bounds (splits : list Split.t) (credit_cp : setting) :
  (Forall (λ p, is_Some (Py.int (Split.code p))) splits →
   credit_calculation splits credit_cp
   = Value (credit_of_legs (credited_legs credit_cp None splits))
   ∧ (times_ascending splits →
      0 ≤ credit_of_legs (credited_legs credit_cp None splits)
        ≤ punch_span splits))
  ∧ (¬ Forall (λ p, is_Some (Py.int (Split.code p))) splits →
     credit_calculation splits credit_cp = Error ValueError).
Proof.
  split.
  - intros Hcodes. split.
    + unfold credit_calculation. by rewrite credit_loop_value.
    + intros Hasc. destruct splits as [|s splits]; [simpl; lia|].
      simpl credited_legs. unfold punch_span.
      destruct (Py.int (Split.code s)); by apply credited_legs_bounds.
  - apply credit_loop_error.
Qed.

Lemma credit_calculation_bounds_witness :
  credit_calculation
    [Split.punch "31" (minutes 40) true false;
     Split.punch "250" (minutes 60) true false;
     Split.punch "32" (minutes 70) true false] (VInt 250)
  = Value (minutes 20)
  ∧ credit_calculation [Split.punch "31A" 0 true false] (VInt 250)
    = Error ValueError.
Proof.
  split.
  - destruct (credit_calculation_bounds
                [Split.punch "31" (minutes 40) true false;
                 Split.punch "250" (minutes 60) true false;
                 Split.punch "32" (minutes 70) true false] (VInt 250))
      as [Hok _].
    destruct Hok as [-> _]; [|reflexivity].
    repeat constructor; by eexists.
  - apply (credit_calculation_bounds [Split.punch "31A" 0 true false]).
    intros H. apply list.Forall_cons in H as [[n Hn] _]. discriminate Hn.
Defined.

(** ** Rogaine penalty and score *)

(** X3: [calculate_rogaine_penalty] is never above the score; without a
    group, without a time limit or within the limit it is [min(0, score)];
    beyond the limit it charges [penalty_step] for every started minute of
    whole seconds of overrun, capped at the score, so that with a score
    and a step that are not negative the penalty lies between 0 and the
    score. *)
Theorem calculate_rogaine_penalty_capped (mem : Memory.t) (result : Result.t)
    (score : Z) (penalty_step : setting) :
  let elapsed := Memory.get_result_otime mem result in
  let over g := 0 < Group.max_time g < elapsed in
  ((∀ g, Result.group result = Some g → ¬ over g) →
   calculate_rogaine_penalty mem result score penalty_step
   = Value (Z.min 0 score))
  ∧ (∀ g step,
       Result.group result = Some g → over g →
       Setting.number penalty_step = Some step →
       ∃ started_minutes,
         60 * (started_minutes - 1) < (elapsed - Group.max_time g) / 1000
           ≤ 60 * started_minutes
         ∧ calculate_rogaine_penalty mem result score penalty_step
           = Value (Z.min (started_minutes * step) score))
  ∧ (∀ penalty,
       calculate_rogaine_penalty mem result score penalty_step = Value penalty →
       penalty ≤ score
       ∧ (∀ step, Setting.number penalty_step = Some step →
            0 ≤ step → 0 ≤ score → 0 ≤ penalty)).
Proof.
  intros elapsed over.
  assert (∀ g, over g ↔
            (OTime.zero <? Group.max_time g) && (Group.max_time g <? elapsed)
            = true) as Hover.
  { intros g. unfold over, OTime.zero.
    rewrite andb_true_iff, !Z.ltb_lt. tauto. }
  split; [|split].
  - intros Hin. unfold calculate_rogaine_penalty.
    destruct (Result.group result) as [g|]; [|done]. fold elapsed.
    destruct (_ && _) eqn:Hc; [|done].
    exfalso. apply (Hin g eq_refl). by apply Hover.
  - intros g step Hg Hov Hstep. unfold calculate_rogaine_penalty.
    rewrite Hg. fold elapsed. apply Hover in Hov. rewrite Hov, Hstep. simpl.
    unfold OTime.to_sec.
    exists (((elapsed - Group.max_time g) / 1000 + 59) / 60). split; [|done].
    pose proof (Z.div_mod ((elapsed - Group.max_time g) / 1000 + 59) 60
                  ltac:(lia)).
    pose proof (Z.mod_pos_bound ((elapsed - Group.max_time g) / 1000 + 59) 60
                  ltac:(lia)).
    lia.
  - intros penalty. unfold calculate_rogaine_penalty.
    destruct (Result.group result) as [g|].
    2:{ simpl. intros [= <-]. split; [lia|]. intros. lia. }
    fold elapsed. destruct (_ && _) eqn:Hc.
    2:{ simpl. intros [= <-]. split; [lia|]. intros. lia. }
    destruct (Setting.number penalty_step) as [step|]; [|done]. simpl.
    intros [= <-]. split; [lia|]. intros ? [= <-] Hstep Hscore.
    apply andb_true_iff in Hc as [H0%Z.ltb_lt Hmax%Z.ltb_lt].
    unfold OTime.to_sec.
    assert (0 ≤ ((elapsed - Group.max_time g) / 1000 + 59) / 60).
    { apply Z.div_pos; [|lia].
      assert (0 ≤ (elapsed - Group.max_time g) / 1000)
        by (apply Z.div_pos; lia). lia. }
    apply Z.min_glb; [|done]. by apply Z.mul_nonneg_nonneg.
Qed.

Lemma calculate_rogaine_penalty_capped_witness :
  calculate_rogaine_penalty sample_memory
    (fresh_result (Some (runner (Some (group_with_limit (minutes 60))))) []
       0 (minutes 61 + 30000) OK) 10 (VInt 1)
  = Value 2.
Proof.
  destruct (calculate_rogaine_penalty_capped sample_memory
    (fresh_result (Some (runner (Some (group_with_limit (minutes 60))))) []
       0 (minutes 61 + 30000) OK) 10 (VInt 1)) as (_ & Hover & _).
  destruct (Hover (group_with_limit (minutes 60)) 1)
    as (m & Hm & ->); [reflexivity|vm_compute; split; reflexivity|reflexivity|].
  match type of Hm with
  | _ < ?d ≤ _ => change d with 90 in Hm
  end.
  assert (m = 2) as -> by lia. reflexivity.
Defined.

Section RogaineScore.

Variable race : Race.t.

Lemma get_control_score_outcome code :
  (∃ points, get_control_score race code = Value points)
  ∨ get_control_score race code = Error (score_error race).
Proof.
  unfold get_control_score, score_error.
  destruct (match List.find _ _ with Some c => _ | None => None end); [eauto|].
  destruct (Setting.is_str _ "fixed").
  - destruct (Setting.number _); simpl; eauto.
  - unfold int_code. destruct (Py.int code); simpl; eauto.
Qed.

Lemma rogaine_loop_cons dup x l ua score :
  rogaine_loop race dup (x :: l) ua score
  = if negb (Py.elem (Split.code x) ua) || dup then
      points ← get_control_score race (Split.code x);
      rogaine_loop race dup l (ua ++ [Split.code x]) (score + points)
    else rogaine_loop race dup l ua score.
Proof. reflexivity. Qed.

Lemma py_elem_ext {A} `{EqDecision A} (x : A) l1 l2 :
  (∀ y, y ∈ l1 ↔ y ∈ l2) → Py.elem x l1 = Py.elem x l2.
Proof. intros H. unfold Py.elem. apply bool_decide_ext, H. Qed.

(** Only the set of the codes seen matters. *)
Lemma rogaine_loop_seen dup l ua1 ua2 score :
  (∀ y, y ∈ ua1 ↔ y ∈ ua2) →
  rogaine_loop race dup l ua1 score = rogaine_loop race dup l ua2 score.
Proof.
  revert ua1 ua2 score. induction l as [|x l IH]; intros ua1 ua2 score Heq.
  { done. }
  rewrite !rogaine_loop_cons, (py_elem_ext _ ua1 ua2 Heq).
  destruct (negb _ || dup); [|by apply IH].
  destruct (get_control_score race (Split.code x)); simpl; [|done].
  apply IH. intros y. rewrite !elem_of_app. by rewrite Heq.
Qed.

Lemma fallible_bind_Value {A B} (a : A) (f : A → fallible B) :
  (Value a ≫= f) = f a.
Proof. reflexivity. Qed.

Lemma fallible_bind_Error {A B} (e : exn) (f : A → fallible B) :
  (Error e ≫= f) = Error e.
Proof. reflexivity. Qed.

Lemma rogaine_loop_swap dup x y l ua score :
  rogaine_loop race dup (x :: y :: l) ua score
  = rogaine_loop race dup (y :: x :: l) ua score.
Proof.
  assert (∀ c, Py.elem c (ua ++ [c]) = true) as Hself.
  { intros c. apply py_elem_true, elem_of_app. right. apply list_elem_of_here. }
  assert (∀ c d, c ≠ d → Py.elem c (ua ++ [d]) = Py.elem c ua) as Hother.
  { intros c d Hne. unfold Py.elem. apply bool_decide_ext.
    rewrite elem_of_app, list_elem_of_singleton. tauto. }
  assert (∀ c d, Py.elem c ua = true → Py.elem c (ua ++ [d]) = true) as Hmono.
  { intros c d Hc%py_elem_true. apply py_elem_true, elem_of_app. by left. }
  assert (∀ p q,
            rogaine_loop race dup l ((ua ++ [Split.code x]) ++ [Split.code y])
              (score + p + q)
            = rogaine_loop race dup l ((ua ++ [Split.code y]) ++ [Split.code x])
                (score + q + p))
    as Hboth.
  { intros p q. replace (score + q + p) with (score + p + q) by lia.
    apply rogaine_loop_seen. intros z. rewrite !elem_of_app. tauto. }
  destruct (Py.elem (Split.code x) ua) eqn:Hxu,
           (Py.elem (Split.code y) ua) eqn:Hyu,
           (get_control_score_outcome (Split.code x)) as [[px Hx]|Hx],
           (get_control_score_outcome (Split.code y)) as [[py Hy]|Hy],
           (decide (Split.code x = Split.code y)) as [Heq|Hne],
           dup;
    try (rewrite Heq in *);
    repeat (progress
      (rewrite ?rogaine_loop_cons, ?orb_true_r, ?orb_false_r;
       try rewrite Heq;
       rewrite ?Hxu, ?Hyu, ?Hself, ?(Hmono _ _ Hxu), ?(Hmono _ _ Hyu);
       try rewrite (Hother _ _ Hne);
       try rewrite (Hother _ _ (not_eq_sym Hne));
       rewrite ?Hxu, ?Hyu, ?Hx, ?Hy, ?fallible_bind_Value, ?fallible_bind_Error;
       cbn [negb]));
    try done; try congruence; try apply Hboth.
Qed.

Lemma rogaine_loop_perm dup l1 l2 ua score :
  l1 ≡ₚ l2 →
  rogaine_loop race dup l1 ua score = rogaine_loop race dup l2 ua score.
Proof.
  intros Hperm. revert ua score.
  induction Hperm as [|x l1 l2 _ IH|x y l|l1 l2 l3 _ IH1 _ IH2]; intros ua score.
  - done.
  - rewrite !rogaine_loop_cons. destruct (negb _ || dup); [|apply IH].
    destruct (get_control_score race (Split.code x)); simpl; [apply IH|done].
  - apply rogaine_loop_swap.
  - by rewrite IH1.
Qed.

Lemma rogaine_loop_repeat l s ua score :
  Split.code s ∈ ua ∨ Split.code s ∈ map Split.code l →
  rogaine_loop race false (l ++ [s]) ua score
  = rogaine_loop race false l ua score.
Proof.
  revert ua score. induction l as [|x l IH]; intros ua score Hseen.
  - destruct Hseen as [Hs|Hs]; [|by apply elem_of_nil in Hs].
    simpl. apply py_elem_true in Hs. by rewrite Hs.
  - change ((x :: l) ++ [s]) with (x :: (l ++ [s])).
    rewrite !rogaine_loop_cons. rewrite orb_false_r.
    destruct (Py.elem (Split.code x) ua) eqn:Hx; simpl.
    + apply IH. destruct Hseen as [?|Hs]; [auto|].
      simpl in Hs. apply elem_of_cons in Hs as [->|Hs]; [|auto].
      left. by apply py_elem_true.
    + destruct (get_control_score race (Split.code x)); simpl; [|done].
      apply IH. rewrite elem_of_app, list_elem_of_singleton.
      destruct Hseen as [?|Hs]; [auto|].
      simpl in Hs. apply elem_of_cons in Hs as [->|Hs]; auto.
Qed.

End RogaineScore.

(** X4: the rogaine score does not depend on the order of the punches:
    results whose punches are the same up to order get the same score (or
    fail alike); and unless duplicates are allowed, a further punch of a
    code already punched changes nothing. *)
Theorem calculate_rogaine_score_order (race : Race.t) (r1 r2 : Result.t)
    (allow_duplicates : setting) :
  (Result.splits r1 ≡ₚ Result.splits r2 →
   calculate_rogaine_score race r1 allow_duplicates
   = calculate_rogaine_score race r2 allow_duplicates)
  ∧ (∀ s, Setting.truthy allow_duplicates = false →
       Split.code s ∈ map Split.code (Result.splits r1) →
       Result.splits r2 = Result.splits r1 ++ [s] →
       calculate_rogaine_score race r2 allow_duplicates
       = calculate_rogaine_score race r1 allow_duplicates).
Proof.
  unfold calculate_rogaine_score. split.
  - apply rogaine_loop_perm.
  - intros s -> Hs ->. apply rogaine_loop_repeat. by right.
Qed.

Lemma calculate_rogaine_score_order_witness :
  let race := Race.mk ∅ [("31", 5); ("42", 7)] (λ _, None) in
  let punches := [punched "31"; punched "42"; punched "55"] in
  calculate_rogaine_score race
    (fresh_result None [punched "55"; punched "31"; punched "42"] 0 0 OK)
    (VBool false)
  = Value 13
  ∧ calculate_rogaine_score race
      (fresh_result None (punches ++ [punched "42"]) 0 0 OK) (VBool false)
    = Value 13.
Proof.
  intros race punches.
  destruct (calculate_rogaine_score_order race
              (fresh_result None punches 0 0 OK)
              (fresh_result None [punched "55"; punched "31"; punched "42"] 0 0 OK)
              (VBool false)) as [Hperm _].
  destruct (calculate_rogaine_score_order race
              (fresh_result None punches 0 0 OK)
              (fresh_result None (punches ++ [punched "42"]) 0 0 OK)
              (VBool false)) as [_ Hrep].
  split.
  - rewrite <- Hperm; [reflexivity|].
    symmetry. apply (Permutation_cons_append [punched "31"; punched "42"]).
  - rewrite (Hrep (punched "42")); [reflexivity|reflexivity| |reflexivity].
    simpl. apply list_elem_of_further, list_elem_of_here.
Defined.

(** ** Bounds of the penalty of the marked route *)

Lemma py_remove_length (c : string) user :
  (List.length user - 1 ≤ List.length (Py.remove c user) ≤ List.length user)%nat.
Proof.
  induction user as [|y user IH]; simpl; [lia|].
  destruct (decide (c = y)); simpl; lia.
Qed.

Lemma unmatched_punches_length origin user :
  (List.length user - List.length origin
   ≤ List.length (unmatched_punches origin user) ≤ List.length user)%nat.
Proof.
  revert user. induction origin as [|c origin IH]; intros user; simpl; [lia|].
  destruct (decide (c = "0")).
  - specialize (IH (tail user)). destruct user; simpl in *; lia.
  - specialize (IH (Py.remove c user)).
    pose proof (py_remove_length c user). lia.
Qed.

Lemma punched_incorrect_length incorrect user :
  NoDup incorrect →
  (List.length (punched_incorrect incorrect user) ≤ List.length user)%nat.
Proof.
  intros Hnd. apply submseteq_length, NoDup_submseteq.
  - by apply NoDup_filter.
  - intros x Hx. unfold punched_incorrect in Hx.
    by apply list_elem_of_filter in Hx as [Hx _].
Qed.

(** X5: whatever the course, the penalty of [penalty_calculation] lies
    between 0 and the larger of the number of punches and the number of
    controls; without [check_existence] it is at most the number of
    punches; and when the course marks no wrong choice, every punch beyond
    the number of controls is penalised. *)
Theorem penalty_calculation_bounds (get_number_code : CourseControl.t → string)
    (splits : list Split.t) (controls : list CourseControl.t)
    (check_existence : bool) :
  let penalty :=
    penalty_calculation get_number_code splits controls check_existence in
  let punches := Z.of_nat (List.length splits) in
  let course := Z.of_nat (List.length controls) in
  0 ≤ penalty ≤ Z.max punches course
  ∧ (check_existence = false → penalty ≤ punches)
  ∧ (get_marked_route_incorrect_list controls = [] →
     punches - course ≤ penalty
     ∧ (check_existence = true → course - punches ≤ penalty)).
Proof.
  intros penalty punches course. subst penalty punches course.
  unfold penalty_calculation. rewrite !length_map.
  set (shortfall :=
         if check_existence && (List.length splits <? List.length controls)%nat
         then Z.of_nat (List.length controls) - Z.of_nat (List.length splits)
         else 0).
  assert (0 ≤ shortfall
          ∧ shortfall ≤ Z.max 0 (Z.of_nat (List.length controls)
                                 - Z.of_nat (List.length splits))
          ∧ (check_existence = false → shortfall = 0)
          ∧ (check_existence = true →
             Z.of_nat (List.length controls) - Z.of_nat (List.length splits)
             ≤ shortfall)) as Hshort.
  { subst shortfall. destruct check_existence; simpl;
      destruct (Nat.ltb_spec (List.length splits) (List.length controls));
      repeat split; intros; try done; lia. }
  clearbody shortfall. destruct Hshort as (Hpos & Hmax & Hoff & Hon).
  destruct (get_marked_route_incorrect_list controls) as [|i incorrect] eqn:Hinc.
  - rewrite fold_consume_unmatched.
    pose proof (unmatched_punches_length (map get_number_code controls)
                  (map Split.code splits)) as Hlen.
    rewrite !length_map in Hlen.
    repeat split; intros;
      try (specialize (Hoff ltac:(assumption)));
      try (specialize (Hon ltac:(assumption))); lia.
  - rewrite count_punched_incorrect.
    pose proof (punched_incorrect_length (i :: incorrect) (map Split.code splits))
      as Hlen.
    rewrite length_map in Hlen. rewrite <- Hinc in Hlen.
    specialize (Hlen (incorrect_list_NoDup controls)). rewrite Hinc in Hlen.
    repeat split; intros; try done;
      try (specialize (Hoff ltac:(assumption))); lia.
Qed.

Lemma penalty_calculation_bounds_witness :
  let course := [control "31"; control "41(41)"] in
  let punches := [punched "31"; punched "77"; punched "41"; punched "78"] in
  2 ≤ penalty_calculation leading_number_code punches course false ≤ 4.
Proof.
  intros course punches.
  destruct (penalty_calculation_bounds leading_number_code punches course false)
    as (_ & Hup & Hlow).
  specialize (Hup eq_refl). destruct (Hlow eq_refl) as [Hlow' _].
  simpl in Hup, Hlow'. lia.
Defined.

Lemma unmatched_punches_wildcards origin user :
  Forall (λ c, c = "0") origin →
  unmatched_punches origin user = drop (List.length origin) user.
Proof.
  intros Hall. revert user.
  induction Hall as [|c origin -> _ IH]; intros user; simpl; [done|].
  rewrite IH. destruct user; simpl; [by rewrite drop_nil|done].
Qed.

(** X6: on a course of wildcard controls only (every number code is
    ["0"], no wrong choice marked) the codes punched do not matter: the
    penalty is the number of punches beyond the number of controls, and
    with [check_existence] the number of punches short of it. *)
Theorem penalty_calculation_wildcards (get_number_code : CourseControl.t → string)
    (splits : list Split.t) (controls : list CourseControl.t)
    (check_existence : bool) :
  Forall (λ c, get_number_code c = "0") controls →
  get_marked_route_incorrect_list controls = [] →
  let punches := Z.of_nat (List.length splits) in
  let course := Z.of_nat (List.length controls) in
  penalty_calculation get_number_code splits controls check_existence
  = if check_existence then Z.abs (punches - course)
    else Z.max 0 (punches - course).
Proof.
  intros Hwild Hinc punches course. subst punches course.
  unfold penalty_calculation. rewrite Hinc, fold_consume_unmatched.
  rewrite unmatched_punches_wildcards by (by apply Forall_map).
  rewrite length_drop, !length_map.
  destruct check_existence; simpl;
    [destruct (Nat.ltb_spec (List.length splits) (List.length controls))|]; lia.
Qed.

Lemma penalty_calculation_wildcards_witness :
  let course := [control "*"; control "*"; control "*"] in
  penalty_calculation leading_number_code [punched "31"] course true = 2
  ∧ penalty_calculation leading_number_code
      [punched "31"; punched "31"; punched "31"; punched "31"] course false = 1.
Proof.
  intros course. split.
  - apply (penalty_calculation_wildcards leading_number_code [punched "31"]
             course true); [|reflexivity].
    repeat constructor.
  - apply (penalty_calculation_wildcards leading_number_code
             [punched "31"; punched "31"; punched "31"; punched "31"]
             course false); [|reflexivity].
    repeat constructor.
Defined.

(** ** A run of [checking] *)

Lemma bind_Return_eq {A B} (m : action A) (f : A → action B) r a r' :
  m r = Return a r' → (m ≫= f) r = f a r'.
Proof. intros H. unfold mbind, action_bind. by rewrite H. Qed.

Lemma bind_Raise_eq {A B} (m : action A) (f : A → action B) r e r' :
  m r = Raise e r' → (m ≫= f) r = Raise e r'.
Proof. intros H. unfold mbind, action_bind. by rewrite H. Qed.

Section CheckingRun.

Variable race : Race.t.
Variable mem : Memory.t.

(** The punch check fails only where the punches are checked against the
    course: for a group held to its course when the check of the punches
    against the course fails, and for a group free of a course when no
    course is found. *)
Lemma check_result_false person r r' :
  check_result race mem (Some person) r = Return false r' →
  course_checked race = true
  ∧ ∃ g, Person.group person = Some g
         ∧ match _get_course race r with
           | Some course =>
               Group.is_any_course g = false
               ∧ fst (Memory.check mem r (Some course)) = false
           | None => Group.is_any_course g = true
           end.
Proof.
  unfold check_result, course_checked.
  destruct (Person.group person) as [g|] eqn:Hg; [|done].
  destruct (Setting.is_str _ "ardf").
  { intros (? & ? & _ & [=])%bind_Return_inv. }
  destruct (Setting.is_str _ "trailo").
  { intros (? & ? & _ & [=])%bind_Return_inv. }
  destruct (Setting.is_str _ "scores").
  { intros (? & ? & _ & [=])%bind_Return_inv. }
  unfold _process_standard_mode.
  destruct (Setting.truthy _).
  { intros (? & ? & _ & (? & ? & _ & [=])%bind_Return_inv)%bind_Return_inv. }
  intros (r1 & r2 & [= <- <-] & Hrest)%bind_Return_inv.
  split; [done|]. exists g. split; [done|]. rewrite Hg in Hrest.
  destruct (_get_course race r) as [course|], (Group.is_any_course g);
    try done.
  split; [done|]. unfold result_check in Hrest.
  destruct (Memory.check mem r (Some course)). by injection Hrest as -> _.
Qed.

(** When the status check raises, it has written nothing. *)
Lemma validate_result_status_raise check_flag r e r' :
  _validate_result_status race mem check_flag r = Raise e r' → r' = r.
Proof.
  unfold _validate_result_status. destruct check_flag; simpl; [|done].
  unfold mbind, action_bind, lift.
  destruct (check_penalty_laps race r) as [[]|]; simpl; [| |congruence].
  - unfold _check_overtime. destruct (Result.group r); [|done].
    destruct (_ =? 0); [done|]. destruct (_ || _).
    { by destruct (_ <? _). }
    destruct (Setting.is_str _ "scores"); [|done].
    unfold mbind, action_bind, lift.
    destruct (otime_setting race _ _); [|congruence].
    by destruct (_ && _).
  - done.
Qed.

(** With the punches right, the status check writes no MISSING_PUNCH. *)
Lemma validate_result_status_passed r :
  ends_in (verdict_among [MISS_PENALTY_LAP; OVERTIME]) foreign r
    (_validate_result_status race mem true r).
Proof.
  unfold _validate_result_status. simpl.
  apply ends_in_bind.
  { apply ends_in_lift. apply check_penalty_laps_raises. }
  intros [] r'; simpl.
  - eapply ends_in_weaken; [| |apply check_overtime_effect]; [|done].
    intros r''. apply verdict_among_mono. solve_incl.
  - split; [done|]. right. apply list_elem_of_here.
Qed.

End CheckingRun.

(** X7: a run of [checking] on a result with a person and a status that
    is not final leaves one of the statuses OK, MISSING_PUNCH,
    MISS_PENALTY_LAP, OVERTIME and DISQUALIFIED, whatever the status was;
    when it returns, the comment is the default comment of the status
    left; when it raises, the status left is OK or DISQUALIFIED; and
    MISSING_PUNCH is left only where the punches are checked against the
    course: for a group held to its course whose check fails, or for a
    group free of a course when no course is found. *)
Theorem checking_verdict (race : Race.t) (mem : Memory.t) (result : Result.t)
    (person : Person.t) :
  Result.person result = Some person →
  Result.status result ∉ checked_statuses →
  let started := Result.set_status OK result in
  let final := final_state (checking race mem result) in
  Result.status final ∈ verdicts
  ∧ (∀ r1, checking race mem result = Return tt r1 →
       Result.status_comment r1
       = Memory.get_status_default_comment mem (Result.status r1))
  ∧ (∀ e r1, checking race mem result = Raise e r1 →
       Result.status r1 = OK ∨ Result.status r1 = DISQUALIFIED)
  ∧ (Result.status final = MISSING_PUNCH →
     course_checked race = true
     ∧ ∃ g, Person.group person = Some g
            ∧ match Race.find_course race started with
              | Some course =>
                  Group.is_any_course g = false
                  ∧ fst (Memory.check mem started (Some course)) = false
              | None => Group.is_any_course g = true
              end).
Proof.
  intros Hp Hs started final.
  assert (already_checked (Result.status result) = false) as Hs'.
  { apply py_elem_false. exact Hs. }
  assert (∀ r, Result.status r = OK ∨ Result.status r = DISQUALIFIED →
               Result.status r ∈ verdicts ∧ Result.status r ≠ MISSING_PUNCH)
    as Hearly.
  { intros r [Heq|Heq]; rewrite Heq; split; try done; unfold verdicts; solve_elem. }
  subst final. rewrite (checking_steps _ _ _ _ Hp Hs'). fold started.
  (* the check of the punches *)
  pose proof (check_result_effect race mem (Some person) started) as H1.
  destruct (check_result race mem (Some person) started) as [flag r1|e r1] eqn:Hc.
  2:{ rewrite (bind_Raise_eq _ _ _ _ _ Hc). simpl.
      destruct H1 as [_ [_ Hs1]].
      assert (Result.status r1 = OK ∨ Result.status r1 = DISQUALIFIED) as Hs1'.
      { destruct Hs1 as [Hs1|Hs1%list_elem_of_singleton]; auto. }
      destruct (Hearly _ Hs1'). repeat split; try done. by intros ? ? [= _ <-]. }
  rewrite (bind_Return_eq _ _ _ _ _ Hc).
  assert (Result.status r1 = OK ∨ Result.status r1 = DISQUALIFIED) as Hs1.
  { destruct H1 as [_ [Hs1|Hs1%list_elem_of_singleton]]; auto. }
  (* penalties *)
  pose proof (calculate_penalty_effect race mem r1) as H2.
  destruct (calculate_penalty race mem r1) as [[] r2|e r2] eqn:Hpen.
  2:{ rewrite (bind_Raise_eq _ _ _ _ _ Hpen). simpl.
      destruct H2 as [_ [_ Hs2]]. rewrite <- Hs2 in Hs1.
      destruct (Hearly _ Hs1). repeat split; try done. by intros ? ? [= _ <-]. }
  rewrite (bind_Return_eq _ _ _ _ _ Hpen).
  destruct H2 as [_ Hs2]. rewrite <- Hs2 in Hs1.
  (* credit time *)
  pose proof (calculate_credit_time_effect race r2) as H3.
  destruct (calculate_credit_time race r2) as [[] r3|e r3] eqn:Hcredit.
  2:{ rewrite (bind_Raise_eq _ _ _ _ _ Hcredit). simpl.
      destruct H3 as [_ [_ Hs3]]. rewrite <- Hs3 in Hs1.
      destruct (Hearly _ Hs1). repeat split; try done. by intros ? ? [= _ <-]. }
  rewrite (bind_Return_eq _ _ _ _ _ Hcredit).
  destruct H3 as [_ Hs3]. rewrite <- Hs3 in Hs1.
  (* the status *)
  destruct (_validate_result_status race mem flag r3) as [[] r4|e r4] eqn:Hval.
  2:{ rewrite (bind_Raise_eq _ _ _ _ _ Hval). simpl.
      apply validate_result_status_raise in Hval as ->.
      destruct (Hearly _ Hs1). repeat split; try done. by intros ? ? [= _ <-]. }
  rewrite (bind_Return_eq _ _ _ _ _ Hval). simpl.
  pose proof (validate_result_status_effect race mem flag r3) as H4.
  rewrite Hval in H4. destruct H4 as [_ Hs4].
  split; [|split; [|split]].
  - unfold verdicts.
    destruct Hs4 as [Hs4|Hs4].
    + rewrite Hs4. by destruct (Hearly _ Hs1).
    + repeat (apply elem_of_cons in Hs4 as [Heq|Hs4];
              [rewrite Heq; solve_elem|]).
      by apply elem_of_nil in Hs4.
  - by intros ? [= <-].
  - done.
  - intros Hmp. destruct flag.
    + pose proof (validate_result_status_passed race mem r3) as H5.
      rewrite Hval in H5. destruct H5 as [_ [Hs5|Hs5]].
      * destruct (Hearly _ Hs1) as [_ Hne]. congruence.
      * rewrite Hmp in Hs5.
        repeat (apply elem_of_cons in Hs5 as [?|Hs5]; [done|]).
        by apply elem_of_nil in Hs5.
    + apply check_result_false in Hc as (Hmode & g & Hg & Hcourse).
      split; [done|]. exists g. split; [done|].
      unfold _get_course in Hcourse.
      assert (Result.person started = Some person) as Hp0 by done.
      by rewrite Hp0 in Hcourse.
Qed.

Lemma checking_verdict_witness :
  let result :=
    fresh_result (Some (runner (Some (group_with_limit (minutes 90)))))
      [punched "31"] 0 (minutes 100) DID_NOT_FINISH in
  Result.status (final_state (checking ardf_credit_race sample_memory result))
  ∈ verdicts.
Proof.
  intros result.
  refine (proj1 (checking_verdict ardf_credit_race sample_memory result
                   (runner (Some (group_with_limit (minutes 90)))) _ _)).
  - reflexivity.
  - unfold checked_statuses.
    intros H. repeat (apply elem_of_cons in H as [H|H]; [discriminate H|]).
    by apply elem_of_nil in H.
Defined.

(** ** Checking all results *)

Section CheckAll.

Variable race : Race.t.
Variable mem : Memory.t.

Lemma checking_person result :
  Result.person (final_state (checking race mem result)) = Result.person result.
Proof.
  destruct (Result.person result) as [person|] eqn:Hp.
  2:{ unfold checking. by rewrite Hp. }
  destruct (already_checked (Result.status result)) eqn:Hs.
  { unfold checking. by rewrite Hp, Hs. }
  by destruct (checking_final_status race mem [DISQUALIFIED] _ _ Hp Hs
                 (check_result_effect race mem (Some person))) as [-> _].
Qed.

Lemma checking_checked result :
  Result.person result = None ∨ Result.status result ∈ checked_statuses →
  final_state (checking race mem result) = result.
Proof.
  unfold checking. intros [Hp|Hs%already_checked_elem].
  - by rewrite Hp.
  - rewrite Hs. by destruct (Result.person result).
Qed.

Lemma checking_returns_final result r1 :
  checking race mem result = Return tt r1 →
  Result.status r1 ∈ DISQUALIFIED :: checked_statuses.
Proof.
  intros Hrun.
  destruct (Result.person result) as [person|] eqn:Hp.
  2:{ unfold checking in Hrun. by rewrite Hp in Hrun. }
  destruct (already_checked (Result.status result)) eqn:Hs.
  - unfold checking in Hrun. rewrite Hp, Hs in Hrun. injection Hrun as <-.
    apply list_elem_of_further. by apply already_checked_elem.
  - destruct (checking_final_status race mem [DISQUALIFIED] _ _ Hp Hs
                (check_result_effect race mem (Some person))) as [_ Hin].
    rewrite Hrun in Hin. simpl in Hin. unfold checked_statuses.
    repeat (apply elem_of_cons in Hin as [Heq|Hin];
            [rewrite Heq; solve_elem|]).
    by apply elem_of_nil in Hin.
Qed.

End CheckAll.

(** X8: [check_all] never fails with [ResultCheckerException]; it keeps
    the number of results and the person of each, and leaves alone the
    results without a person and those whose status is final; when it
    returns, every result with a person has a final status or
    DISQUALIFIED; and when the elapsed time does not depend on what the
    checker writes, a second run changes nothing. *)
Theorem check_all_checked (race : Race.t) (mem : Memory.t)
    (results : list Result.t) :
  let checked := fst (check_all race mem results) in
  let error := snd (check_all race mem results) in
  (∀ e, error = Some e → foreign e)
  ∧ Forall2 (λ r r',
       Result.person r' = Result.person r
       ∧ (Result.person r = None ∨ Result.status r ∈ checked_statuses → r' = r))
      results checked
  ∧ (error = None →
     Forall (λ r, Result.person r ≠ None →
                  Result.status r ∈ DISQUALIFIED :: checked_statuses) checked
     ∧ (time_fixed mem → check_all race mem checked = (checked, None))).
Proof.
  simpl. induction results as [|result rest IH]; simpl.
  { repeat split; try done; constructor. }
  destruct IH as (IHe & IHframe & IHdone).
  pose proof (checking_person race mem result) as Hperson.
  pose proof (checking_checked race mem result) as Hkept.
  destruct (Result.person result) as [person|] eqn:Hp.
  - destruct (checking race mem result) as [[] r1|e r1] eqn:Hrun; simpl in *.
    + destruct (check_all race mem rest) as [rest' error] eqn:Hrest; simpl in *.
      split; [done|]. split.
      { constructor; [|done]. split; [congruence|]. rewrite Hp. exact Hkept. }
      intros Herr. destruct (IHdone Herr) as [Hall Htwice].
      pose proof (checking_returns_final _ _ _ _ Hrun) as Hfinal.
      split; [by constructor|].
      intros Hfixed. rewrite Hperson.
      assert (checking race mem r1 = Return tt r1) as ->.
      { unfold checking. rewrite Hperson.
        assert (already_checked (Result.status r1) = true) as ->; [|done].
        apply already_checked_elem.
        apply elem_of_cons in Hfinal as [Hd|Hfinal]; [|done]. exfalso.
        destruct (already_checked (Result.status result)) eqn:Hs.
        - unfold checking in Hrun. rewrite Hp, Hs in Hrun.
          injection Hrun as <-. by rewrite Hd in Hs.
        - by apply (checking_not_disqualified race mem result r1). }
      by rewrite (Htwice Hfixed).
    + split.
      { intros e' [= <-]. by apply (checking_raises_foreign race mem _ _ _ _ Hp Hrun). }
      split; [|done].
      constructor.
      * split; [congruence|]. rewrite Hp. exact Hkept.
      * clear. induction rest; constructor; [by split|done].
  - destruct (check_all race mem rest) as [rest' error] eqn:Hrest; simpl in *.
    split; [done|]. split; [by constructor|].
    intros Herr. destruct (IHdone Herr) as [Hall Htwice].
    split; [by constructor|].
    intros Hfixed. by rewrite Hp, (Htwice Hfixed).
Qed.

Lemma check_all_checked_witness :
  let late :=
    fresh_result (Some (runner (Some (group_with_limit (minutes 90)))))
      [punched "31"] 0 (minutes 100) DID_NOT_FINISH in
  let results := [fresh_result None [] 0 0 DID_NOT_START; late] in
  let checked := fst (check_all ardf_credit_race clock_memory results) in
  check_all ardf_credit_race clock_memory checked = (checked, None).
Proof.
  intros late results checked.
  destruct (check_all_checked ardf_credit_race clock_memory results)
    as (_ & _ & Hdone).
  destruct (Hdone eq_refl) as [_ Htwice]. apply Htwice.
  intros r r' (_ & Hstart & Hfinish). simpl. by rewrite Hstart, Hfinish.
Defined.

(** ** Generation of the splits of a person *)

Lemma correct_splits_loop_spec controls ci t0 splits :
  unmatched_unindexed splits → (ci ≤ controls)%nat →
  let correct := filter (λ s, Split.is_correct s = true) splits in
  let run := correct_splits_loop controls ci t0 splits in
  snd run = ((ci + List.length correct) `min` controls)%nat
  ∧ ∀ i c, correct !! i = Some c → (ci + i < controls)%nat →
      List.find (λ s, Split.course_index s =? Z.of_nat (ci + i)) (fst run)
      = Some (_update_correct_split c (Z.of_nat (ci + i)) (leg_start t0 correct i)).
Proof.
  intros Hfresh. revert ci t0.
  induction Hfresh as [|s splits Hs _ IH]; intros ci t0 Hci.
  { cbn. split; [lia|done]. }
  cbn [correct_splits_loop].
  destruct (Nat.ltb_spec ci controls) as [Hlt|Hge].
  2:{ cbn [fst snd]. split; [lia|]. intros; lia. }
  rewrite filter_cons. destruct (Split.is_correct s) eqn:Hcorrect.
  - rewrite decide_True by done.
    specialize (IH (S ci) (Split.time s) ltac:(lia)).
    destruct (correct_splits_loop controls (S ci) (Split.time s) splits)
      as [out reached]. cbn [fst snd length] in *.
    destruct IH as [Hreached Hlegs]. split; [lia|].
    set (l := filter (λ s, Split.is_correct s = true) splits) in *.
    intros [|i] c Hc Hi; cbn [List.find].
    + injection Hc as <-. rewrite Nat.add_0_r.
      assert (Split.course_index (_update_correct_split s (Z.of_nat ci) t0)
              = Z.of_nat ci) as -> by done.
      by rewrite Z.eqb_refl.
    + assert (Split.course_index (_update_correct_split s (Z.of_nat ci) t0)
              = Z.of_nat ci) as -> by done.
      destruct (Z.eqb_spec (Z.of_nat ci) (Z.of_nat (ci + S i))) as [Heq|_]; [lia|].
      replace (ci + S i)%nat with (S ci + i)%nat by lia.
      rewrite (Hlegs i c Hc) by lia. do 2 f_equal.
      destruct i as [|i]; [done|].
      change ((s :: l) !! S (S i)) with (l !! S i) in Hc.
      change (leg_start t0 (s :: l) (S (S i)))
        with (default t0 (Split.time <$> l !! i)).
      change (leg_start (Split.time s) l (S i))
        with (default (Split.time s) (Split.time <$> l !! i)).
      apply lookup_lt_Some in Hc.
      by destruct (lookup_lt_is_Some_2 l i ltac:(lia)) as [before ->].
  - rewrite decide_False by done.
    specialize (IH ci t0 Hci).
    destruct (correct_splits_loop controls ci t0 splits) as [out reached].
    cbn [fst snd] in *. destruct IH as [Hreached Hlegs]. split; [done|].
    intros i c Hc Hi. specialize (Hs eq_refl). cbn [List.find].
    destruct (Z.eqb_spec (Split.course_index s) (Z.of_nat (ci + i))) as [Heq|_];
      [lia|]. by apply Hlegs.
Qed.

Section StandardSplits.

Variable race : Race.t.
Variable get_start_time : Result.t → OTime.t.
Variable new_course : Course.t.
Variable p : PersonSplits.t.

Let controls := Course.controls (splits_course race new_course p).
Let splits := Result.splits (PersonSplits.result p).
Let correct := filter (λ s, Split.is_correct s = true) splits.
Let start := get_start_time (PersonSplits.result p).
Let p' := _generate_standard_splits race get_start_time new_course p.
Let timed (s : Split.t) := set_relative_time (Some (Split.time s - start)) s.

Hypothesis Hcontrols : controls ≠ [].
Hypothesis Hfresh : unmatched_unindexed splits.

Lemma timed_correct :
  filter (λ s, Split.is_correct s = true) (map timed splits) = map timed correct.
Proof.
  subst correct.
  assert (∀ l, filter (λ s, Split.is_correct s = true) (map timed l)
               = map timed (filter (λ s, Split.is_correct s = true) l)) as H;
    [|apply H].
  induction l as [|s l IH]; [done|].
  cbn [map]. rewrite !filter_cons.
  change (Split.is_correct (timed s)) with (Split.is_correct s).
  destruct (decide (Split.is_correct s = true)); cbn [map]; by rewrite IH.
Qed.

Lemma timed_unmatched : unmatched_unindexed (map timed splits).
Proof. apply Forall_map. eapply list.Forall_impl; [exact Hfresh|]. done. Qed.

Lemma leg_start_timed i :
  leg_start start (map timed correct) i = leg_start start correct i.
Proof.
  destruct i as [|i]; [done|]. cbn [leg_start].
  rewrite list_lookup_fmap. by destruct (correct !! i).
Qed.

Lemma generated_with_controls :
  p' = set_last_correct_index
         (Z.of_nat (snd (correct_splits_loop (List.length controls) 0 start
                           (map timed splits))) - 1)
         (PersonSplits.with_splits
            (fst (correct_splits_loop (List.length controls) 0 start
                    (map timed splits))) p).
Proof.
  subst p'. unfold _generate_standard_splits. fold controls start splits.
  fold timed. destruct controls; [done|].
  by destruct (correct_splits_loop _ 0 start (map timed splits)).
Qed.

Lemma generated_last_correct_index :
  PersonSplits.last_correct_index p'
  = Z.of_nat (List.length correct `min` List.length controls) - 1.
Proof.
  rewrite generated_with_controls.
  destruct (correct_splits_loop_spec (List.length controls) 0 start
              (map timed splits) timed_unmatched ltac:(lia)) as [Hreached _].
  cbn [set_last_correct_index PersonSplits.last_correct_index].
  by rewrite Hreached, timed_correct, length_map.
Qed.

Lemma generated_leg i c :
  correct !! i = Some c → (i < List.length controls)%nat →
  get_leg_by_course_index p' (Z.of_nat i)
  = Some (_update_correct_split (timed c) (Z.of_nat i) (leg_start start correct i)).
Proof.
  intros Hc Hi. unfold get_leg_by_course_index.
  rewrite generated_last_correct_index.
  pose proof (lookup_lt_Some _ _ _ Hc) as Hlen.
  destruct (Z.ltb_spec
              (Z.of_nat (List.length correct `min` List.length controls) - 1)
              (Z.of_nat i)) as [Hlt|_]; [lia|].
  rewrite generated_with_controls.
  destruct (correct_splits_loop_spec (List.length controls) 0 start
              (map timed splits) timed_unmatched ltac:(lia)) as [_ Hlegs].
  specialize (Hlegs i (timed c)). rewrite timed_correct in Hlegs.
  rewrite leg_start_timed in Hlegs.
  apply Hlegs; [|lia]. by rewrite list_lookup_fmap, Hc.
Qed.

Lemma generated_time_over_legs i c :
  correct !! i = Some c → (i < List.length controls)%nat →
  time_over_legs p' (S i) = Split.time c - start.
Proof.
  revert c. induction i as [|i IH]; intros c Hc Hi.
  - cbn [time_over_legs]. unfold get_leg_time.
    rewrite (generated_leg 0 c Hc Hi). cbn. lia.
  - destruct (lookup_lt_is_Some_2 correct i) as [before Hbefore].
    { apply lookup_lt_Some in Hc. lia. }
    change (time_over_legs p' (S (S i)))
      with (time_over_legs p' (S i)
            + default 0 (get_leg_time p' (Z.of_nat (S i)))).
    rewrite (IH before Hbefore) by lia. unfold get_leg_time.
    rewrite (generated_leg (S i) c Hc Hi). cbn. rewrite Hbefore. cbn. lia.
Qed.

End StandardSplits.

(** X9: on a course with controls, [_generate_standard_splits] numbers
    the correct splits in card order as the legs 0, 1, ... until the
    course is used up; [last_correct_index] is the number of these legs
    less one; leg [i] is looked up as the [i]-th correct split, its leg
    time runs from the correct split before (from the start for leg 0),
    and its relative time is the sum of the leg times up to it; no leg is
    found beyond.  The splits that are not correct must carry no course
    index, as they come from the card. *)
Theorem generate_standard_splits_legs (race : Race.t)
    (get_start_time : Result.t → OTime.t) (new_course : Course.t)
    (p : PersonSplits.t) :
  let controls := Course.controls (splits_course race new_course p) in
  let splits := Result.splits (PersonSplits.result p) in
  let correct := filter (λ s, Split.is_correct s = true) splits in
  let start := get_start_time (PersonSplits.result p) in
  let p' := _generate_standard_splits race get_start_time new_course p in
  let legs := (List.length correct `min` List.length controls)%nat in
  controls ≠ [] →
  unmatched_unindexed splits →
  PersonSplits.last_correct_index p' = Z.of_nat legs - 1
  ∧ (∀ i c, correct !! i = Some c → (i < List.length controls)%nat →
       ∃ leg, get_leg_by_course_index p' (Z.of_nat i) = Some leg
              ∧ Split.code leg = Split.code c
              ∧ Split.time leg = Split.time c
              ∧ Split.leg_time leg
                = Some (Split.time c - leg_start start correct i)
              ∧ Split.relative_time leg = Some (Split.time c - start)
              ∧ Split.leg_place leg = 0
              ∧ get_leg_relative_time p' (Z.of_nat i)
                = Some (time_over_legs p' (S i)))
  ∧ (∀ index, Z.of_nat legs ≤ index →
       get_leg_by_course_index p' index = None).
Proof.
  intros controls splits correct start p' legs Hcontrols Hfresh. subst p'.
  pose proof (generated_last_correct_index race get_start_time new_course p
                Hcontrols Hfresh) as Hlast.
  split; [exact Hlast|]. split.
  - intros i c Hc Hi.
    pose proof (generated_leg race get_start_time new_course p Hcontrols Hfresh
                  i c Hc Hi) as Hleg.
    eexists. split; [exact Hleg|]. repeat split.
    unfold get_leg_relative_time. rewrite Hleg. cbn. f_equal.
    symmetry.
    apply (generated_time_over_legs race get_start_time new_course p
             Hcontrols Hfresh i c Hc Hi).
  - intros index Hindex. unfold get_leg_by_course_index.
    rewrite Hlast. change (Z.of_nat _ - 1) with (Z.of_nat legs - 1).
    destruct (Z.ltb_spec (Z.of_nat legs - 1) index) as [_|?]; [done|lia].
Qed.

Lemma generate_standard_splits_legs_witness :
  let p' :=
    _generate_standard_splits race_31_41 Result.start_time (Course.mk [] 0)
      card_31_77_41 in
  PersonSplits.last_correct_index p' = 1
  ∧ get_leg_relative_time p' 1 = Some (time_over_legs p' 2)
  ∧ get_leg_by_course_index p' 2 = None.
Proof.
  intros p'.
  destruct (generate_standard_splits_legs race_31_41 Result.start_time
              (Course.mk [] 0) card_31_77_41) as (Hlast & Hlegs & Hnone).
  { done. }
  { repeat constructor; cbn; intros; (done || lia). }
  split; [exact Hlast|]. split.
  - destruct (Hlegs 1%nat (Split.punch "41" 220 true false) eq_refl)
      as (leg & _ & _ & _ & _ & _ & _ & Hrel); [cbn; lia|exact Hrel].
  - apply Hnone. cbn. lia.
Defined.

Lemma process_splits_without_controls_spec prev i splits k s :
  splits !! k = Some s →
  ∃ s', _process_splits_without_controls prev i splits !! k = Some s'
        ∧ Split.code s' = Split.code s
        ∧ Split.time s' = Split.time s
        ∧ Split.relative_time s' = Split.relative_time s
        ∧ Split.course_index s' = i + Z.of_nat k
        ∧ sum_leg_times (take (S k) (_process_splits_without_controls prev i splits))
          = Split.time s - prev.
Proof.
  revert prev i k. induction splits as [|s0 splits IH]; intros prev i k Hk.
  { done. }
  destruct k as [|k].
  - injection Hk as ->. eexists. split; [done|]. repeat split; cbn; try lia.
    rewrite take_0. cbn. lia.
  - destruct (IH (Split.time s0) (i + 1) k Hk)
      as (s' & Hs' & Hcode & Htime & Hrel & Hindex & Hsum).
    exists s'. split; [done|]. repeat split; try done; [lia|].
    cbn [_process_splits_without_controls].
    change (take (S (S k)) (?x :: ?l)) with (x :: take (S k) l).
    cbn [sum_leg_times foldr]. fold (sum_leg_times). unfold sum_leg_times in Hsum.
    rewrite Hsum. cbn. lia.
Qed.

(** X10: for a course without controls [_generate_standard_splits] keeps
    the punches and numbers them all 0, 1, ... as legs; the relative time
    of a punch is the time since the start, and it is the sum of the leg
    times up to the punch.  [last_correct_index] is left as it was, so
    with the 0 of a new [PersonSplits] no leg but the first is looked
    up. *)
Theorem generate_standard_splits_all (race : Race.t)
    (get_start_time : Result.t → OTime.t) (new_course : Course.t)
    (p : PersonSplits.t) :
  let splits := Result.splits (PersonSplits.result p) in
  let start := get_start_time (PersonSplits.result p) in
  let p' := _generate_standard_splits race get_start_time new_course p in
  let splits' := Result.splits (PersonSplits.result p') in
  Course.controls (splits_course race new_course p) = [] →
  PersonSplits.last_correct_index p' = PersonSplits.last_correct_index p
  ∧ (∀ k s, splits !! k = Some s →
       ∃ s', splits' !! k = Some s'
             ∧ Split.code s' = Split.code s
             ∧ Split.time s' = Split.time s
             ∧ Split.course_index s' = Z.of_nat k
             ∧ Split.relative_time s' = Some (Split.time s - start)
             ∧ Split.relative_time s'
               = Some (sum_leg_times (take (S k) splits')))
  ∧ (PersonSplits.last_correct_index p = 0 →
     ∀ index, 0 < index → get_leg_by_course_index p' index = None).
Proof.
  intros splits start p' splits' Hnone. subst splits' p'.
  unfold _generate_standard_splits. rewrite Hnone. fold start splits.
  split; [done|]. split.
  - intros k s Hk.
    destruct (process_splits_without_controls_spec start 0
                (map (λ split,
                        set_relative_time (Some (Split.time split - start)) split)
                   splits) k
                (set_relative_time (Some (Split.time s - start)) s))
      as (s' & Hs' & Hcode & Htime & Hrel & Hindex & Hsum).
    { by rewrite list_lookup_fmap, Hk. }
    exists s'. split; [exact Hs'|].
    cbn in Hcode, Htime, Hrel, Hindex.
    split; [done|]. split; [done|]. split; [lia|]. split; [done|].
    cbn [PersonSplits.with_splits PersonSplits.result Result.set_splits
         Result.splits].
    rewrite Hsum, Hrel. done.
  - intros Hlast index Hindex. unfold get_leg_by_course_index. cbn.
    rewrite Hlast. by destruct (Z.ltb_spec 0 index) as [_|?]; [|lia].
Qed.

Lemma generate_standard_splits_all_witness :
  let p' :=
    _generate_standard_splits (Race.mk ∅ [] (λ _, None)) Result.start_time
      (Course.mk [] 0) card_31_77_41 in
  (Split.course_index <$> Result.splits (PersonSplits.result p')) = [0; 1; 2]
  ∧ get_leg_by_course_index p' 1 = None.
Proof.
  intros p'.
  destruct (generate_standard_splits_all (Race.mk ∅ [] (λ _, None))
              Result.start_time (Course.mk [] 0) card_31_77_41 eq_refl)
    as (_ & _ & Hfirst).
  split; [reflexivity|]. apply Hfirst; [reflexivity|lia].
Defined.

(** ** Places of a group *)

Lemma find_update_leg_other index j f splits :
  j ≠ index → (∀ s, Split.course_index (f s) = Split.course_index s) →
  List.find (λ split, Split.course_index split =? j) (update_leg index f splits)
  = List.find (λ split, Split.course_index split =? j) splits.
Proof.
  intros Hne Hf. induction splits as [|s splits IH]; [done|].
  cbn [update_leg]. destruct (Z.eqb_spec (Split.course_index s) index) as [Hs|Hs].
  - cbn [List.find]. rewrite Hf.
    by destruct (Z.eqb_spec (Split.course_index s) j) as [?|_]; [congruence|].
  - cbn [List.find]. by rewrite IH.
Qed.

Lemma get_leg_updated_other index j f p :
  j ≠ index → (∀ s, Split.course_index (f s) = Split.course_index s) →
  get_leg_by_course_index
    (PersonSplits.with_splits
       (update_leg index f (Result.splits (PersonSplits.result p))) p) j
  = get_leg_by_course_index p j.
Proof.
  intros Hne Hf. unfold get_leg_by_course_index. cbn.
  destruct (PersonSplits.last_correct_index p <? j); [done|].
  by apply find_update_leg_other.
Qed.

Lemma same_but_place_refl relative index p : same_but_place relative index p p.
Proof.
  split; [done|]. intros j.
  destruct (get_leg_by_course_index p j); by constructor.
Qed.

Lemma same_but_place_written relative index leader place p :
  same_but_place relative index p
    (PersonSplits.with_splits
       (update_leg index (written relative leader place)
          (Result.splits (PersonSplits.result p))) p).
Proof.
  split; [done|]. intros j.
  destruct (decide (j = index)) as [->|Hne].
  - rewrite get_leg_updated by apply written_course_index.
    destruct (get_leg_by_course_index p index) as [leg|]; constructor.
    unfold written, set_place_attr, place_attr.
    destruct relative; repeat split; try done; intros [] Hr; done.
  - rewrite get_leg_updated_other by (done || apply written_course_index).
    destruct (get_leg_by_course_index p j); by constructor.
Qed.

Lemma places_loop_frame index relative leader i counter prev l :
  Forall2 (same_but_place relative index) l
    (places_loop index relative leader i counter prev l).
Proof.
  revert i counter prev. induction l as [|p l IH]; intros i counter prev.
  { constructor. }
  cbn [places_loop]. destruct (get_leg_by_course_index p index).
  - constructor; [apply same_but_place_written|apply IH].
  - constructor; [apply same_but_place_refl|apply IH].
Qed.

Lemma set_places_for_leg_frame index relative l :
  Forall2 (same_but_place relative index) l (_set_places_for_leg index relative l).
Proof.
  unfold _set_places_for_leg. destruct l as [|first rest] eqn:Hl; [constructor|].
  apply places_loop_frame.
Qed.

Lemma same_but_place_summary relative index r j p p' :
  same_but_place relative index p p' → leg_summary r j p' = leg_summary r j p.
Proof.
  intros [Hperson Hlegs]. unfold leg_summary. rewrite Hperson. f_equal.
  unfold leg_time_of, get_leg_relative_time, get_leg_time.
  destruct (Hlegs j) as [leg leg' (Htime & Hrel & _)|]; [|by destruct r].
  destruct r; congruence.
Qed.

Lemma frame_summaries relative index r j l l' :
  Forall2 (same_but_place relative index) l l' →
  leg_summary r j <$> l' = leg_summary r j <$> l.
Proof.
  induction 1 as [|p p' l l' Hp _ IH]; [done|].
  cbn. by rewrite IH, (same_but_place_summary _ _ _ _ _ _ Hp).
Qed.

Lemma frame_same_times relative index r j l l' :
  Forall2 (same_but_place relative index) l l' →
  Forall2 (λ p p', leg_time_of r j p' = leg_time_of r j p) l l'.
Proof.
  intros H. eapply list.Forall2_impl; [exact H|]. intros p p' Hp.
  by injection (same_but_place_summary _ _ r j _ _ Hp).
Qed.

Lemma placed_frame relative index r j l l' :
  (r, j) ≠ (relative, index) →
  Forall2 (same_but_place relative index) l l' →
  Forall (placed r j l) l → Forall (placed r j l') l'.
Proof.
  intros Hne Hframe Hplaced.
  pose proof (frame_same_times _ _ r j _ _ Hframe) as Htimes.
  eapply Forall2_Forall_r; [exact Hframe|].
  eapply list.Forall_impl; [exact Hplaced|].
  intros p Hp p' Hpp' t Ht.
  injection (same_but_place_summary _ _ r j _ _ Hpp') as _ Htime.
  rewrite Htime in Ht. destruct (Hp t Ht) as (leg & Hleg & Hplace).
  destruct Hpp' as [_ Hlegs]. specialize (Hlegs j). rewrite Hleg in Hlegs.
  inversion Hlegs as [? leg' (_ & _ & Hsame) Heq1 Heq2|]; subst.
  exists leg'. split; [done|]. rewrite (Hsame r Hne), Hplace.
  by rewrite (faster_same_times j r t l l' Htimes).
Qed.

Lemma placed_perm r j l l' :
  l' ≡ₚ l → Forall (placed r j l) l → Forall (placed r j l') l'.
Proof.
  intros Hperm Hplaced. rewrite list.Forall_forall in Hplaced.
  apply list.Forall_forall. intros p Hin t Ht. rewrite Hperm in Hin.
  destruct (Hplaced p Hin t Ht) as (leg & Hleg & Hplace).
  exists leg. split; [done|]. by rewrite (faster_perm j r t l' l Hperm).
Qed.

Lemma set_places_for_leg_placed r j l :
  StronglySorted (in_order leg_key_lt (leg_key j r)) l →
  Forall (placed r j (_set_places_for_leg j r l)) (_set_places_for_leg j r l).
Proof.
  intros Hsorted.
  pose proof (set_places_for_leg_ranks j r l Hsorted) as Hranked.
  assert (Forall2 (λ p p', leg_time_of r j p' = leg_time_of r j p) l
            (_set_places_for_leg j r l)) as Htimes.
  { eapply list.Forall2_impl; [exact Hranked|]. by intros p p' [Htime _]. }
  eapply Forall2_Forall_r; [exact Hranked|].
  apply list.Forall_forall. intros p _ p' [Htime Hplace] t Ht.
  rewrite Htime in Ht. destruct (Hplace t Ht) as (leg & Hleg & Hrank).
  exists leg. split; [done|].
  by rewrite <- (faster_same_times j r t l _ Htimes).
Qed.

Lemma sort_by_leg_sorted j r l :
  StronglySorted (in_order leg_key_lt (leg_key j r)) (_sort_by_leg j r l).
Proof. apply sort_by_sorted; [apply leg_key_lt_asym|apply leg_key_lt_neg_trans]. Qed.

Lemma sort_by_leg_perm j r l : _sort_by_leg j r l ≡ₚ l.
Proof. apply sort_by_perm. Qed.

Lemma summaries_elem r j l l' p' :
  leg_summary r j <$> l' ≡ₚ leg_summary r j <$> l → p' ∈ l' →
  ∃ p, p ∈ l ∧ leg_summary r j p = leg_summary r j p'.
Proof.
  intros Hperm Hin.
  assert (leg_summary r j p' ∈ leg_summary r j <$> l) as Hs.
  { rewrite <- Hperm. by apply list_elem_of_fmap_2. }
  apply list_elem_of_fmap in Hs as (p & Heq & Hp). eauto.
Qed.

Lemma has_person_summaries r j l l' :
  leg_summary r j <$> l' ≡ₚ leg_summary r j <$> l →
  Forall has_person l → Forall has_person l'.
Proof.
  intros Hperm Hall. rewrite list.Forall_forall in Hall.
  apply list.Forall_forall. intros p' Hin.
  destruct (summaries_elem _ _ _ _ _ Hperm Hin) as (p & Hp & Heq).
  injection Heq as Hperson _. unfold has_person. rewrite <- Hperson.
  by apply Hall.
Qed.

Lemma leader_of_summaries j l l' entry :
  leg_summary false j <$> l' ≡ₚ leg_summary false j <$> l →
  leader_of j l entry → leader_of j l' entry.
Proof.
  intros Hperm [(person & Hin & Hname) Hmin]. split.
  - exists person. split; [|done]. by rewrite Hperm.
  - intros p' t Hp' Ht.
    destruct (summaries_elem _ _ _ _ _ Hperm Hp') as (p & Hp & Heq).
    injection Heq as _ Htime. apply (Hmin p t Hp). congruence.
Qed.

(** The head of a list sorted by leg time has the least time. *)
Lemma sorted_leader j l first rest :
  StronglySorted (in_order leg_key_lt (leg_key j false)) l →
  l = first :: rest →
  ∀ p t, p ∈ l → get_leg_time p j = Some t →
    ∃ leader_time, get_leg_time first j = Some leader_time ∧ leader_time ≤ t.
Proof.
  intros Hsorted -> p t Hin Ht.
  apply StronglySorted_cons in Hsorted as [Hfirst _].
  apply elem_of_cons in Hin as [->|Hin].
  - exists t. split; [done|lia].
  - rewrite list.Forall_forall in Hfirst.
    apply (ordered_before j false first p t (Hfirst p Hin) Ht).
Qed.

Lemma set_leg_leader_spec index cp l1 l2 lead :
  StronglySorted (in_order leg_key_lt (leg_key index false)) l1 →
  Forall2 (same_but_place false index) l1 l2 →
  Forall has_person l2 →
  ∃ lead',
    _set_leg_leader index (GroupSplits.mk cp l2 lead)
    = Value (GroupSplits.mk cp l2 lead')
    ∧ (∀ key, key ≠ pretty index → lead' !! key = lead !! key)
    ∧ (l2 ≠ [] →
       ∃ entry, lead' !! pretty index = Some entry ∧ leader_of index l2 entry).
Proof.
  intros Hsorted Hframe Hpersons. unfold _set_leg_leader.
  cbn [GroupSplits.person_splits GroupSplits.cp_count GroupSplits.leader].
  destruct Hframe as [|first first' rest rest' Hfirst Hrest].
  { exists lead. split; [done|]. split; [done|]. by intros []. }
  apply list.Forall_cons in Hpersons as [[person Hperson] _].
  rewrite Hperson. cbn.
  eexists. split; [done|]. split.
  { intros key Hkey. by rewrite lookup_insert_ne. }
  intros _. eexists. split; [by rewrite lookup_insert_eq|].
  assert (leg_summary false index <$> first' :: rest'
          = leg_summary false index <$> first :: rest) as Hsame.
  { apply (frame_summaries false index). by constructor. }
  split.
  - exists person. split; [|done]. cbn [snd fmap list_fmap].
    assert ((Some person, get_leg_time first' index)
            = leg_summary false index first') as ->.
    { unfold leg_summary. by rewrite Hperson. }
    apply list_elem_of_here.
  - intros p' t Hin Ht. cbn [snd].
    destruct (summaries_elem false index (first :: rest) (first' :: rest') p')
      as (p & Hp & Heq); [by rewrite Hsame|done|].
    injection Heq as _ Htime.
    injection (same_but_place_summary _ _ false index _ _ Hfirst) as _ Hleader.
    rewrite Hleader.
    apply (sorted_leader index _ first rest Hsorted eq_refl p t Hp).
    congruence.
Qed.

Lemma set_places_of_leg_spec g n :
  let index := Z.of_nat n in
  let l := GroupSplits.person_splits g in
  Forall has_person l →
  ∃ g',
    set_places_of_leg g n = Value g'
    ∧ GroupSplits.cp_count g' = GroupSplits.cp_count g
    ∧ (∀ r j, leg_summary r j <$> GroupSplits.person_splits g'
              ≡ₚ leg_summary r j <$> l)
    ∧ (∀ r, Forall (placed r index (GroupSplits.person_splits g'))
              (GroupSplits.person_splits g'))
    ∧ (∀ r j, j ≠ index → Forall (placed r j l) l →
         Forall (placed r j (GroupSplits.person_splits g'))
           (GroupSplits.person_splits g'))
    ∧ (∀ key, key ≠ pretty index →
         GroupSplits.leader g' !! key = GroupSplits.leader g !! key)
    ∧ (l ≠ [] →
       ∃ entry, GroupSplits.leader g' !! pretty index = Some entry
                ∧ leader_of index (GroupSplits.person_splits g') entry).
Proof.
  intros index l Hpersons. unfold set_places_of_leg. fold index.
  cbn [GroupSplits.with_person_splits GroupSplits.person_splits
       GroupSplits.cp_count GroupSplits.leader]. fold l.
  set (l1 := _sort_by_leg index false l).
  set (l2 := _set_places_for_leg index false l1).
  pose proof (sort_by_leg_perm index false l) as Hperm1. fold l1 in Hperm1.
  pose proof (sort_by_leg_sorted index false l) as Hsorted1. fold l1 in Hsorted1.
  pose proof (set_places_for_leg_frame index false l1) as Hframe2.
  fold l2 in Hframe2.
  assert (∀ r j, leg_summary r j <$> l2 ≡ₚ leg_summary r j <$> l) as Hsum2.
  { intros r j. rewrite (frame_summaries false index r j l1 l2 Hframe2).
    by rewrite Hperm1. }
  assert (Forall has_person l2) as Hpersons2.
  { by apply (has_person_summaries false index l l2 (Hsum2 _ _)). }
  change (GroupSplits.with_person_splits l2
            (GroupSplits.with_person_splits l1 g))
    with (GroupSplits.mk (GroupSplits.cp_count g) l2 (GroupSplits.leader g)).
  destruct (set_leg_leader_spec index (GroupSplits.cp_count g) l1 l2
              (GroupSplits.leader g) Hsorted1 Hframe2 Hpersons2)
    as (lead' & -> & Hkeys & Hentry).
  cbn [mbind fallible_bind GroupSplits.with_person_splits
       GroupSplits.person_splits GroupSplits.cp_count GroupSplits.leader].
  set (l3 := _sort_by_leg index true l2).
  set (l4 := _set_places_for_leg index true l3).
  pose proof (sort_by_leg_perm index true l2) as Hperm3. fold l3 in Hperm3.
  pose proof (sort_by_leg_sorted index true l2) as Hsorted3. fold l3 in Hsorted3.
  pose proof (set_places_for_leg_frame index true l3) as Hframe4.
  fold l4 in Hframe4.
  assert (∀ r j, leg_summary r j <$> l4 ≡ₚ leg_summary r j <$> l2) as Hsum4.
  { intros r j. rewrite (frame_summaries true index r j l3 l4 Hframe4).
    by rewrite Hperm3. }
  eexists. split; [done|].
  cbn [GroupSplits.person_splits GroupSplits.cp_count GroupSplits.leader].
  split; [done|]. split; [|split; [|split; [|split]]].
  - intros r j. by rewrite Hsum4, Hsum2.
  - intros [].
    + apply (set_places_for_leg_placed true index l3 Hsorted3).
    + apply (placed_frame true index false index l3 l4); [congruence|done|].
      apply (placed_perm false index l2 l3 Hperm3).
      apply (set_places_for_leg_placed false index l1 Hsorted1).
  - intros r j Hj Hplaced.
    apply (placed_frame true index r j l3 l4); [congruence|done|].
    apply (placed_perm r j l2 l3 Hperm3).
    apply (placed_frame false index r j l1 l2); [congruence|done|].
    by apply (placed_perm r j l l1 Hperm1).
  - exact Hkeys.
  - intros Hl. destruct Hentry as (entry & Hlookup & Hleader).
    { intros Hl2. apply Hl. specialize (Hsum2 false 0).
      rewrite Hl2 in Hsum2. apply Permutation_nil_l in Hsum2.
      by destruct l. }
    exists entry. split; [done|].
    by apply (leader_of_summaries index l2 l4 entry (Hsum4 _ _)).
Qed.

Lemma set_places_fold ns g :
  let l := GroupSplits.person_splits g in
  NoDup ns → Forall has_person l →
  ∃ g',
    fold_fallible set_places_of_leg ns g = Value g'
    ∧ GroupSplits.cp_count g' = GroupSplits.cp_count g
    ∧ (∀ r j, leg_summary r j <$> GroupSplits.person_splits g'
              ≡ₚ leg_summary r j <$> l)
    ∧ (∀ n, n ∈ ns →
         (∀ r, Forall (placed r (Z.of_nat n) (GroupSplits.person_splits g'))
                 (GroupSplits.person_splits g'))
         ∧ (l ≠ [] →
            ∃ entry,
              GroupSplits.leader g' !! pretty (Z.of_nat n) = Some entry
              ∧ leader_of (Z.of_nat n) (GroupSplits.person_splits g') entry))
    ∧ (∀ r j, (∀ n, n ∈ ns → j ≠ Z.of_nat n) → Forall (placed r j l) l →
         Forall (placed r j (GroupSplits.person_splits g'))
           (GroupSplits.person_splits g'))
    ∧ (∀ key, (∀ n, n ∈ ns → key ≠ pretty (Z.of_nat n)) →
         GroupSplits.leader g' !! key = GroupSplits.leader g !! key).
Proof.
  intros l Hnodup. subst l. revert g.
  induction Hnodup as [|n ns Hn Hnodup IH]; intros g Hpersons.
  { exists g. cbn. split; [done|]. split; [done|]. split; [done|].
    split; [|done]. intros n Hn. by apply elem_of_nil in Hn. }
  destruct (set_places_of_leg_spec g n Hpersons)
    as (g1 & Hstep & Hcp1 & Hsum1 & Hplaced1 & Hkept1 & Hkeys1 & Hentry1).
  assert (Forall has_person (GroupSplits.person_splits g1)) as Hpersons1.
  { by apply (has_person_summaries false 0 (GroupSplits.person_splits g) _
                (Hsum1 _ _)). }
  destruct (IH g1 Hpersons1)
    as (g' & Hrun & Hcp & Hsum & Hlegs & Hkept & Hkeys).
  exists g'. cbn [fold_fallible]. rewrite Hstep. cbn [mbind fallible_bind].
  split; [done|]. split; [congruence|]. split; [|split; [|split]].
  - intros r j. by rewrite Hsum, Hsum1.
  - intros m Hm. apply elem_of_cons in Hm as [->|Hm].
    + assert (∀ k, k ∈ ns → Z.of_nat n ≠ Z.of_nat k) as Hfresh.
      { intros k Hk Heq. apply Nat2Z.inj in Heq. by subst. }
      split.
      * intros r. apply Hkept; [done|]. apply Hplaced1.
      * intros Hl. destruct (Hentry1 Hl) as (entry & Hlookup & Hleader).
        exists entry. split.
        -- rewrite Hkeys; [done|]. intros k Hk Heq.
           apply (inj pretty) in Heq. by apply (Hfresh k Hk).
        -- by apply (leader_of_summaries _ _ _ _ (Hsum _ _)).
    + destruct (Hlegs m Hm) as [Hplaced Hentry]. split; [done|].
      intros Hl. apply Hentry. intros Hnil. apply Hl.
      specialize (Hsum1 false 0). rewrite Hnil in Hsum1.
      apply Permutation_nil_l in Hsum1.
      by destruct (GroupSplits.person_splits g).
  - intros r j Hj Hplaced. apply Hkept.
    + intros k Hk. apply Hj. by apply list_elem_of_further.
    + apply Hkept1; [|done]. apply Hj. apply list_elem_of_here.
  - intros key Hkey. rewrite Hkeys, Hkeys1; [done| |].
    + apply Hkey. apply list_elem_of_here.
    + intros k Hk. apply Hkey. by apply list_elem_of_further.
Qed.

(** X11: [_set_places] fails only with AttributeError, and only when a
    result has no person; otherwise it returns, every person keeps the
    times on every leg, and for all legs of the course at once, by leg
    time and by relative time, a person with a time stands one place
    behind the number of persons who were faster; the leader recorded
    under [str(index)] is a person of the group with the least leg time
    on that leg. *)
Theorem set_places_ranks (g : GroupSplits.t) :
  let l := GroupSplits.person_splits g in
  (∀ e, _set_places g = Error e → e = AttributeError ∧ ¬ Forall has_person l)
  ∧ (Forall has_person l →
     ∃ g',
       _set_places g = Value g'
       ∧ GroupSplits.cp_count g' = GroupSplits.cp_count g
       ∧ (∀ r j, leg_summary r j <$> GroupSplits.person_splits g'
                 ≡ₚ leg_summary r j <$> l)
       ∧ ∀ n, (n < GroupSplits.cp_count g)%nat →
           (∀ r, Forall (placed r (Z.of_nat n) (GroupSplits.person_splits g'))
                   (GroupSplits.person_splits g'))
           ∧ (l ≠ [] →
              ∃ entry,
                GroupSplits.leader g' !! pretty (Z.of_nat n) = Some entry
                ∧ leader_of (Z.of_nat n) (GroupSplits.person_splits g') entry)).
Proof.
  intros l.
  assert (Forall has_person l →
          ∃ g',
            _set_places g = Value g'
            ∧ GroupSplits.cp_count g' = GroupSplits.cp_count g
            ∧ (∀ r j, leg_summary r j <$> GroupSplits.person_splits g'
                      ≡ₚ leg_summary r j <$> l)
            ∧ ∀ n, (n < GroupSplits.cp_count g)%nat →
                (∀ r, Forall (placed r (Z.of_nat n) (GroupSplits.person_splits g'))
                        (GroupSplits.person_splits g'))
                ∧ (l ≠ [] →
                   ∃ entry,
                     GroupSplits.leader g' !! pretty (Z.of_nat n) = Some entry
                     ∧ leader_of (Z.of_nat n) (GroupSplits.person_splits g')
                         entry)) as Hruns.
  { intros Hpersons.
    destruct (set_places_fold (seq 0 (GroupSplits.cp_count g)) g
                (NoDup_seq _ _) Hpersons)
      as (g' & Hrun & Hcp & Hsum & Hlegs & _).
    exists g'. split; [done|]. split; [done|]. split; [done|].
    intros n Hn. apply Hlegs. apply elem_of_seq. lia. }
  split; [|exact Hruns].
  intros e Herr. split.
  - assert (raises_only (λ e, e = AttributeError) (_set_places g)) as Hraises.
    { unfold _set_places. apply raises_only_fold. intros g0 n.
      unfold set_places_of_leg, _set_leg_leader.
      cbn [GroupSplits.with_person_splits GroupSplits.person_splits].
      solve_raises; done. }
    by rewrite Herr in Hraises.
  - intros Hpersons. destruct (Hruns Hpersons) as (g' & Hrun & _). congruence.
Qed.

Lemma set_places_ranks_witness :
  let g :=
    GroupSplits.mk 1 [runner_with_leg 50; runner_with_leg 40; runner_with_leg 40]
      ∅ in
  ∃ g', _set_places g = Value g'
        ∧ ∃ entry, GroupSplits.leader g' !! "0" = Some entry
                   ∧ leader_of 0 (GroupSplits.person_splits g') entry.
Proof.
  intros g.
  destruct (proj2 (set_places_ranks g)) as (g' & Hrun & _ & _ & Hlegs).
  { repeat constructor; by eexists. }
  exists g'. split; [exact Hrun|].
  destruct (Hlegs 0%nat) as [_ Hentry]; [cbn; lia|].
  by apply Hentry.
Defined.

(** ** Penalty laps after the penalty calculation *)

Lemma detach_penalty_laps2_numeric splits lap_station regular penalty :
  detach_penalty_laps2 splits lap_station = Value (regular, penalty) →
  Forall (λ p, is_Some (Py.int (Split.code p))) splits.
Proof.
  unfold detach_penalty_laps2. destruct splits as [|p0 rest] eqn:Heq.
  { constructor. }
  rewrite <- Heq. clear Heq. intros Hd.
  apply fallible_bind_Value_inv in Hd as (reg & _ & Hd).
  apply fallible_bind_Value_inv in Hd as (pen & H2 & _).
  apply filter_fallible_Value_inv in H2.
  eapply list.Forall_impl; [exact H2|]. intros p [b Hb]. cbn in Hb.
  unfold int_code in Hb. destruct (Py.int (Split.code p)); [eauto|done].
Qed.

Lemma detach_penalty_laps2_filters splits lap_station :
  Forall (λ p, is_Some (Py.int (Split.code p))) splits →
  let lap p := default false (is_penalty_lap lap_station p) in
  detach_penalty_laps2 splits lap_station
  = Value (List.filter (λ p, negb (lap p)) splits, List.filter lap splits).
Proof.
  intros Hcodes lap. unfold detach_penalty_laps2.
  destruct splits as [|p0 rest] eqn:Heq; [done|].
  rewrite <- Heq in *. clear Heq.
  assert (filter_fallible (λ punch,
              if Split.is_correct punch then Value true
              else code ← int_code (Split.code punch);
                   Value (negb (Setting.eq_int code lap_station))) splits
          = Value (List.filter (λ p, negb (lap p)) splits)) as ->.
  { apply filter_fallible_Value.
    eapply list.Forall_impl; [exact Hcodes|]. intros p [n Hn]. cbn.
    unfold lap, is_penalty_lap, int_code. rewrite Hn. cbn.
    destruct (Split.is_correct p); [|by rewrite andb_true_r].
    by rewrite andb_false_r. }
  assert (filter_fallible (λ punch,
              code ← int_code (Split.code punch);
              Value (Setting.eq_int code lap_station
                     && negb (Split.is_correct punch))) splits
          = Value (List.filter lap splits)) as ->; [|done].
  apply filter_fallible_Value.
  eapply list.Forall_impl; [exact Hcodes|]. intros p [n Hn]. cbn.
  unfold lap, is_penalty_lap, int_code. by rewrite Hn.
Qed.

Lemma filter_filter_same {A} (f : A → bool) l :
  List.filter f (List.filter f l) = List.filter f l.
Proof.
  induction l as [|a l IH]; [done|]. cbn.
  destruct (f a) eqn:Ha; cbn; [|done]. by rewrite Ha, IH.
Qed.

Lemma filter_filter_none {A} (f : A → bool) l :
  List.filter f (List.filter (λ a, negb (f a)) l) = [].
Proof.
  induction l as [|a l IH]; [done|]. cbn.
  destruct (f a) eqn:Ha; cbn; [done|]. by rewrite Ha.
Qed.

(** Once the penalty laps are detached, none is found among the rest. *)
Lemma detach_penalty_laps2_again splits lap_station regular penalty :
  detach_penalty_laps2 splits lap_station = Value (regular, penalty) →
  detach_penalty_laps2 regular lap_station = Value (regular, []).
Proof.
  intros Hd.
  pose proof (detach_penalty_laps2_numeric _ _ _ _ Hd) as Hcodes.
  rewrite (detach_penalty_laps2_filters _ _ Hcodes) in Hd.
  injection Hd as <- _.
  rewrite detach_penalty_laps2_filters.
  - by rewrite (filter_filter_same (λ p, negb _)), filter_filter_none.
  - rewrite list.Forall_forall in Hcodes. apply list.Forall_forall.
    intros p Hp. apply Hcodes. apply list_elem_of_In, List.filter_In in Hp.
    apply list_elem_of_In. tauto.
Qed.

Lemma standard_penalty_mode race mem group course mode :
  _calculate_standard_penalty race mem group course mode
  = _calculate_standard_penalty race mem (Group.mk "" 0 false false) course
      (penalty_mode group mode).
Proof.
  unfold _calculate_standard_penalty, penalty_mode.
  change (Py.has_substring "_min" (Py.lower (Group.name (Group.mk "" 0 false false))))
    with false.
  change (Py.has_substring "_lap" (Py.lower (Group.name (Group.mk "" 0 false false))))
    with false.
  cbv iota.
  by destruct (Py.has_substring "_min" _), (Py.has_substring "_lap" _).
Qed.

Lemma standard_penalty_laps_outcome race mem group course mode result :
  Setting.is_str (penalty_mode group mode) "laps" = true →
  Setting.truthy (Race.get_setting race "marked_route_if_station_check" VNone)
  = true →
  _calculate_standard_penalty race mem group course mode result
  = match detach_penalty_laps2 (Result.splits result)
            (Race.get_setting race "marked_route_penalty_lap_station_code" VNone)
    with
    | Value (regular, _) =>
        Return tt
          (Result.set_penalty_laps (counted_penalty race mem regular course)
             (Result.set_penalty_time OTime.zero
                (Result.set_penalty_laps 0 (Result.set_splits regular result))))
    | Error e => Raise e result
    end.
Proof.
  intros Hlaps Hcheck. rewrite standard_penalty_mode.
  unfold _calculate_standard_penalty.
  change (Py.has_substring "_min" (Py.lower (Group.name (Group.mk "" 0 false false))))
    with false.
  change (Py.has_substring "_lap" (Py.lower (Group.name (Group.mk "" 0 false false))))
    with false.
  cbv iota. rewrite Hlaps, Hcheck. cbn [andb].
  unfold mbind, action_bind, get, lift, modify.
  destruct (detach_penalty_laps2 _ _) as [[regular penalty]|e]; [|done].
  cbn [fst]. done.
Qed.

(** X12: where [_calculate_standard_penalty] works in the mode "laps"
    with the check of the lap station, it fails with ValueError on a punch
    code that is no number and then leaves the result alone; otherwise it
    returns, takes the penalty laps out of the punches of the result,
    counts the penalty on what is left as penalty laps and sets no penalty
    time.  No penalty lap is then found on the result: [check_penalty_laps]
    holds afterwards only if no penalty lap is due. *)
Theorem standard_penalty_detaches_laps (race : Race.t) (mem : Memory.t)
    (group : Group.t) (course : Course.t) (mode : setting) (result : Result.t) :
  let lap_station :=
    Race.get_setting race "marked_route_penalty_lap_station_code" VNone in
  let run := _calculate_standard_penalty race mem group course mode result in
  let numeric := Forall (λ p, is_Some (Py.int (Split.code p))) in
  Setting.is_str (penalty_mode group mode) "laps" = true →
  Setting.truthy (Race.get_setting race "marked_route_if_station_check" VNone)
  = true →
  (∀ e r', run = Raise e r' →
     e = ValueError ∧ r' = result ∧ ¬ numeric (Result.splits result))
  ∧ (numeric (Result.splits result) →
     ∃ r', run = Return tt r'
       ∧ Result.splits r'
         = List.filter
             (λ p, negb (default false (is_penalty_lap lap_station p)))
             (Result.splits result)
       ∧ Result.penalty_laps r'
         = counted_penalty race mem (Result.splits r') course
       ∧ Result.penalty_time r' = 0
       ∧ detach_penalty_laps2 (Result.splits r') lap_station
         = Value (Result.splits r', [])
       ∧ (Setting.is_str
            (Race.get_setting race "marked_route_mode" (VStr "off")) "laps"
          = true →
          check_penalty_laps race r'
          = Value (Result.penalty_laps r' <=? 0))).
Proof.
  intros lap_station run numeric Hlaps Hcheck. subst run numeric.
  rewrite (standard_penalty_laps_outcome _ _ _ _ _ _ Hlaps Hcheck).
  fold lap_station. split.
  - intros e r' Hraise.
    pose proof (detach_penalty_laps2_value_error (Result.splits result)
                  lap_station) as Herr.
    destruct (detach_penalty_laps2 (Result.splits result) lap_station)
      as [[regular penalty]|e'] eqn:Hd; [done|].
    injection Hraise as -> ->. cbn in Herr. split; [done|]. split; [done|].
    intros Hcodes.
    rewrite (detach_penalty_laps2_filters _ _ Hcodes) in Hd. done.
  - intros Hcodes.
    pose proof (detach_penalty_laps2_filters _ lap_station Hcodes) as Hd.
    cbn zeta in Hd.
    pose proof (detach_penalty_laps2_again _ _ _ _ Hd) as Hagain.
    rewrite Hd. eexists. split; [done|].
    cbn [Result.splits Result.penalty_laps Result.penalty_time
         Result.set_penalty_laps Result.set_penalty_time Result.set_splits].
    split; [done|]. split; [done|]. split; [done|]. split; [exact Hagain|].
    intros Hmode. unfold check_penalty_laps. rewrite Hmode, Hcheck.
    cbn [andb Result.splits Result.penalty_laps Result.set_penalty_laps
         Result.set_penalty_time Result.set_splits].
    fold lap_station. rewrite Hagain. cbn.
    set (laps := counted_penalty _ _ _ _).
    clearbody laps. change (Z.of_nat 0) with 0.
    destruct (Z.ltb_spec 0 laps), (Z.leb_spec laps 0); (done || lia).
Qed.

Lemma standard_penalty_detaches_laps_witness :
  let result :=
    fresh_result (Some (runner None))
      [Split.punch "31" 100 true false; Split.punch "77" 150 false false;
       Split.punch "99" 180 false false; Split.punch "41" 220 true false]
      10 230 OK in
  ∃ r', _calculate_standard_penalty lap_station_race sample_memory
          (group_with_limit 0) (Course.mk [control "31"; control "41"] 0)
          (VStr "laps") result = Return tt r'
        ∧ Result.penalty_laps r' = 1
        ∧ check_penalty_laps lap_station_race r' = Value false.
Proof.
  intros result.
  destruct (standard_penalty_detaches_laps lap_station_race sample_memory
              (group_with_limit 0) (Course.mk [control "31"; control "41"] 0)
              (VStr "laps") result eq_refl eq_refl) as [_ Hruns].
  destruct Hruns as (r' & Hrun & Hsplits & Hlaps & _ & _ & Hcheck).
  { repeat constructor; by eexists. }
  exists r'. split; [exact Hrun|].
  assert (Result.penalty_laps r' = 1) as Hone.
  { rewrite Hlaps, Hsplits. reflexivity. }
  split; [exact Hone|]. rewrite (Hcheck eq_refl), Hone. reflexivity.
Defined.

(** ** Trail orienteering *)

Lemma rogaine_penalty_range mem result score penalty_step step penalty :
  Setting.number penalty_step = Some step → 0 ≤ step →
  calculate_rogaine_penalty mem result score penalty_step = Value penalty →
  penalty ≤ score ∧ (0 ≤ score → 0 ≤ penalty).
Proof.
  intros Hstep Hpos. unfold calculate_rogaine_penalty.
  destruct (Result.group result) as [g|].
  2:{ cbn. intros [= <-]. lia. }
  destruct (_ && _) eqn:Hc.
  2:{ cbn. intros [= <-]. lia. }
  rewrite Hstep. cbn. intros [= <-]. split; [lia|]. intros Hscore.
  apply andb_true_iff in Hc as [H0%Z.ltb_lt Hmax%Z.ltb_lt].
  unfold OTime.to_sec, OTime.zero in *.
  set (elapsed := Memory.get_result_otime mem result) in *.
  assert (0 ≤ ((elapsed - Group.max_time g) / 1000 + 59) / 60).
  { apply Z.div_pos; [|lia].
    assert (0 ≤ (elapsed - Group.max_time g) / 1000)
      by (apply Z.div_pos; lia). lia. }
  apply Z.min_glb; [|done]. by apply Z.mul_nonneg_nonneg.
Qed.

Lemma rogaine_penalty_total mem result score penalty_step :
  is_Some (Setting.number penalty_step) →
  ∃ penalty, calculate_rogaine_penalty mem result score penalty_step
             = Value penalty.
Proof.
  intros [step Hstep]. unfold calculate_rogaine_penalty. rewrite Hstep.
  destruct (Result.group result); [|cbn; eauto].
  destruct (_ && _); cbn; eauto.
Qed.

Lemma fold_fallible_range {A} (f : Z → A → fallible Z) (d : Z) l b v :
  0 ≤ d → (∀ b a b', f b a = Value b' → b ≤ b' ≤ b + d) →
  fold_fallible f l b = Value v → b ≤ v ≤ b + d * Z.of_nat (List.length l).
Proof.
  intros Hd Hf. revert b. induction l as [|a l IH]; intros b; cbn [fold_fallible].
  { intros [= <-]. cbn. lia. }
  intros (b' & Hstep & Hrest)%fallible_bind_Value_inv.
  specialize (Hf b a b' Hstep). specialize (IH b' Hrest).
  cbn [List.length]. nia.
Qed.

Lemma find_fallible_total {A} (test : A → fallible bool) l :
  Forall (λ a, ∃ b, test a = Value b) l →
  ∃ found, find_fallible test l = Value found.
Proof.
  induction 1 as [|a l [b Hb] _ [found IH]]; cbn; [eauto|].
  rewrite Hb. cbn. destruct b; eauto.
Qed.

Lemma fold_fallible_total {A B} (f : B → A → fallible B) l b :
  Forall (λ a, ∀ b, ∃ b', f b a = Value b') l →
  ∃ v, fold_fallible f l b = Value v.
Proof.
  intros Hall. revert b. induction Hall as [|a l Ha _ IH]; intros b; cbn; [eauto|].
  destruct (Ha b) as [b' ->]. cbn. apply IH.
Qed.

Section Trailo.

Variable race : Race.t.
Variable mem : Memory.t.
Variable result : Result.t.

Let controls := course_controls race result.

Lemma calculate_scores_trailo_range scores :
  calculate_scores_trailo race result = Value scores →
  0 ≤ scores ≤ Z.of_nat (List.length controls).
Proof.
  subst controls. unfold calculate_scores_trailo, course_controls.
  destruct (Race.find_course race result) as [course|].
  2:{ intros [= <-]. cbn. lia. }
  intros Hfold. apply (fold_fallible_range _ 1) in Hfold; [lia|lia|].
  intros b a b' Hstep.
  apply fallible_bind_Value_inv in Hstep as (code & _ & Hstep).
  destruct (100 <=? code).
  { injection Hstep as <-. lia. }
  apply fallible_bind_Value_inv in Hstep as (found & _ & Hstep).
  injection Hstep as <-. destruct found; lia.
Qed.

Hypothesis Hpunches :
  Forall (λ s, trailo_code (Split.code s)) (Result.splits result).
Hypothesis Hcontrols :
  Forall (λ c, trailo_code (CourseControl.code c)) controls.

Lemma int_prefix_total code :
  trailo_code code → ∃ n, int_prefix code = Value n.
Proof. intros [[n Hn] _]. unfold int_prefix. rewrite Hn. cbn. eauto. Qed.

Lemma last_letter_total code :
  trailo_code code → ∃ a, last_letter code = Value a.
Proof. intros [_ [a Ha]]. unfold last_letter. rewrite Ha. cbn. eauto. Qed.

Lemma calculate_scores_trailo_total :
  ∃ scores, calculate_scores_trailo race result = Value scores.
Proof.
  subst controls. unfold calculate_scores_trailo, course_controls in *.
  destruct (Race.find_course race result) as [course|]; [|eauto].
  apply fold_fallible_total.
  eapply list.Forall_impl; [exact Hcontrols|]. intros c Hc b.
  destruct (int_prefix_total _ Hc) as [n ->]. cbn.
  destruct (100 <=? n); [eauto|].
  destruct (find_fallible_total (trailo_right_answer c) (Result.splits result))
    as [found ->]; [|cbn; eauto].
  eapply list.Forall_impl; [exact Hpunches|]. intros s Hs.
  unfold trailo_right_answer.
  destruct (int_prefix_total _ Hs) as [m ->], (int_prefix_total _ Hc) as [k ->].
  cbn. destruct (m =? k); [|eauto].
  destruct (last_letter_total _ Hs) as [x ->], (last_letter_total _ Hc) as [y ->].
  cbn. eauto.
Qed.

Lemma calculate_time_trailo_total :
  ∃ time, calculate_time_trailo race result = Value time.
Proof.
  subst controls. unfold calculate_time_trailo, course_controls in *.
  destruct (Race.find_course race result) as [course|]; [|eauto].
  apply fold_fallible_total.
  eapply list.Forall_impl; [exact Hcontrols|]. intros c Hc b.
  destruct (last_letter_total _ Hc) as [y ->]. cbn.
  destruct (negb _); [eauto|].
  destruct (find_fallible_total (trailo_timed_punch c) (Result.splits result))
    as [found ->]; [|cbn; eauto].
  eapply list.Forall_impl; [exact Hpunches|]. intros s Hs.
  unfold trailo_timed_punch.
  destruct (int_prefix_total _ Hs) as [m ->], (int_prefix_total _ Hc) as [k ->].
  cbn. destruct (m =? k); [|eauto].
  destruct (last_letter_total _ Hs) as [x ->]. cbn. eauto.
Qed.

End Trailo.

Lemma trailo_raises race result :
  raises_only (λ e, e = ValueError ∨ e = IndexError)
    (calculate_scores_trailo race result)
  ∧ raises_only (λ e, e = ValueError ∨ e = IndexError)
      (calculate_time_trailo race result).
Proof.
  unfold calculate_scores_trailo, calculate_time_trailo, trailo_right_answer,
    trailo_timed_punch, int_prefix, last_letter.
  split; solve_raises; auto.
Qed.

(** X13: [_process_trailo_mode] writes nothing when it raises, and raises
    only ValueError or IndexError, for a code that is not a number
    followed by a letter; with such codes on all punches and controls it
    returns.  When it returns, the score and the score penalty it stores
    add up to the number of controls answered right, which is at most the
    number of controls; the penalty is between zero and that number, so
    the score stored is never negative; punches, status and person are as
    before. *)
Theorem process_trailo_mode_spec (race : Race.t) (mem : Memory.t)
    (result : Result.t) :
  let run := _process_trailo_mode race mem result in
  let controls := course_controls race result in
  (∀ e r', run = Raise e r' → r' = result ∧ (e = ValueError ∨ e = IndexError))
  ∧ (∀ r', run = Return tt r' →
       ∃ scores,
         calculate_scores_trailo race result = Value scores
         ∧ 0 ≤ scores ≤ Z.of_nat (List.length controls)
         ∧ Result.trailo_score r' + Result.trailo_score_penalty r' = scores
         ∧ 0 ≤ Result.trailo_score_penalty r' ≤ scores
         ∧ calculate_time_trailo race result = Value (Result.trailo_time r')
         ∧ Result.splits r' = Result.splits result
         ∧ Result.status r' = Result.status result
         ∧ Result.person r' = Result.person result)
  ∧ (Forall (λ s, trailo_code (Split.code s)) (Result.splits result) →
     Forall (λ c, trailo_code (CourseControl.code c)) controls →
     ∃ r', run = Return tt r').
Proof.
  intros run controls. subst run.
  unfold _process_trailo_mode, mbind, action_bind, get, lift, modify.
  destruct (trailo_raises race result) as [Hscores_err Htime_err].
  pose proof (calculate_scores_trailo_range race result) as Hrange.
  destruct (calculate_scores_trailo race result) as [scores|e1] eqn:Hscores.
  2:{ split; [|split]; [|done|].
      - intros e r' [= <- <-]. done.
      - intros Hp Hc.
        destruct (calculate_scores_trailo_total race result Hp Hc) as [? Hv].
        congruence. }
  specialize (Hrange scores eq_refl).
  destruct (rogaine_penalty_total mem result scores (VInt 1)) as [penalty Hpen].
  { by eexists. }
  rewrite Hpen.
  destruct (rogaine_penalty_range mem result scores (VInt 1) 1 penalty
              eq_refl ltac:(lia) Hpen) as [Hle Hge].
  destruct (calculate_time_trailo race result) as [time|e3] eqn:Htime.
  2:{ split; [|split]; [|done|].
      - intros e r' [= <- <-]. done.
      - intros Hp Hc.
        destruct (calculate_time_trailo_total race result Hp Hc) as [? Hv].
        congruence. }
  split; [done|]. split; [|eauto].
  intros r' [= <-]. exists scores. specialize (Hge ltac:(lia)).
  subst controls. cbn. repeat split; try done; lia.
Qed.

Lemma process_trailo_mode_spec_witness :
  let result :=
    fresh_result (Some (runner (Some (group_with_limit 0))))
      [Split.punch "1A" 100 false false; Split.punch "2A" 200 false false;
       Split.punch "101T" 45 false false]
      0 300 OK in
  ∃ r', _process_trailo_mode trailo_race sample_memory result = Return tt r'
        ∧ Result.trailo_score r' = 1.
Proof.
  intros result.
  destruct (process_trailo_mode_spec trailo_race sample_memory result)
    as (_ & Hreturn & Hruns).
  destruct Hruns as [r' Hrun].
  { repeat constructor; by eexists. }
  { repeat constructor; by eexists. }
  exists r'. split; [exact Hrun|].
  destruct (Hreturn r' Hrun) as (scores & _).
  unfold result in Hrun. vm_compute in Hrun. by injection Hrun as <-.
Defined.

(** ** Penalty of the marked route *)

Lemma penalty_calculation_nonneg get_number_code splits controls check_existence :
  0 ≤ penalty_calculation get_number_code splits controls check_existence.
Proof.
  unfold penalty_calculation.
  set (shortfall := if _ && _ then _ else _).
  assert (0 ≤ shortfall).
  { subst shortfall. destruct (_ && _) eqn:Hc; [|lia].
    apply andb_true_iff in Hc as [_ Hlt%Nat.ltb_lt]. lia. }
  clearbody shortfall.
  destruct (get_marked_route_incorrect_list controls).
  - lia.
  - rewrite count_punched_incorrect. lia.
Qed.

Lemma counted_penalty_range race mem splits course :
  0 ≤ counted_penalty race mem splits course
  ∧ (Setting.truthy
       (Race.get_setting race "marked_route_max_penalty_by_cp" (VBool false))
     = true →
     counted_penalty race mem splits course
     ≤ Z.of_nat (List.length (Course.controls course))).
Proof.
  unfold counted_penalty.
  set (penalty := if Setting.truthy (Race.get_setting race "marked_route_dont_dsq" _)
                  then _ else _).
  assert (0 ≤ penalty).
  { subst penalty. destruct (Setting.truthy _).
    - rewrite penalty_calculation_free_order_eq. lia.
    - apply penalty_calculation_nonneg. }
  destruct (Setting.truthy (Race.get_setting race "marked_route_max_penalty_by_cp" _));
    split; intros; (done || lia).
Qed.

Lemma standard_penalty_outcome race mem group course mode result :
  let mode' := penalty_mode group mode in
  Setting.is_str mode' "laps"
  && Setting.truthy (Race.get_setting race "marked_route_if_station_check" VNone)
  = false →
  let penalty := counted_penalty race mem (Result.splits result) course in
  let cleared :=
    Result.set_penalty_time OTime.zero (Result.set_penalty_laps 0 result) in
  _calculate_standard_penalty race mem group course mode result
  = if Setting.is_str mode' "laps"
    then Return tt (Result.set_penalty_laps penalty cleared)
    else if Setting.is_str mode' "time" then
      match otime_setting race "marked_route_penalty_time" 60000 with
      | Value time_for_one_penalty =>
          Return tt (Result.set_penalty_time (time_for_one_penalty * penalty)
                       cleared)
      | Error e => Raise e cleared
      end
    else Return tt cleared.
Proof.
  intros mode' Hplain penalty cleared. subst mode' penalty cleared.
  rewrite standard_penalty_mode.
  unfold _calculate_standard_penalty.
  change (Py.has_substring "_min" (Py.lower (Group.name (Group.mk "" 0 false false))))
    with false.
  change (Py.has_substring "_lap" (Py.lower (Group.name (Group.mk "" 0 false false))))
    with false.
  cbv iota. rewrite Hplain.
  unfold mbind, action_bind, get, lift, modify, mret, action_ret.
  destruct (Setting.is_str (penalty_mode group mode) "laps"); [done|].
  destruct (Setting.is_str (penalty_mode group mode) "time"); [|done].
  by destruct (otime_setting race _ _).
Qed.

(** X14: when [_calculate_standard_penalty] returns, the penalty counted
    on the punches left on the result is not negative, and not above the
    number of controls where the cap by controls is set; it is stored as
    penalty laps in the mode "laps" and as a multiple of the time for one
    penalty in the mode "time", the other of the two being zero, and both
    are zero in any other mode; a group name with "_lap" or "_min" decides
    the mode whatever the setting; status and person are as before. *)
Theorem calculate_standard_penalty_spec (race : Race.t) (mem : Memory.t)
    (group : Group.t) (course : Course.t) (mode : setting)
    (result r' : Result.t) :
  _calculate_standard_penalty race mem group course mode result = Return tt r' →
  let mode' := penalty_mode group mode in
  let penalty := counted_penalty race mem (Result.splits r') course in
  0 ≤ penalty
  ∧ (Setting.truthy
       (Race.get_setting race "marked_route_max_penalty_by_cp" (VBool false))
     = true →
     penalty ≤ Z.of_nat (List.length (Course.controls course)))
  ∧ (if Setting.is_str mode' "laps"
     then Result.penalty_laps r' = penalty ∧ Result.penalty_time r' = 0
     else if Setting.is_str mode' "time"
     then Result.penalty_laps r' = 0
          ∧ ∃ time_for_one_penalty,
              otime_setting race "marked_route_penalty_time" 60000
              = Value time_for_one_penalty
              ∧ Result.penalty_time r' = time_for_one_penalty * penalty
     else Result.penalty_laps r' = 0 ∧ Result.penalty_time r' = 0)
  ∧ (Result.penalty_laps r' = 0 ∨ Result.penalty_time r' = 0)
  ∧ Result.status r' = Result.status result
  ∧ Result.person r' = Result.person result.
Proof.
  intros Hrun mode' penalty.
  destruct (counted_penalty_range race mem (Result.splits r') course)
    as [Hpos Hcap].
  split; [exact Hpos|]. split; [exact Hcap|]. subst penalty.
  destruct (Setting.is_str mode' "laps"
            && Setting.truthy
                 (Race.get_setting race "marked_route_if_station_check" VNone))
    eqn:Hdetach.
  - apply andb_true_iff in Hdetach as [Hlaps Hcheck].
    rewrite (standard_penalty_laps_outcome _ _ _ _ _ _ Hlaps Hcheck) in Hrun.
    destruct (detach_penalty_laps2 _ _) as [[regular laps]|e]; [|done].
    injection Hrun as <-. rewrite Hlaps. cbn. repeat split; auto.
  - rewrite (standard_penalty_outcome _ _ _ _ _ _ Hdetach) in Hrun.
    fold mode' in Hrun.
    destruct (Setting.is_str mode' "laps").
    { injection Hrun as <-. cbn. repeat split; auto. }
    destruct (Setting.is_str mode' "time").
    2:{ injection Hrun as <-. cbn. repeat split; auto. }
    destruct (otime_setting race _ _) as [unit|e]; [|done].
    injection Hrun as <-. cbn. repeat split; eauto.
Qed.

Lemma calculate_standard_penalty_spec_witness :
  let result :=
    fresh_result (Some (runner (Some group_min)))
      [punched "31"; punched "77"; punched "41"] 0 100 OK in
  let r' := Result.set_penalty_time 60000 result in
  Result.penalty_laps r' = 0
  ∧ ∃ time_for_one_penalty,
      otime_setting penalty_minutes_race "marked_route_penalty_time" 60000
      = Value time_for_one_penalty
      ∧ Result.penalty_time r'
        = time_for_one_penalty
          * counted_penalty penalty_minutes_race sample_memory
              (Result.splits r') (Course.mk [control "31"; control "41"] 0).
Proof.
  intros result r'.
  assert (_calculate_standard_penalty penalty_minutes_race sample_memory
            group_min (Course.mk [control "31"; control "41"] 0) (VStr "laps")
            result = Return tt r') as Hrun.
  { vm_compute. reflexivity. }
  destruct (calculate_standard_penalty_spec penalty_minutes_race sample_memory
              group_min (Course.mk [control "31"; control "41"] 0) (VStr "laps")
              result r' Hrun) as (_ & _ & Hmode & _).
  exact Hmode.
Defined.

(** ** Scores mode *)

(** X15: [_process_scores_mode] writes nothing when it raises, and raises
    only TypeError or ValueError; when it returns, the score and the
    penalty it stores add up to the score of the punches, the penalty is
    not above that score, and with a penalty step and a score that are
    not negative neither is the penalty, so that the score stored is
    between zero and the score of the punches; punches, status and person
    are as before. *)
Theorem process_scores_mode_spec (race : Race.t) (mem : Memory.t)
    (result : Result.t) :
  let run := _process_scores_mode race mem result in
  let allow_duplicates :=
    Race.get_setting race "result_processing_scores_allow_duplicates"
      (VBool false) in
  let penalty_step :=
    Race.get_setting race "result_processing_scores_minute_penalty" (VInt 1) in
  (∀ e r', run = Raise e r' → r' = result ∧ (e = TypeError ∨ e = ValueError))
  ∧ (∀ r', run = Return tt r' →
       ∃ score,
         calculate_rogaine_score race result allow_duplicates = Value score
         ∧ Result.rogaine_score r' + Result.rogaine_penalty r' = score
         ∧ Result.rogaine_penalty r' ≤ score
         ∧ (∀ step, Setting.number penalty_step = Some step → 0 ≤ step →
              0 ≤ score →
              0 ≤ Result.rogaine_penalty r' ∧ 0 ≤ Result.rogaine_score r' ≤ score)
         ∧ Result.splits r' = Result.splits result
         ∧ Result.status r' = Result.status result
         ∧ Result.person r' = Result.person result).
Proof.
  intros run allow_duplicates penalty_step. subst run.
  unfold _process_scores_mode, mbind, action_bind, get, lift, modify.
  fold allow_duplicates penalty_step.
  assert (raises_only (λ e, e = TypeError ∨ e = ValueError)
            (calculate_rogaine_score race result allow_duplicates)) as Hscore_err.
  { unfold calculate_rogaine_score. generalize (@nil string) 0.
    induction (Result.splits result) as [|s l IH]; intros ua score; [done|].
    rewrite rogaine_loop_cons. destruct (negb _ || _); [|apply IH].
    destruct (get_control_score_outcome race (Split.code s)) as [[p ->]| ->].
    - cbn. apply IH.
    - cbn. unfold score_error. destruct (Setting.is_str _ _); auto. }
  destruct (calculate_rogaine_score race result allow_duplicates)
    as [score|e1] eqn:Hscore.
  2:{ split; [|done]. intros e r' [= <- <-]. done. }
  assert (raises_only (λ e, e = TypeError ∨ e = ValueError)
            (calculate_rogaine_penalty mem result score penalty_step))
    as Hpen_err.
  { unfold calculate_rogaine_penalty. solve_raises; auto. }
  destruct (calculate_rogaine_penalty mem result score penalty_step)
    as [penalty|e2] eqn:Hpen.
  2:{ split; [|done]. intros e r' [= <- <-]. done. }
  split; [done|]. intros r' [= <-]. exists score. cbn.
  split; [done|]. split; [lia|].
  assert (penalty ≤ score) as Hle.
  { revert Hpen. unfold calculate_rogaine_penalty.
    intros (p & _ & [= <-])%fallible_bind_Value_inv. lia. }
  split; [done|]. split; [|done].
  intros step Hstep Hpos Hscore0.
  destruct (rogaine_penalty_range mem result score penalty_step step penalty
              Hstep Hpos Hpen) as [_ Hge].
  specialize (Hge Hscore0). lia.
Qed.

Lemma process_scores_mode_spec_witness :
  let result :=
    fresh_result (Some (runner (Some (group_with_limit (minutes 60)))))
      [punched "31"; punched "42"; punched "31"] 0 (minutes 61 + 1000) OK in
  let r' := Result.set_rogaine_penalty 2 (Result.set_rogaine_score 0 result) in
  ∃ score,
    calculate_rogaine_score (scores_race 0) result (VBool false) = Value score
    ∧ Result.rogaine_score r' + Result.rogaine_penalty r' = score.
Proof.
  intros result r'.
  destruct (process_scores_mode_spec (scores_race 0) sample_memory result)
    as [_ Hreturn].
  destruct (Hreturn r') as (score & Hscore & Hsum & _).
  { vm_compute. reflexivity. }
  exists score. split; [exact Hscore|exact Hsum].
Defined.

Lemma fold_fallible_multiple {A} (f : Z → A → fallible Z) (d : Z) l b v :
  (∀ b a b', f b a = Value b' → b' = b ∨ b' = b + d) →
  fold_fallible f l b = Value v →
  ∃ k, (k ≤ List.length l)%nat ∧ v = b + d * Z.of_nat k.
Proof.
  intros Hf. revert b. induction l as [|a l IH]; intros b; cbn [fold_fallible].
  { intros [= <-]. exists 0%nat. split; [done|lia]. }
  intros (b' & Hstep & Hrest)%fallible_bind_Value_inv.
  destruct (IH b' Hrest) as (k & Hk & ->).
  destruct (Hf b a b' Hstep) as [-> | ->].
  - exists k. cbn. split; lia.
  - exists (S k). cbn [List.length]. split; lia.
Qed.

(** X16: [penalty_calculation_trailo] raises only TypeError, ValueError or
    IndexError; when it returns, the penalty is the penalty time of the
    settings times a number of controls of the course; it is zero without
    punches, and zero when every control has a number below 100. *)
Theorem penalty_calculation_trailo_spec (race : Race.t)
    (splits : list Split.t) (controls : list CourseControl.t) :
  let run := penalty_calculation_trailo race splits controls in
  (∀ e, run = Error e → e = TypeError ∨ e = ValueError ∨ e = IndexError)
  ∧ (∀ penalty, run = Value penalty →
       (∃ penalty_time k,
          otime_setting race "marked_route_penalty_time" 60000 = Value penalty_time
          ∧ (k ≤ List.length controls)%nat
          ∧ penalty = penalty_time * Z.of_nat k)
       ∧ (splits = [] → penalty = 0)
       ∧ (Forall (λ c, ∃ n, Py.int (Py.but_last (CourseControl.code c)) = Some n
                            ∧ n < 100) controls →
          penalty = 0)).
Proof.
  intros run. subst run. split.
  - intros e Herr.
    assert (raises_only (λ e, e = TypeError ∨ e = ValueError ∨ e = IndexError)
              (penalty_calculation_trailo race splits controls)) as Hraises.
    { unfold penalty_calculation_trailo, trailo_wrong_answer, otime_setting,
        int_prefix, last_letter.
      solve_raises; auto. }
    by rewrite Herr in Hraises.
  - intros penalty. unfold penalty_calculation_trailo.
    intros (penalty_time & Htime & Hfold)%fallible_bind_Value_inv.
    split; [|split].
    + apply (fold_fallible_multiple _ penalty_time) in Hfold
        as (k & Hk & ->).
      { exists penalty_time, k. split; [done|]. split; [done|].
        unfold OTime.zero. lia. }
      intros b a b' Hstep.
      apply fallible_bind_Value_inv in Hstep as (code & _ & Hstep).
      destruct (code <? 100); [injection Hstep as <-; auto|].
      apply fallible_bind_Value_inv in Hstep as (found & _ & Hstep).
      injection Hstep as <-. destruct found; auto.
    + intros ->. revert Hfold. unfold OTime.zero. generalize 0.
      induction controls as [|c l IH]; intros b; cbn [fold_fallible].
      { by intros [= <-]. }
      intros (b' & Hstep & Hrest)%fallible_bind_Value_inv.
      apply fallible_bind_Value_inv in Hstep as (code & _ & Hstep).
      destruct (code <? 100); [injection Hstep as <-; by apply IH|].
      cbn in Hstep. injection Hstep as <-. by apply IH.
    + intros Hlow. revert Hfold. unfold OTime.zero. generalize 0.
      induction Hlow as [|c l (n & Hn & Hlt) _ IH]; intros b; cbn [fold_fallible].
      { by intros [= <-]. }
      intros (b' & Hstep & Hrest)%fallible_bind_Value_inv.
      unfold int_prefix in Hstep. rewrite Hn in Hstep. cbn in Hstep.
      destruct (Z.ltb_spec n 100); [|lia].
      injection Hstep as <-. by apply IH.
Qed.

Lemma penalty_calculation_trailo_spec_witness :
  penalty_calculation_trailo trailo_race
    [Split.punch "101A" 10 false false; Split.punch "102B" 20 false false]
    [control "101B"; control "102B"; control "5A"]
  = Value 60000
  ∧ penalty_calculation_trailo trailo_race []
      [control "101B"; control "102B"; control "5A"]
    = Value 0.
Proof.
  split; [reflexivity|].
  destruct (penalty_calculation_trailo_spec trailo_race []
              [control "101B"; control "102B"; control "5A"]) as [_ Hvalue].
  destruct (penalty_calculation_trailo trailo_race []
              [control "101B"; control "102B"; control "5A"]) as [penalty|e] eqn:Hrun.
  - destruct (Hvalue penalty eq_refl) as (_ & Hnone & _).
    by rewrite (Hnone eq_refl).
  - vm_compute in Hrun. discriminate Hrun.
Defined.
